(** * ColonoMind tester: a shallow embedding of the test pipeline

    The development follows the four Python modules of the repository:

    - [ResultsAnalyzer]    (results_analyzer.py): the result list and the
      accuracy and timing summaries derived from it;
    - [TestDatasetManager] (test_dataset_manager.py): loading labelled images
      from a class-partitioned directory tree, class counts, batching;
    - [ColonoMindTester]   (colonoscopy_tester.py): extraction of the
      classification from what the browser driver returns, and, in
      [Polling], the wait for the classification;
    - [RunTests]           (run_tests.py): the choice of the images, the
      sequential loop that records one outcome per image, with its per-item
      exception boundary and the intermediate flushes, and the final
      summary.

    Conventions.  A Python [int] is a [Z]; a Python [float] is a rational [Q]
    (exact arithmetic: rounding is not modelled); [None] is [None] of an
    [option]; a [str] is a [string] whose characters are code points below
    256; a [dict] with string or integer keys is a [gmap].  An operation
    that may raise returns a sum whose left side is the exception. *)

From Stdlib Require Import ZArith QArith String Ascii List Sorted Lia Lqa.
From stdpp Require Import gmap strings list sorting pretty.

Close Scope Q_scope.
Local Open Scope string_scope.
Local Open Scope list_scope.
Local Open Scope Z_scope.

(** * Python values shared by the modules *)

Module Py.

(** The two numeric types a summary dictionary holds. *)
Inductive pyval : Type :=
| PyInt (z : Z)
| PyFloat (q : Q).

(** The number a value denotes. *)
Definition to_Q (v : pyval) : Q :=
  match v with
  | PyInt z => inject_Z z
  | PyFloat q => q
  end.

(** Exceptions, by the two handlers of the run loop: [KeyboardInterrupt] is
    not an [Exception]; every other exception the model raises is, and
    carries the text [str(e)]. *)
Inductive exn : Type :=
| KeyboardInterrupt
| Exception (msg : string).

(** [len(l)] as a Python int. *)
Definition len {A} (l : list A) : Z := Z.of_nat (length l).

(** [a / b] on two ints or floats known to be non-zero on the right. *)
Definition truediv (a b : Q) : Q := (a / b)%Q.

(** [sum(xs)]: the built-in starts from the int [0] and adds from the
    left. *)
Definition sum (xs : list Q) : pyval :=
  match xs with
  | [] => PyInt 0
  | _ => PyFloat (fold_left Qplus xs (inject_Z 0))
  end.

(** [s.split('/')]: the pieces between separators. *)
Fixpoint split_on (sep : ascii) (s : string) : list string :=
  match s with
  | EmptyString => [EmptyString]
  | String c s' =>
      if Ascii.eqb c sep then EmptyString :: split_on sep s'
      else match split_on sep s' with
           | [] => [String c EmptyString]
           | p :: ps => String c p :: ps
           end
  end.

(** [Path(p).name] on a POSIX path: the last component, where empty and
    ["."] components do not count. *)
Definition path_name (p : string) : string :=
  List.last
    (List.filter (fun c => negb (String.eqb c "" || String.eqb c "."))
                 (split_on "/" p))
    "".

(** [s.rfind('.')] *)
Fixpoint rfind_dot (s : string) : option nat :=
  match s with
  | EmptyString => None
  | String c s' =>
      match rfind_dot s' with
      | Some i => Some (S i)
      | None => if Ascii.eqb c "." then Some 0%nat else None
      end
  end.

(** [PurePath.suffix] of a file name: the text from the last dot on, when
    that dot is neither the first nor the last character. *)
Definition suffix (name : string) : string :=
  match rfind_dot name with
  | Some i =>
      if ((0 <? i)%nat && (i <? String.length name - 1)%nat)%bool
      then String.substring i (String.length name - i) name
      else ""
  | None => ""
  end.

(** [PurePath.stem] of a file name: the name without its suffix. *)
Definition stem (name : string) : string :=
  match rfind_dot name with
  | Some i =>
      if ((0 <? i)%nat && (i <? String.length name - 1)%nat)%bool
      then String.substring 0 i name
      else name
  | None => name
  end.

(** The root of a POSIX path as [pathlib] parses it: ["/"], or ["//"] for
    exactly two leading slashes, or none. *)
Definition path_root (p : string) : string :=
  if String.prefix "///" p then "/"
  else if String.prefix "//" p then "//"
  else if String.prefix "/" p then "/"
  else "".

(** The components of a path: empty and ["."] components do not count. *)
Definition path_parts (p : string) : list string :=
  List.filter (fun c => negb (String.eqb c "" || String.eqb c "."))
              (split_on "/" p).

Definition path_render (root : string) (parts : list string) : string :=
  match parts with
  | [] => if String.eqb root "" then "." else root
  | _ => root +:+ String.concat "/" parts
  end.

(** [str(Path(p))]: a leading ["./"], doubled and trailing slashes are
    dropped. *)
Definition path_str (p : string) : string :=
  path_render (path_root p) (path_parts p).

(** [str(Path(parent) / name)]: an absolute [name] replaces the parent. *)
Definition joinpath (parent name : string) : string :=
  if String.eqb (path_root name) ""
  then path_render (path_root parent) (path_parts parent ++ path_parts name)
  else path_str name.

(** [a % b] on ints: the sign follows the divisor, and a zero divisor
    raises. *)
Definition mod_ (a b : Z) : exn + Z :=
  if b =? 0 then inl (Exception "integer modulo by zero") else inr (a mod b).

(** [range(start, stop, step)] as the list it iterates over. *)
Definition range (start stop step : Z) : exn + list Z :=
  if step =? 0 then inl (Exception "range() arg 3 must not be zero")
  else
    let n := if 0 <? step
             then (stop - start + step - 1) / step
             else (start - stop - step - 1) / (- step) in
    inr ((λ k, start + Z.of_nat k * step) <$> seq 0 (Z.to_nat n)).

(** A slice bound brought into [0 .. len]: negative bounds count from the
    end, and bounds outside the list are clamped. *)
Definition clamp_index (n i : Z) : nat :=
  Z.to_nat (if i <? 0 then Z.max 0 (i + n) else Z.min i n).

(** [l[i:j]] *)
Definition slice {A} (l : list A) (i j : Z) : list A :=
  let a := clamp_index (len l) i in
  let b := clamp_index (len l) j in
  take (b - a)%nat (drop a l).

End Py.

Import Py.

(** * results_analyzer.py *)

Module ResultsAnalyzer.

(** One entry of [self.results]: the dictionary [add_result] appends. *)
Record result : Type := mk_result {
  image_path : string;
  image_name : string;
  ground_truth : Z;
  predicted : option Z;
  processing_time : Q;
  success : bool;
  correct : bool;
  error : string
}.

(** [add_result]: append one entry; [correct] is decided here. *)
Definition add_result (results : list result)
    (image_path : string) (ground_truth : Z) (predicted : option Z)
    (processing_time : Q) (success : bool) (error_msg : string)
  : list result :=
  results ++
  [ {| image_path := image_path;
       image_name := path_name image_path;
       ground_truth := ground_truth;
       predicted := predicted;
       processing_time := processing_time;
       success := success;
       correct := match predicted with
                  | Some p => bool_decide (p = ground_truth)
                  | None => false
                  end;
       error := error_msg |} ].

(** The entries [add_result] can have produced. *)
Definition recorded (r : result) : Prop :=
  correct r = match predicted r with
              | Some p => bool_decide (p = ground_truth r)
              | None => false
              end
  ∧ image_name r = path_name (image_path r).

(** [[r for r in self.results if r['success'] and r['predicted'] is not None]] *)
Definition successful_results (results : list result) : list result :=
  filter (λ r, success r = true ∧ is_Some (predicted r)) results.

(** [sklearn.metrics.accuracy_score]: the fraction of positions where the
    two label lists agree. *)
Definition accuracy_score (y_true y_pred : list Z) : Q :=
  truediv (inject_Z (len (filter (λ tp, tp.1 = tp.2) (zip y_true y_pred))))
          (inject_Z (len y_true)).

(** The results of one class among the successful ones. *)
Definition class_results (successful : list result) (mes_class : Z)
  : list result :=
  filter (λ r, ground_truth r = mes_class) successful.

(** [sum(1 for r in class_results if r['correct'])] *)
Definition count_correct (rs : list result) : Z :=
  len (filter (λ r, correct r = true) rs).

Definition accuracy_key (mes_class : Z) : string :=
  "MES_" +:+ pretty mes_class +:+ "_accuracy".

(** The loop over [[0, 1, 2, 3]] that fills [per_class_accuracy]. *)
Definition per_class_accuracy (successful : list result)
  : gmap string pyval :=
  foldl (λ acc mes_class,
           let cr := class_results successful mes_class in
           match cr with
           | [] => <[accuracy_key mes_class := PyFloat (inject_Z 0)]> acc
           | _ => <[accuracy_key mes_class :=
                      PyFloat (truediv (inject_Z (count_correct cr))
                                       (inject_Z (len cr)))]> acc
           end)
        ∅ [0; 1; 2; 3].

(** [calculate_accuracy_metrics] *)
Definition calculate_accuracy_metrics (results : list result)
  : gmap string pyval :=
  let successful := successful_results results in
  match successful with
  | [] =>
      <["overall_accuracy" := PyFloat (inject_Z 0)]>
      (<["total_tested" := PyInt (len results)]>
      (<["successful_tests" := PyInt 0]>
      (<["failed_tests" := PyInt (len results)]> ∅)))
  | _ =>
      let y_true := ground_truth <$> successful in
      let y_pred := omap predicted successful in
      let overall_accuracy := accuracy_score y_true y_pred in
      (* a later key of the literal wins: the unpacked per-class entries
         are written last *)
      per_class_accuracy successful ∪
      (<["overall_accuracy" := PyFloat overall_accuracy]>
      (<["total_tested" := PyInt (len results)]>
      (<["successful_tests" := PyInt (len successful)]>
      (<["failed_tests" := PyInt (len results - len successful)]> ∅))))
  end.

(** ** numpy reductions used by the timing statistics *)

Definition np_mean (xs : list Q) : Q :=
  truediv (fold_left Qplus xs (inject_Z 0)) (inject_Z (len xs)).

Fixpoint insert_sorted (x : Q) (l : list Q) : list Q :=
  match l with
  | [] => [x]
  | y :: l' => if Qle_bool x y then x :: l else y :: insert_sorted x l'
  end.

Definition np_sort (xs : list Q) : list Q := foldr insert_sorted [] xs.

(** [np.median]: the middle of the sorted values, or the mean of the two
    middle ones. *)
Definition np_median (xs : list Q) : Q :=
  let s := np_sort xs in
  let n := length s in
  if Nat.even n
  then truediv (nth (n / 2 - 1)%nat s (inject_Z 0) + nth (n / 2)%nat s (inject_Z 0))%Q
               (inject_Z 2)
  else nth (n / 2)%nat s (inject_Z 0).

Definition np_min (xs : list Q) : Q :=
  match xs with
  | [] => inject_Z 0
  | x :: xs' => fold_left (λ m y, if Qle_bool y m then y else m) xs' x
  end.

Definition np_max (xs : list Q) : Q :=
  match xs with
  | [] => inject_Z 0
  | x :: xs' => fold_left (λ m y, if Qle_bool m y then y else m) xs' x
  end.

(** [np.var] with the default [ddof=0]. *)
Definition np_var (xs : list Q) : Q :=
  let mu := np_mean xs in
  np_mean ((λ x, (x - mu) * (x - mu))%Q <$> xs).

Section Timing.

(** The square root of numpy, which has no rational counterpart. *)
Variable np_sqrt : Q → Q.

Definition np_std (xs : list Q) : Q := np_sqrt (np_var xs).

(** [[r['processing_time'] for r in self.results if r['success']]] *)
Definition successful_times (results : list result) : list Q :=
  processing_time <$> filter (λ r, success r = true) results.

(** [calculate_timing_statistics] *)
Definition calculate_timing_statistics (results : list result)
  : gmap string pyval :=
  let times := successful_times results in
  match times with
  | [] =>
      <["mean_time" := PyFloat (inject_Z 0)]>
      (<["median_time" := PyFloat (inject_Z 0)]>
      (<["min_time" := PyFloat (inject_Z 0)]>
      (<["max_time" := PyFloat (inject_Z 0)]>
      (<["std_time" := PyFloat (inject_Z 0)]>
      (<["total_time" := Py.sum (processing_time <$> results)]> ∅)))))
  | _ =>
      <["mean_time" := PyFloat (np_mean times)]>
      (<["median_time" := PyFloat (np_median times)]>
      (<["min_time" := PyFloat (np_min times)]>
      (<["max_time" := PyFloat (np_max times)]>
      (<["std_time" := PyFloat (np_std times)]>
      (<["total_time" := Py.sum (processing_time <$> results)]> ∅)))))
  end.

(** The five entries of the distribution, as a function of the successful
    times alone. *)
Definition distribution (times : list Q) (key : string) : option pyval :=
  match times with
  | [] =>
      if bool_decide (key ∈ ["mean_time"; "median_time"; "min_time";
                             "max_time"; "std_time"])
      then Some (PyFloat (inject_Z 0)) else None
  | _ =>
      if bool_decide (key = "mean_time") then Some (PyFloat (np_mean times))
      else if bool_decide (key = "median_time") then Some (PyFloat (np_median times))
      else if bool_decide (key = "min_time") then Some (PyFloat (np_min times))
      else if bool_decide (key = "max_time") then Some (PyFloat (np_max times))
      else if bool_decide (key = "std_time") then Some (PyFloat (np_std times))
      else None
  end.

End Timing.

(** The accuracy of one class among the successful results [S], in the
    words of the specification. *)
Definition class_accuracy (S : list result) (c : Z) : Q :=
  match class_results S c with
  | [] => inject_Z 0
  | cr =>
      truediv
        (inject_Z (len (filter (λ r, predicted r = Some (ground_truth r)) cr)))
        (inject_Z (len cr))
  end.

(** The three outcomes of the worked example: labels 1, 1, 2 with
    predictions 1, 2, 2, all successful; paths and times are free. *)
Definition example_results (p1 p2 p3 : string) (t1 t2 t3 : Q) : list result :=
  add_result
    (add_result
       (add_result [] p1 1 (Some 1) t1 true "")
       p2 1 (Some 2) t2 true "")
    p3 2 (Some 2) t3 true "".

(** A run in which the only trial failed. *)
Definition one_failed : list result :=
  add_result [] "/data/MES 1/a.jpg" 1 None (5 # 2)%Q false
             "Failed to process image".

(** The sum of a list of times, as a mathematical sum. *)
Definition Qsum (xs : list Q) : Q := foldr Qplus (inject_Z 0) xs.

(** A failed outcome as the loop records it. *)
Definition failure_row : result :=
  {| image_path := "/data/MES 3/z.jpg"; image_name := "z.jpg";
     ground_truth := 3; predicted := None; processing_time := (9 # 2)%Q;
     success := false; correct := false;
     error := "Failed to process image" |}.

(** ** The summary of [save_summary] *)

Definition distribution_key (mes_class : Z) : string :=
  "MES_" +:+ pretty mes_class.

(** The loop of lines 162 to 168: for each class, the number of results
    with that ground truth and the number with that prediction. *)
Definition class_distribution (results : list result)
  : gmap string Z * gmap string Z :=
  foldl (λ dist mes_class,
           (<[distribution_key mes_class :=
                len (filter (λ r, ground_truth r = mes_class) results)]> dist.1,
            <[distribution_key mes_class :=
                len (filter (λ r, predicted r = Some mes_class) results)]> dist.2))
        (∅, ∅) [0; 1; 2; 3].

(** The dictionary that [save_summary] dumps. *)
Record summary : Type := {
  accuracy_metrics : gmap string pyval;
  timing_statistics : gmap string pyval;
  distribution_ground_truth : gmap string Z;
  distribution_predicted : gmap string Z
}.

(** [save_summary], up to the writing of the file. *)
Definition save_summary (np_sqrt : Q → Q) (results : list result) : summary :=
  {| accuracy_metrics := calculate_accuracy_metrics results;
     timing_statistics := calculate_timing_statistics np_sqrt results;
     distribution_ground_truth := (class_distribution results).1;
     distribution_predicted := (class_distribution results).2 |}.

End ResultsAnalyzer.

(** * test_dataset_manager.py *)

Module TestDatasetManager.

#[local] Unset Elimination Schemes.
(** What a path of the file system resolves to.  A directory lists its
    entries in the order [iterdir] yields them; [Locked] is a directory the
    process may not list, on which [iterdir] raises [PermissionError];
    [Special] is what is neither a regular file nor a directory. *)
Inductive node : Type :=
| File
| Dir (entries : list (string * node))
| Special
| Locked.
#[local] Set Elimination Schemes.

Definition is_file (n : node) : bool :=
  match n with File => true | _ => false end.

(** The file system as [load_dataset] sees it: what [base_dir] resolves to
    ([None] when it does not exist) and the text of [base_dir.absolute()].
    [exists] and [is_file] answer on every path, as [os.path.exists] and
    [os.path.isfile] do; of the calls of the loader only [iterdir] fails on
    something that exists. *)
Record filesystem : Type := {
  root : option node;
  absolute : string
}.

(** An image with its ground truth: [(image_path, class_label)]. *)
Definition item : Type := string * Z.

Record manager : Type := {
  base_dir : string;
  supported_extensions : list string;
  images : list item;
  total_count : Z
}.

Definition default_extensions : list string :=
  [".jpg"; ".jpeg"; ".png"; ".JPG"; ".JPEG"; ".PNG"].

(** [__init__]: [base_dir] is kept as the text of [Path(base_dir)]; an
    absent or empty extension list selects the default. *)
Definition init (base_dir : string) (supported_extensions : option (list string))
  : manager :=
  {| base_dir := path_str base_dir;
     supported_extensions :=
       match supported_extensions with
       | None | Some [] => default_extensions
       | Some exts => exts
       end;
     images := [];
     total_count := 0 |}.

(** The entry [name] of a directory; nothing lives below a non-directory. *)
Definition child (n : node) (name : string) : option node :=
  match n with
  | Dir entries => snd <$> List.find (λ e, String.eqb e.1 name) entries
  | _ => None
  end.

Definition possible_names (class_label : Z) : list string :=
  ["MES " +:+ pretty class_label; "MES" +:+ pretty class_label; pretty class_label].

(** The inner loop over [possible_names]: the first name that exists. *)
Fixpoint resolve (base : node) (names : list string) : option (string * node) :=
  match names with
  | [] => None
  | name :: names' =>
      match child base name with
      | Some n => Some (name, n)
      | None => resolve base names'
      end
  end.

(** The test of line 67 on one directory entry. *)
Definition accepted (exts : list string) (e : string * node) : bool :=
  is_file e.2 && bool_decide (suffix e.1 ∈ exts).

(** [class_dir.iterdir()] with the filter and the append of the loop body.
    [iterdir] raises on what is not a directory and on a directory that may
    not be listed, before the first entry; the error names [class_dir] as
    it was built, [self.base_dir / name], whose text is [dir] joined with
    the name.  The images carry the absolute path. *)
Definition scan_class (exts : list string) (dir abs_base : string)
    (class_label : Z) (name : string) (n : node) : exn + list item :=
  match n with
  | Dir entries =>
      inr ((λ e, (joinpath (joinpath abs_base name) e.1, class_label))
             <$> List.filter (accepted exts) entries)
  | Locked => inl (Exception ("[Errno 13] Permission denied: '"
                               +:+ joinpath dir name +:+ "'"))
  | _ => inl (Exception ("[Errno 20] Not a directory: '"
                          +:+ joinpath dir name +:+ "'"))
  end.

(** The loop over the four class labels.  [imgs] is [self.images] so far;
    an exception leaves it as it stands. *)
Fixpoint load_classes (exts : list string) (dir abs_base : string) (base : node)
    (classes : list Z) (imgs : list item) : option exn * list item :=
  match classes with
  | [] => (None, imgs)
  | class_label :: classes' =>
      match resolve base (possible_names class_label) with
      | None => load_classes exts dir abs_base base classes' imgs
      | Some (name, n) =>
          match scan_class exts dir abs_base class_label name n with
          | inl e => (Some e, imgs)
          | inr found =>
              load_classes exts dir abs_base base classes' (imgs ++ found)
          end
      end
  end.

(** [load_dataset]: the returned list, or the exception, and the manager
    afterwards. *)
Definition load_dataset (self : manager) (fs : filesystem)
  : (exn + list item) * manager :=
  match root fs with
  | None =>
      (inl (Exception ("Dataset directory does not exist: " +:+ base_dir self)),
       self)
  | Some base =>
      match load_classes (supported_extensions self) (base_dir self) (absolute fs) base
                         [0; 1; 2; 3] [] with
      | (Some e, imgs) =>
          (inl e,
           {| base_dir := base_dir self;
              supported_extensions := supported_extensions self;
              images := imgs;
              total_count := total_count self |})
      | (None, imgs) =>
          (inr imgs,
           {| base_dir := base_dir self;
              supported_extensions := supported_extensions self;
              images := imgs;
              total_count := len imgs |})
      end
  end.

(** [get_class_distribution] *)
Definition get_class_distribution (self : manager) : gmap Z Z :=
  foldl (λ distribution (it : item),
           match distribution !! it.2 with
           | Some count => <[it.2 := count + 1]> distribution
           | None => distribution
           end)
        (<[0 := 0]> (<[1 := 0]> (<[2 := 0]> (<[3 := 0]> ∅))))
        (images self).

(** [get_batches] *)
Definition get_batches (self : manager) (batch_size : Z)
  : exn + list (list item) :=
  match range 0 (len (images self)) batch_size with
  | inl e => inl e
  | inr starts => inr ((λ i, slice (images self) i (i + batch_size)) <$> starts)
  end.

(** The images one class contributes: those of the accepted entries of
    the directory the class resolves to. *)
Definition class_items (exts : list string) (abs_base : string) (base : node)
    (c : Z) : list item :=
  match resolve base (possible_names c) with
  | Some (name, Dir entries) =>
      (λ e, (joinpath (joinpath abs_base name) e.1, c))
        <$> List.filter (accepted exts) entries
  | _ => []
  end.

(** A class is blocked when the first of its names that exists cannot be
    listed: it is not a directory, or it is a directory the process may
    not list. *)
Definition blocked (base : node) (c : Z) : bool :=
  match resolve base (possible_names c) with
  | Some (_, Dir _) => false
  | Some _ => true
  | None => false
  end.

Definition count_label (c : Z) (items : list item) : Z :=
  len (filter (λ it : item, it.2 = c) items).

(** A root directory whose entry ["MES 0"] is a regular file. *)
Definition file_for_class : filesystem :=
  {| root := Some (Dir [("MES 0", File); ("MES 1", Dir [("a.jpg", File)])]);
     absolute := "/data/test_images" |}.

(** A root directory in which the directory of class 1 may not be
    listed. *)
Definition locked_class : filesystem :=
  {| root := Some (Dir [("MES 0", Dir [("a.jpg", File)]); ("MES 1", Locked)]);
     absolute := "/data/test_images" |}.

(** A root directory with the class directories of 1 and 2 only. *)
Definition two_classes : filesystem :=
  {| root := Some (Dir [("MES 1", Dir [("a.jpg", File)]);
                        ("2", Dir [("b.PNG", File); ("notes.txt", File)])]);
     absolute := "/data/test_images" |}.

(** A class directory with [N] regular files of a recognized extension and
    one regular file of an unrecognized one, in any order. *)
Definition class_layout (exts : list string) (N : nat)
    (entries : list (string * node)) : Prop :=
  ∃ good bad,
    entries ≡ₚ good ++ [bad]
    ∧ length good = N
    ∧ Forall (λ e, e.2 = File ∧ suffix e.1 ∈ exts) good
    ∧ bad.2 = File ∧ suffix bad.1 ∉ exts.

(** [validate_dataset]: [path_exists] is [os.path.exists] at the time of the
    call.  The loop visits every image and only lowers the flag. *)
Definition validate_dataset (path_exists : string → bool) (self : manager)
  : bool :=
  foldl (λ all_valid (it : item), if path_exists it.1 then all_valid else false)
        true (images self).

(** The classes the loop of [load_dataset] gets through: those before the
    first one that is blocked. *)
Fixpoint ready_classes (base : node) (classes : list Z) : list Z :=
  match classes with
  | [] => []
  | c :: classes' =>
      if blocked base c then [] else c :: ready_classes base classes'
  end.

(** A root directory in which class 2 is a regular file: the load stops
    there, after classes 0 and 1. *)
Definition blocked_at_two : filesystem :=
  {| root := Some (Dir [("MES 0", Dir [("a.jpg", File)]);
                        ("1", Dir [("b.png", File); ("c.txt", File)]);
                        ("MES2", File);
                        ("MES 3", Dir [("d.jpg", File)])]);
     absolute := "/data" |}.

End TestDatasetManager.

(** * colonoscopy_tester.py *)

Module ColonoMindTester.

(** ** The regular expressions of the extraction

    The patterns of [extract_mes_classification] are built from three
    constructs: a literal character, a starred character class, and the
    one-character capture group. *)

Inductive cset : Type :=
| CSpace                      (* \s *)
| CChar (c : ascii)
| CRange (lo hi : ascii).

Inductive atom : Type :=
| Lit (c : ascii)
| Star (cls : list cset)
| Group (cls : list cset).

Fixpoint lit (s : string) : list atom :=
  match s with
  | EmptyString => []
  | String c s' => Lit c :: lit s'
  end.

(** A character of a text is a code point below 256; texts with other
    characters are outside the model.  Whitespace of [str.isspace], which
    is also that of [\s] in a [str] pattern, among these: tab to carriage
    return, the four separators 28 to 31, the space, next line (133,
    U+0085) and the no-break space (160, U+00A0). *)
Definition is_space (c : ascii) : bool :=
  let n := nat_of_ascii c in
  ((9 <=? n)%nat && (n <=? 13)%nat) || ((28 <=? n)%nat && (n <=? 32)%nat)
  || (n =? 133)%nat || (n =? 160)%nat.

(** A text of ASCII characters only: on such a text the whitespace above
    is the one of Python whatever the encoding of the other characters. *)
Definition plain (s : string) : Prop :=
  Forall (λ c, (nat_of_ascii c <? 128)%nat = true) (list_ascii_of_string s).

Definition lower (c : ascii) : ascii :=
  let n := nat_of_ascii c in
  if ((65 <=? n)%nat && (n <=? 90)%nat)%bool then ascii_of_nat (n + 32) else c.

Definition upper (c : ascii) : ascii :=
  let n := nat_of_ascii c in
  if ((97 <=? n)%nat && (n <=? 122)%nat)%bool then ascii_of_nat (n - 32) else c.

Definition in_cset (x : cset) (c : ascii) : bool :=
  match x with
  | CSpace => is_space c
  | CChar d => Ascii.eqb c d
  | CRange lo hi =>
      ((nat_of_ascii lo <=? nat_of_ascii c)%nat
       && (nat_of_ascii c <=? nat_of_ascii hi)%nat)%bool
  end.

(** Membership in a class; with [re.IGNORECASE] either case of the
    character may be the member. *)
Definition in_class (ignorecase : bool) (cls : list cset) (c : ascii) : bool :=
  existsb (λ x, in_cset x c
                || (ignorecase && (in_cset x (lower c) || in_cset x (upper c))))
          cls.

Definition char_eq (ignorecase : bool) (c d : ascii) : bool :=
  if ignorecase then Ascii.eqb (lower c) (lower d) else Ascii.eqb c d.

(** A match of the pattern at the start of the text: the text of group 1.
    A star is greedy and gives characters back when the rest fails. *)
Fixpoint match_here (ignorecase : bool) (p : list atom) (group : string)
  : string → option string :=
  match p with
  | [] => λ _, Some group
  | Lit c :: p' =>
      λ s, match s with
           | String d s' =>
               if char_eq ignorecase c d
               then match_here ignorecase p' group s' else None
           | EmptyString => None
           end
  | Group cls :: p' =>
      λ s, match s with
           | String d s' =>
               if in_class ignorecase cls d
               then match_here ignorecase p' (String d EmptyString) s'
               else None
           | EmptyString => None
           end
  | Star cls :: p' =>
      fix star (s : string) : option string :=
        match s with
        | String d s' =>
            if in_class ignorecase cls d
            then match star s' with
                 | Some g => Some g
                 | None => match_here ignorecase p' group s
                 end
            else match_here ignorecase p' group s
        | EmptyString => match_here ignorecase p' group s
        end
  end.

(** [re.search]: the match at the leftmost position that has one. *)
Fixpoint re_search (ignorecase : bool) (p : list atom) (s : string)
  : option string :=
  match match_here ignorecase p EmptyString s with
  | Some g => Some g
  | None =>
      match s with
      | String _ s' => re_search ignorecase p s'
      | EmptyString => None
      end
  end.

(** [int(match.group(1))] on the digit the group holds. *)
Definition int_of_group (g : string) : Z :=
  match g with
  | String d _ => Z.of_nat (nat_of_ascii d) - 48
  | EmptyString => 0
  end.

Fixpoint lstrip (s : string) : string :=
  match s with
  | String c s' => if is_space c then lstrip s' else s
  | EmptyString => EmptyString
  end.

Fixpoint rstrip (s : string) : string :=
  match s with
  | String c s' =>
      match rstrip s' with
      | EmptyString => if is_space c then EmptyString else String c EmptyString
      | r => String c r
      end
  | EmptyString => EmptyString
  end.

(** [s.strip()] *)
Definition strip (s : string) : string := rstrip (lstrip s).

Definition digit_0_3 : list cset := [CRange "0" "3"].

(** [r'Score:\s*([0-3])'], of Strategy 1 *)
Definition score_re : list atom :=
  (lit "Score:" ++ [Star [CSpace]; Group digit_0_3])%list.

(** [r'MES\s*([0-3])'], of Strategy 2 *)
Definition sidebar_re : list atom :=
  (lit "MES" ++ [Star [CSpace]; Group digit_0_3])%list.

(** [mes_patterns], in the order of the list *)
Definition mes_patterns : list (list atom) :=
  [ (lit "ColonoScan MES Score:" ++ [Star [CSpace]; Group digit_0_3])%list;
    (lit "Prediction: MES" ++ [Star [CSpace]; Group digit_0_3])%list;
    (lit "MES Score:" ++ [Star [CSpace]; Group digit_0_3])%list;
    (lit "MES" ++ [Star [CChar ":"; CSpace]; Group digit_0_3])%list;
    (lit "Score" ++ [Star [CChar ":"; CSpace]; Group digit_0_3])%list ].

(** ** What the driver returns on one page *)

(** The two kinds of failure the handlers of the extraction tell apart. *)
Inductive driver_error : Type :=
| NoSuchElementException
| OtherException.

(** The answer of [driver.find_elements]: the [.text] of each element
    located, in document order, unless the lookup raises. *)
Definition located : Type := driver_error + list string.

(** The three lookups of [extract_mes_classification] on the current
    page: the elements whose text contains ['ColonoScan MES Score:'], those
    whose text contains ['Prediction: MES'], and the text of [body]. *)
Record page : Type := {
  score_elements : located;
  sidebar_elements : located;
  body_text : driver_error + string
}.

(** The loop of a strategy: the first element whose stripped text has a
    match gives the result. *)
Fixpoint first_match (p : list atom) (texts : list string) : option Z :=
  match texts with
  | [] => None
  | t :: texts' =>
      match re_search false p (strip t) with
      | Some g => Some (int_of_group g)
      | None => first_match p texts'
      end
  end.

(** The loop over [mes_patterns]: the first pattern with a match in the
    page text gives the result. *)
Fixpoint first_pattern (patterns : list (list atom)) (page_text : string)
  : option Z :=
  match patterns with
  | [] => None
  | p :: patterns' =>
      match re_search true p page_text with
      | Some g => Some (int_of_group g)
      | None => first_pattern patterns' page_text
      end
  end.

Section Extraction.

(** The handler of line 198 is followed by a dedented block, so the file
    leaves open whether lines 200 to 217 are that handler's body or
    follow the [try] of Strategy 2.  [fallback_after_loop] is [true] for
    the second reading.  Under both, a [NoSuchElementException] raised
    in Strategy 2 leads to the block. *)
Variable fallback_after_loop : bool.

(** Lines 200 to 217.  The module never imports [re]: the only import is
    the one in the loop body of Strategy 1, which makes [re] a local
    name of the function.  [re_bound] tells whether that import has run;
    where it has not, the first use raises [UnboundLocalError], which
    the outer handler turns into [None]. *)
Definition fallback (re_bound : bool) (p : page) : option Z :=
  match body_text p with
  | inl _ => None
  | inr page_text =>
      if re_bound then first_pattern mes_patterns page_text else None
  end.

(** Strategy 2, lines 188 to 198, and what follows it. *)
Definition strategy2 (re_bound : bool) (p : page) : option Z :=
  match sidebar_elements p with
  | inl NoSuchElementException => fallback re_bound p
  | inl OtherException => None
  | inr [] => if fallback_after_loop then fallback re_bound p else None
  | inr elems =>
      if re_bound
      then match first_match sidebar_re elems with
           | Some score => Some score
           | None =>
               if fallback_after_loop then fallback re_bound p else None
           end
      else None
  end.

(** [extract_mes_classification].  Strategy 1, lines 172 to 185: any
    exception of the lookup is logged and Strategy 2 runs; [re] is bound
    from the first element on. *)
Definition extract_mes_classification (p : page) : option Z :=
  match score_elements p with
  | inl _ => strategy2 false p
  | inr [] => strategy2 false p
  | inr elems =>
      match first_match score_re elems with
      | Some score => Some score
      | None => strategy2 true p
      end
  end.

(** ** One trial *)

(** The parts of a trial that the class defines, on a browser session
    whose state is a [world]: [upload_image] and [wait_for_processing]
    act on the session and answer whether they succeeded.  The class
    defines no method that composes them: [test_single_image], which
    [run_tests] calls at line 162, and [save_screenshot], called at line
    193, are not attributes of [ColonoMindTester]. *)
Class Browser (world : Type) : Type := {
  upload_image : string → world → bool * world;
  wait_for_processing : world → bool * world
}.

End Extraction.

(** The text of a body that shows a bare score of 2 and, on the next line,
    a labelled score of 1. *)
Definition two_scores : string :=
  "Confidence Score: 2" +:+ String "010" "ColonoScan MES Score: 1".

(** A page on which neither lookup locates an element, as when the label
    and its number sit in different text nodes, while the text of the body
    is [two_scores]. *)
Definition card_not_located : page :=
  {| score_elements := inr [];
     sidebar_elements := inr [];
     body_text := inr two_scores |}.

(** A page on which the lookup of Strategy 1 locates the label alone, set
    in an element of its own, with the number outside that element. *)
Definition label_apart : page :=
  {| score_elements := inr ["ColonoScan MES Score:"];
     sidebar_elements := inr [];
     body_text := inr two_scores |}.

End ColonoMindTester.

(** ** The wait for the classification

    [wait_for_processing] of colonoscopy_tester.py polls the page once a
    second until a marker of a finished analysis shows or the timeout has
    passed. *)

Module Polling.

(** What the loop uses of its surroundings: [time.time()], a lookup
    [driver.find_elements(By.XPATH, ...)], of which only the emptiness of
    the answer matters, and [time.sleep(1)]. *)
Class Driver (world : Type) : Type := {
  now : world → Q * world;
  find_elements : string → world → (exn + bool) * world;
  sleep : world → option exn * world
}.

Definition RESULT_CARD : string :=
  "//*[contains(text(), 'ColonoScan MES Score')]".
Definition ANALYSIS_HEADER : string :=
  "//*[contains(text(), 'Analysis Results')]".
Definition SIDEBAR_PREDICTION : string :=
  "//*[contains(text(), 'Prediction: MES')]".

Section Wait.

Context {world : Type} `{Driver world}.

(** [except Exception: pass] of the inner [try]: the poll found nothing;
    anything else goes on up. *)
Definition swallowed (e : exn) (w : world) : (exn + bool) * world :=
  match e with
  | Exception _ => (inr false, w)
  | KeyboardInterrupt => (inl KeyboardInterrupt, w)
  end.

(** The inner [try] of one turn of the loop, lines 129 to 149: whether a
    marker was found. *)
Definition poll (w : world) : (exn + bool) * world :=
  match find_elements RESULT_CARD w with
  | (inl e, w1) => swallowed e w1
  | (inr true, w1) => (inr true, w1)
  | (inr false, w1) =>
      match find_elements ANALYSIS_HEADER w1 with
      | (inl e, w2) => swallowed e w2
      | (inr true, w2) => (inr true, w2)
      | (inr false, w2) =>
          match find_elements SIDEBAR_PREDICTION w2 with
          | (inl e, w3) => swallowed e w3
          | (inr found, w3) => (inr found, w3)
          end
      end
  end.

(** The [while] loop, lines 128 to 154, for at most [fuel] turns; [None]
    when the turns do not suffice. *)
Fixpoint wait_loop (fuel : nat) (start_time : Q) (timeout : Z) (w : world)
  : option ((exn + bool) * world) :=
  match fuel with
  | O => None
  | S fuel' =>
      let '(t, w1) := now w in
      if Qle_bool (inject_Z timeout) (t - start_time)
      then Some (inr false, w1)
      else
        match poll w1 with
        | (inl e, w2) => Some (inl e, w2)
        | (inr true, w2) => Some (inr true, w2)
        | (inr false, w2) =>
            match sleep w2 with
            | (Some e, w3) => Some (inl e, w3)
            | (None, w3) => wait_loop fuel' start_time timeout w3
            end
        end
  end.

(** [wait_for_processing(timeout)] with its outer handler, lines 123 to
    158. *)
Definition wait_for_processing (fuel : nat) (timeout : Z) (w : world)
  : option ((exn + bool) * world) :=
  let '(start_time, w0) := now w in
  match wait_loop fuel start_time timeout w0 with
  | Some (inl (Exception _), w') => Some (inr false, w')
  | other => other
  end.

(** A clock the driver keeps: [time.time()] reads it, nothing turns it
    back, and a sleep that returns has let a second pass. *)
Record keeps_time (clock : world → Q) : Prop := {
  now_reads : ∀ w, (now w).1 = clock w;
  now_later : ∀ w, (clock w <= clock (now w).2)%Q;
  find_later : ∀ x w, (clock w <= clock (find_elements x w).2)%Q;
  sleep_later : ∀ w, (sleep w).1 = None → (clock w + 1 <= clock (sleep w).2)%Q
}.

End Wait.

(** A page whose result card shows from second [ready] on, with a clock
    that moves only while the loop sleeps; the world is the second. *)
Definition ticking (ready : Z) : Driver Z :=
  {| now w := (inject_Z w, w);
     find_elements xpath w :=
       (inr (bool_decide (xpath = RESULT_CARD) && (ready <=? w)), w);
     sleep w := (None, w + 1) |}.

(** The same page behind a driver whose lookups raise until second
    [ready]. *)
Definition stale (ready : Z) : Driver Z :=
  {| now w := (inject_Z w, w);
     find_elements xpath w :=
       (if ready <=? w then inr true
        else inl (Exception "stale element reference"), w);
     sleep w := (None, w + 1) |}.

End Polling.

(** * run_tests.py *)

Module RunTests.

Import ResultsAnalyzer.

(** The constants of config.py the run uses. *)
Definition BATCH_SIZE : Z := 100.
Definition SAVE_SCREENSHOTS_ON_ERROR : bool := true.
Definition DETAILED_RESULTS_FILE : string := "results_detailed.csv".
Definition SUMMARY_FILE : string := "results_summary.json".
Definition CONFUSION_MATRIX_FILE : string := "confusion_matrix.png".
Definition REPORT_FILE : string := "REPORT.md".

(** The parsed arguments the loop reads; [output] is the text of
    [Path(args.output)]. *)
Record arguments : Type := {
  output : string;
  batch_size : Z
}.

(** What the run does to its surroundings, in order. *)
Inductive event : Type :=
| Tested (image_path : string)
| Screenshot (path : string)
| Reset
| SavedDetailed (filename : string) (rows : list result)
| Wrote (filename : string).

(** The collaborators of the loop.  Each acts on the [world] (browser
    session and output directory) and may raise. *)
Class Environment (world : Type) : Type := {
  test_single_image :
    string → world → (exn + (option Z * Q * bool)) * world;
  save_screenshot : string → world → option exn * world;
  reset_for_next_image : world → option exn * world;
  write_file : string → world → option exn * world
}.

(** The variables of [run_tests] that the loop changes. *)
Record state (world : Type) : Type := {
  analyzer : list result;
  failed_count : Z;
  processed_count : Z;
  env : world;
  log : list event
}.
Arguments analyzer {world} _.
Arguments failed_count {world} _.
Arguments processed_count {world} _.
Arguments env {world} _.
Arguments log {world} _.

Section Run.

Context {world : Type} `{Environment world}.

(** A statement sequence that may raise: the state reached is kept
    either way. *)
Definition M (A : Type) : Type := state world → (exn + A) * state world.

Definition ret {A} (a : A) : M A := λ st, (inr a, st).

Definition bind {A B} (k : A → M B) (m : M A) : M B :=
  λ st, match m st with
        | (inl e, st') => (inl e, st')
        | (inr a, st') => k a st'
        end.

#[local] Instance M_ret : MRet M := @ret.
#[local] Instance M_bind : MBind M := @bind.

(** A call of a collaborator: the event is logged, the world moves on. *)
Definition call {A} (ev : event) (op : world → (exn + A) * world) : M A :=
  λ st, let '(r, w) := op (env st) in
        (r, {| analyzer := analyzer st; failed_count := failed_count st;
               processed_count := processed_count st;
               env := w; log := log st ++ [ev] |}).

Definition lift_unit (r : option exn * world) : (exn + unit) * world :=
  match r with
  | (Some e, w) => (inl e, w)
  | (None, w) => (inr tt, w)
  end.

Definition raise_or {A} (r : exn + A) : M A := λ st, (r, st).

Definition do_add_result (image_path : string) (ground_truth : Z)
    (predicted : option Z) (processing_time : Q) (success : bool)
    (error_msg : string) : M unit :=
  λ st, (inr tt,
         {| analyzer := add_result (analyzer st) image_path ground_truth
                          predicted processing_time success error_msg;
            failed_count := failed_count st;
            processed_count := processed_count st;
            env := env st; log := log st |}).

Definition incr_failed : M unit :=
  λ st, (inr tt,
         {| analyzer := analyzer st; failed_count := failed_count st + 1;
            processed_count := processed_count st;
            env := env st; log := log st |}).

Definition incr_processed : M unit :=
  λ st, (inr tt,
         {| analyzer := analyzer st; failed_count := failed_count st;
            processed_count := processed_count st + 1;
            env := env st; log := log st |}).

Definition get_processed : M Z := λ st, (inr (processed_count st), st).

(** [analyzer.save_detailed_results(filename)]: the rows written are the
    results so far. *)
Definition save_detailed_results (filename : string) : M unit :=
  λ st, call (SavedDetailed filename (analyzer st))
             (λ w, lift_unit (write_file filename w)) st.

Variable args : arguments.

(** The name of an intermediate file, tagged with the running count. *)
Definition intermediate_name (count : Z) : string :=
  "results_intermediate_" +:+ pretty count +:+ ".csv".

(** The body of the [try] of one iteration, lines 161 to 204.  What can
    raise is a call of one of the four collaborators and the modulo of
    line 202; the calls of the progress bar and of the logger are taken to
    return, and an interrupt to arrive inside one of the four calls. *)
Definition try_body (n idx : Z) (it : string * Z) : M unit :=
  let '(image_path, ground_truth) := it in
  r ← call (Tested image_path) (test_single_image image_path);
  let '(predicted, processing_time, success) :=
    (r : option Z * Q * bool) in
  (if success
   then do_add_result image_path ground_truth predicted processing_time
                      true ""
   else
     incr_failed;;
     do_add_result image_path ground_truth None processing_time false
                   "Failed to process image";;
     if SAVE_SCREENSHOTS_ON_ERROR
     then
       let screenshot_path :=
         joinpath (output args)
                  ("error_" +:+ pretty idx +:+ "_"
                   +:+ stem (path_name image_path) +:+ ".png") in
       call (Screenshot screenshot_path)
            (λ w, lift_unit (save_screenshot screenshot_path w))
     else ret tt);;
  incr_processed;;
  (if idx <? n - 1
   then call Reset (λ w, lift_unit (reset_for_next_image w))
   else ret tt);;
  processed ← get_processed;
  remainder ← raise_or (mod_ processed (batch_size args));
  if remainder =? 0
  then save_detailed_results (intermediate_name processed)
  else ret tt.

(** One iteration with its two handlers, lines 157 to 222: whether the
    loop is left, and the state afterwards. *)
Definition process_item (n idx : Z) (it : string * Z) (st : state world)
  : bool * state world :=
  match try_body n idx it st with
  | (inr _, st') => (false, st')
  | (inl KeyboardInterrupt, st') => (true, st')
  | (inl (Exception msg), st') =>
      (false,
       {| analyzer := add_result (analyzer st') it.1 it.2 None
                                 (inject_Z 0) false msg;
          failed_count := failed_count st' + 1;
          processed_count := processed_count st';
          env := env st'; log := log st' |})
  end.

(** The [for] loop over [enumerate(images)], from index [idx] on; [n] is
    [len(images)]. *)
Fixpoint run_from (n idx : Z) (images : list (string * Z))
    (st : state world) : state world :=
  match images with
  | [] => st
  | it :: images' =>
      match process_item n idx it st with
      | (true, st') => st'
      | (false, st') => run_from n (idx + 1) images' st'
      end
  end.

(** The state at line 152 and the whole loop. *)
Definition initial (w : world) : state world :=
  {| analyzer := []; failed_count := 0; processed_count := 0;
     env := w; log := [] |}.

Definition run_loop (images : list (string * Z)) (w : world)
  : state world :=
  run_from (len images) 0 images (initial w).

(** [analyzer.generate_confusion_matrix]: nothing is written when no
    result is successful. *)
Definition generate_confusion_matrix (filename : string) : M unit :=
  λ st, match successful_results (analyzer st) with
        | [] => (inr tt, st)
        | _ => call (Wrote filename)
                    (λ w, lift_unit (write_file filename w)) st
        end.

Definition write_artifact (filename : string) : M unit :=
  call (Wrote filename) (λ w, lift_unit (write_file filename w)).

(** Step 5, lines 227 to 247: the four final artifacts, written in
    order until one of the writes raises. *)
Definition generate_reports : M unit :=
  save_detailed_results DETAILED_RESULTS_FILE;;
  write_artifact SUMMARY_FILE;;
  generate_confusion_matrix CONFUSION_MATRIX_FILE;;
  write_artifact REPORT_FILE.

(** The loop followed by the reports. *)
Definition run_and_report (images : list (string * Z)) (w : world)
  : state world :=
  (generate_reports (run_loop images w)).2.

(** The flushes and the trials of a log, in order: a trial by the path of
    its image, a flush of detailed results by its file name and rows. *)
Definition milestones (events : list event)
  : list (string + string * list result) :=
  omap (λ ev, match ev with
              | Tested image_path => Some (inl image_path)
              | SavedDetailed filename rows => Some (inr (filename, rows))
              | _ => None
              end) events.

(** An environment none of whose operations raises. *)
Definition calm : Prop :=
  (∀ p w, ∃ r, (test_single_image p w).1 = inr r)
  ∧ (∀ p w, (save_screenshot p w).1 = None)
  ∧ (∀ w, (reset_for_next_image w).1 = None)
  ∧ (∀ f w, (write_file f w).1 = None).

Definition minor (ev : event) : Prop :=
  match ev with
  | Screenshot _ | Reset => True
  | _ => False
  end.

(** The outcome the body records for a trial that returned. *)
Definition trial_outcome (st : state world) (it : string * Z)
    (r : option Z * Q * bool) : list result :=
  let '(predicted, processing_time, ok) := r in
  if ok
  then add_result (analyzer st) it.1 it.2 predicted processing_time true ""
  else add_result (analyzer st) it.1 it.2 None processing_time false
                  "Failed to process image".

(** A statement sequence that leaves the results as they are, whether it
    raises or not. *)
Definition keeps {A} (m : M A) : Prop :=
  ∀ st : state world, analyzer (m st).2 = analyzer st.

(** The statements of the body that follow the recording, lines 195 to
    204. *)
Definition after_record (n idx : Z) : M unit :=
  incr_processed;;
  (if idx <? n - 1
   then call Reset (λ w, lift_unit (reset_for_next_image w))
   else ret tt);;
  processed ← get_processed;
  remainder ← raise_or (mod_ processed (batch_size args));
  if remainder =? 0
  then save_detailed_results (intermediate_name processed)
  else ret tt.

(** The failed outcome the second handler records, line 213. *)
Definition failure_record (it : string * Z) (msg : string) : result :=
  {| image_path := it.1;
     image_name := path_name it.1;
     ground_truth := it.2;
     predicted := None;
     processing_time := inject_Z 0;
     success := false;
     correct := false;
     error := msg |}.

(** A statement sequence that does not raise [KeyboardInterrupt]. *)
Definition quiet {A} (m : M A) : Prop :=
  ∀ st : state world, (m st).1 ≠ inl KeyboardInterrupt.

(** An environment in which nobody interrupts the run. *)
Definition uninterrupted : Prop :=
  (∀ p w, (test_single_image p w).1 ≠ inl KeyboardInterrupt)
  ∧ (∀ p w, (save_screenshot p w).1 ≠ Some KeyboardInterrupt)
  ∧ (∀ w, (reset_for_next_image w).1 ≠ Some KeyboardInterrupt)
  ∧ (∀ f w, (write_file f w).1 ≠ Some KeyboardInterrupt).

(** The trials and flushes the batching rule asks for, from a count of
    [c] processed items on: each image is tried, and a flush of the first
    [c + 1] results follows when [c + 1] is a multiple of the batch
    size. *)
Fixpoint timeline (b : Z) (final : list result) (c : Z)
    (images : list (string * Z)) : list (string + string * list result) :=
  match images with
  | [] => []
  | it :: images' =>
      inl it.1 ::
      (if (c + 1) mod b =? 0
       then [inr (intermediate_name (c + 1), take (Z.to_nat (c + 1)) final)]
       else []) ++
      timeline b final (c + 1) images'
  end.

(** The row that [add_result] appends for a trial that returned [r]. *)
Definition outcome_row (it : string * Z) (r : option Z * Q * bool) : result :=
  let '(predicted, processing_time, ok) := r in
  {| image_path := it.1;
     image_name := path_name it.1;
     ground_truth := it.2;
     predicted := if ok then predicted else None;
     processing_time := processing_time;
     success := ok;
     correct := if ok
                then match predicted with
                     | Some p => bool_decide (p = it.2)
                     | None => false
                     end
                else false;
     error := if ok then "" else "Failed to process image" |}.

(** The name of the screenshot of a failed trial, line 192. *)
Definition screenshot_path (idx : Z) (image_path : string) : string :=
  joinpath (output args)
           ("error_" +:+ pretty idx +:+ "_"
            +:+ stem (path_name image_path) +:+ ".png").

(** The recording of a trial that returned, lines 165 to 193. *)
Definition record_trial (idx : Z) (it : string * Z)
    (r : option Z * Q * bool) : M unit :=
  let '(predicted, processing_time, success) := r in
  if success
  then do_add_result it.1 it.2 predicted processing_time true ""
  else
    incr_failed;;
    do_add_result it.1 it.2 None processing_time false
                  "Failed to process image";;
    if SAVE_SCREENSHOTS_ON_ERROR
    then call (Screenshot (screenshot_path idx it.1))
              (λ w, lift_unit (save_screenshot (screenshot_path idx it.1) w))
    else ret tt.

(** A statement sequence that keeps a property of the state, whether it
    raises or not. *)
Definition stable (I : state world → Prop) {A} (m : M A) : Prop :=
  ∀ st, I st → I (m st).2.

(** The paths of the trials of a log, in order. *)
Definition tests (events : list event) : list string :=
  omap (λ ev, match ev with Tested p => Some p | _ => None end) events.

Definition is_reset (ev : event) : bool :=
  match ev with Reset => true | _ => false end.

Definition is_screenshot (ev : event) : bool :=
  match ev with Screenshot _ => true | _ => false end.

Definition is_flush (ev : event) : bool :=
  match ev with SavedDetailed _ _ => true | _ => false end.

(** The failure counter agrees with the results. *)
Definition balanced (st : state world) : Prop :=
  failed_count st = len (filter (λ r, success r = false) (analyzer st)).

(** Every flush logged so far wrote a prefix of the present results. *)
Definition flushed (st : state world) : Prop :=
  Forall (λ ev, match ev with
                | SavedDetailed _ rows => rows `prefix_of` analyzer st
                | _ => True
                end) (log st).

(** An event that is neither a trial nor a flush of detailed results. *)
Definition side_event (ev : event) : Prop :=
  match ev with
  | Tested _ | SavedDetailed _ _ => False
  | _ => True
  end.

(** The elementary changes of the state in the loop and the reports; a
    property that survives each of them survives an iteration. *)
Record respects (J : state world → Prop) : Prop := {
  respects_side : ∀ st w ev, side_event ev → J st →
    J {| analyzer := analyzer st; failed_count := failed_count st;
         processed_count := processed_count st;
         env := w; log := log st ++ [ev] |};
  respects_flush : ∀ st w filename, J st →
    J {| analyzer := analyzer st; failed_count := failed_count st;
         processed_count := processed_count st;
         env := w; log := log st ++ [SavedDetailed filename (analyzer st)] |};
  respects_count : ∀ st, J st →
    J {| analyzer := analyzer st; failed_count := failed_count st;
         processed_count := processed_count st + 1;
         env := env st; log := log st |};
  respects_success : ∀ st p l predicted t, J st →
    J {| analyzer := add_result (analyzer st) p l predicted t true "";
         failed_count := failed_count st;
         processed_count := processed_count st;
         env := env st; log := log st |};
  respects_failure : ∀ st p l t msg, J st →
    J {| analyzer := add_result (analyzer st) p l None t false msg;
         failed_count := failed_count st + 1;
         processed_count := processed_count st;
         env := env st; log := log st |}
}.

End Run.

Section Shipped.

Context {world : Type}.

Variable reset : world → option exn * world.
Variable writer : string → world → option exn * world.

(** What looking up [name] on the tester raises when the class does not
    define it: the text of the [AttributeError]. *)
Definition no_attribute (name : string) : exn :=
  Exception ("'ColonoMindTester' object has no attribute '" +:+ name +:+ "'").

(** The environment of a run with the tester as the class defines it.
    The lookups of [test_single_image] and of [save_screenshot] raise
    [AttributeError] before anything is called, so the session stays as
    it was; the [Tested] event marks that line 162 was reached.  [reset]
    is [reset_for_next_image], which the class defines, and [writer] the
    writes of the analyzer. *)
Definition shipped : Environment world :=
  {| test_single_image _ w := (inl (no_attribute "test_single_image"), w);
     save_screenshot _ w := (Some (no_attribute "save_screenshot"), w);
     reset_for_next_image := reset;
     write_file := writer |}.

End Shipped.

(** A session on which every upload and every wait succeeds. *)
Definition eager : ColonoMindTester.Browser unit :=
  {| ColonoMindTester.upload_image _ w := (true, w);
     ColonoMindTester.wait_for_processing w := (true, w) |}.

(** The limits of lines 120 to 126: [images[args.start_index:]] when the
    index is positive, then [images[:args.max_images]] when the maximum is
    neither [None] nor [0]. *)
Definition apply_limits {A} (start_index : Z) (max_images : option Z)
    (images : list A) : list A :=
  let images := if 0 <? start_index
                then slice images start_index (len images)
                else images in
  match max_images with
  | Some m => if m =? 0 then images else slice images 0 m
  | None => images
  end.

Definition SUPPORTED_EXTENSIONS : list string :=
  [".jpg"; ".jpeg"; ".png"; ".JPG"; ".JPEG"; ".PNG"].

(** Step 1 of [run_tests], lines 95 to 126: the images the run goes on
    with, or [None] where [run_tests] returns [False].  [path_exists] is
    [os.path.exists] at the time of the validation. *)
Definition select_images (images_dir : string) (start_index : Z)
    (max_images : option Z) (fs : TestDatasetManager.filesystem)
    (path_exists : string → bool) : exn + option (list (string * Z)) :=
  match TestDatasetManager.load_dataset
          (TestDatasetManager.init images_dir (Some SUPPORTED_EXTENSIONS)) fs
  with
  | (inl KeyboardInterrupt, _) => inl KeyboardInterrupt
  | (inl (Exception _), _) => inr None
  | (inr images, dataset_manager) =>
      match images with
      | [] => inr None
      | _ =>
          if TestDatasetManager.validate_dataset path_exists dataset_manager
          then inr (Some (apply_limits start_index max_images images))
          else inr None
      end
  end.

(** The rows whose trial returned a success. *)
Definition passed (rs : list result) : Z :=
  len (filter (λ r, success r = true) rs).

(** The success rate of the final summary, line 259:
    [(processed_count - failed_count) / processed_count * 100]. *)
Definition success_rate {world} (st : state world) : exn + Q :=
  if processed_count st =? 0
  then inl (Exception "division by zero")
  else inr (truediv (inject_Z (processed_count st - failed_count st))
                    (inject_Z (processed_count st))
            * inject_Z 100)%Q.

(** An environment whose trial always raises [e]; nothing else fails. *)
Definition raising (e : exn) : Environment unit :=
  {| test_single_image _ w := (inl e, w);
     save_screenshot _ w := (None, w);
     reset_for_next_image w := (None, w);
     write_file _ w := (None, w) |}.

(** An environment whose trial always returns [r]; nothing fails. *)
Definition steady (r : option Z * Q * bool) : Environment unit :=
  {| test_single_image _ w := (inr r, w);
     save_screenshot _ w := (None, w);
     reset_for_next_image w := (None, w);
     write_file _ w := (None, w) |}.

Definition default_args : arguments :=
  {| output := "results"; batch_size := BATCH_SIZE |}.

Definition pairs_args : arguments :=
  {| output := "results"; batch_size := 2 |}.

Definition five_images : list (string * Z) :=
  [("/data/MES 0/a.jpg", 0); ("/data/MES 0/b.jpg", 0);
   ("/data/MES 1/c.jpg", 1); ("/data/MES 2/d.jpg", 2);
   ("/data/MES 3/e.jpg", 3)].

End RunTests.

(** * Proof automation *)

(** Closes a decidable closed proposition by evaluating its decision
    procedure. *)
Ltac decide_now := apply (bool_decide_unpack _); vm_compute; exact I.

(** * Worked examples *)

Section Examples.

Import ResultsAnalyzer TestDatasetManager ColonoMindTester.

Example suffix_examples :
  suffix "scan.tar.gz" = ".gz" ∧ suffix ".hidden" = "" ∧ suffix "scan." = ""
  ∧ suffix "scan.JPG" = ".JPG" ∧ stem "scan.tar.gz" = "scan.tar".
Proof. repeat split. Qed.

Example path_name_examples :
  path_name "/data/MES 1/a.jpg" = "a.jpg" ∧ path_name "data/run/" = "run"
  ∧ path_name "/" = "".
Proof. repeat split. Qed.

Example path_str_examples :
  path_str "./test_images" = "test_images" ∧ path_str "a//b/" = "a/b"
  ∧ path_str "" = "." ∧ path_str "//a" = "//a" ∧ path_str "///a" = "/a"
  ∧ joinpath "." "x.png" = "x.png" ∧ joinpath "/" "x" = "/x"
  ∧ joinpath "results" "/tmp/x" = "/tmp/x"
  ∧ joinpath "results/" "error_0_a.png" = "results/error_0_a.png".
Proof. repeat split. Qed.

Example range_examples :
  range 0 5 2 = inr [0; 2; 4] ∧ range 0 4 2 = inr [0; 2]
  ∧ range 0 5 (-1) = inr []
  ∧ range 0 5 0 = inl (Exception "range() arg 3 must not be zero").
Proof. repeat split. Qed.

Example slice_examples :
  slice [10; 20; 30; 40; 50] 4 6 = [50] ∧ slice [10; 20; 30] (-2) 5 = [20; 30].
Proof. repeat split. Qed.

Example median_examples :
  np_median [(3 # 1)%Q; (1 # 1)%Q; (2 # 1)%Q] = (2 # 1)%Q
  ∧ (np_median [(4 # 1)%Q; (1 # 1)%Q; (3 # 1)%Q; (2 # 1)%Q] == 5 # 2)%Q.
Proof. split; reflexivity. Qed.

Example search_examples :
  re_search false score_re "ColonoScan MES Score:   3" = Some "3"
  ∧ re_search false score_re "ColonoScan MES Score: 7" = None
  ∧ re_search false score_re "score: 2" = None
  ∧ re_search true (lit "Score" ++ [Star [CChar ":"; CSpace]; Group digit_0_3])
              "SCORE :: 2" = Some "2"
  ∧ strip "  MES 2  " = "MES 2".
Proof. repeat split. Qed.

Example whitespace_examples :
  is_space (ascii_of_nat 160) = true
  ∧ re_search false score_re ("Score:" +:+ String (ascii_of_nat 160) "2")
    = Some "2"
  ∧ strip (String (ascii_of_nat 133) "a ") = "a".
Proof. repeat split. Qed.

(** A score card located by Strategy 1 gives its number, whatever the text
    of the body says. *)
Example located_card_example :
  ∀ reading,
    extract_mes_classification reading
      {| score_elements := inr ["ColonoScan MES Score: 3"];
         sidebar_elements := inr ["Prediction: MES 3"];
         body_text := inr two_scores |} = Some 3.
Proof. by intros []. Qed.

Example get_batches_of_zero :
  get_batches (init "data" None) 0
  = inl (Exception "range() arg 3 must not be zero").
Proof. reflexivity. Qed.

End Examples.

(** * Properties of the result analyzer *)

Section AnalyzerFacts.

Import ResultsAnalyzer.

Lemma add_result_recorded rs p gt pred t ok msg :
  Forall recorded rs → Forall recorded (add_result rs p gt pred t ok msg).
Proof.
  intros Hrs. unfold add_result. apply Forall_app. split; [done|].
  apply Forall_singleton. by split.
Qed.

Lemma successful_sub rs : Forall recorded rs → Forall recorded (successful_results rs).
Proof.
  intros Hrs. unfold successful_results.
  induction Hrs as [|r rs Hr Hrs IH]; [constructor|].
  rewrite filter_cons. case_decide; [constructor|]; done.
Qed.

Lemma successful_predicted rs :
  Forall (λ r, is_Some (predicted r)) (successful_results rs).
Proof.
  unfold successful_results. induction rs as [|r rs IH]; [constructor|].
  rewrite filter_cons. case_decide as Hr; [|done].
  constructor; [by destruct Hr | done].
Qed.

(** On results that all carry a prediction, comparing the two label lists
    position by position counts the results whose prediction is the
    label. *)
Lemma agree_count (S : list result) :
  Forall (λ r, is_Some (predicted r)) S →
  length (filter (λ tp : Z * Z, tp.1 = tp.2)
                 (zip (ground_truth <$> S) (omap predicted S)))
  = length (filter (λ r, predicted r = Some (ground_truth r)) S).
Proof.
  induction 1 as [|r S [p Hp] _ IH]; [done|].
  cbn [fmap list_fmap omap list_omap zip zip_with]. rewrite Hp. cbn [zip_with].
  rewrite !filter_cons. cbn [fst snd].
  case_decide as H1; case_decide as H2; cbn [length]; rewrite ?IH; try done.
  - exfalso. apply H2. rewrite Hp. by subst.
  - exfalso. apply H1. rewrite Hp in H2. by injection H2.
Qed.

Lemma correct_filter (S : list result) :
  Forall recorded S →
  filter (λ r, correct r = true) S
  = filter (λ r, predicted r = Some (ground_truth r)) S.
Proof.
  induction 1 as [|r S [Hr _] _ IH]; [done|].
  rewrite !filter_cons, IH.
  case_decide as H1; case_decide as H2; try done; exfalso.
  - rewrite Hr in H1. destruct (predicted r) as [p|]; [|done].
    apply bool_decide_eq_true in H1. apply H2. by subst.
  - apply H1. rewrite Hr, H2. by apply bool_decide_eq_true.
Qed.

Lemma per_class_lookup (S : list result) (c : Z) :
  Forall recorded S → c ∈ [0; 1; 2; 3] →
  per_class_accuracy S !! accuracy_key c = Some (PyFloat (class_accuracy S c)).
Proof.
  intros HS Hc.
  assert (Hcr : ∀ k, Forall recorded (class_results S k)).
  { intros k. unfold class_results. by apply List.Forall_forall; intros r
      [_ Hr%list_elem_of_In%(proj1 (List.Forall_forall _ _) HS)]%list_elem_of_In%list_elem_of_filter. }
  unfold per_class_accuracy, class_accuracy, count_correct. cbn [foldl].
  pose proof (Hcr 0) as H0. pose proof (Hcr 1) as H1.
  pose proof (Hcr 2) as H2. pose proof (Hcr 3) as H3.
  set_unfold in Hc. destruct_or!; subst c.
  all: destruct (class_results S 0) eqn:E0; destruct (class_results S 1) eqn:E1;
       destruct (class_results S 2) eqn:E2; destruct (class_results S 3) eqn:E3.
  all: rewrite ?correct_filter by done.
  all: by rewrite ?(lookup_insert_ne _ _ _ _) by (by vm_compute); rewrite lookup_insert_eq.
Qed.

(** C3.  On a result list with a non-empty successful subset (succeeded
    and prediction present), the overall accuracy is the number of results
    of that subset whose prediction is their label, divided by the size of
    the subset; the accuracy of class [c] is the same ratio among the
    results of the subset whose label is [c], and 0 when there is none.  On
    the outcomes (1,1), (1,2), (2,2) this gives 2/3 overall, 1/2 for class
    1, 1/1 for class 2 and 0 for classes 0 and 3. *)
Theorem accuracy_metrics_ratios :
  (∀ rs : list result,
      Forall recorded rs →
      successful_results rs ≠ [] →
      let S := successful_results rs in
      calculate_accuracy_metrics rs !! "overall_accuracy"
      = Some (PyFloat
                (truediv
                   (inject_Z
                      (len (filter (λ r, predicted r = Some (ground_truth r)) S)))
                   (inject_Z (len S))))
      ∧ ∀ c, c ∈ [0; 1; 2; 3] →
             calculate_accuracy_metrics rs !! accuracy_key c
             = Some (PyFloat (class_accuracy S c)))
  ∧ (∀ p1 p2 p3 t1 t2 t3,
        let metrics := calculate_accuracy_metrics (example_results p1 p2 p3 t1 t2 t3) in
        metrics !! "overall_accuracy" = Some (PyFloat (2 # 3)%Q)
        ∧ metrics !! "MES_1_accuracy" = Some (PyFloat (1 # 2)%Q)
        ∧ metrics !! "MES_2_accuracy" = Some (PyFloat (1 # 1)%Q)
        ∧ metrics !! "MES_0_accuracy" = Some (PyFloat (0 # 1)%Q)
        ∧ metrics !! "MES_3_accuracy" = Some (PyFloat (0 # 1)%Q)).
Proof.
  split.
  - intros rs Hrs Hne S. unfold calculate_accuracy_metrics. fold S.
    destruct S as [|r0 S'] eqn:ES; [done|]. rewrite <- ES.
    assert (HS : Forall recorded S) by (subst S; by apply successful_sub).
    split.
    + rewrite lookup_union_r.
      * rewrite lookup_insert_eq. unfold accuracy_score, len.
        rewrite agree_count by (subst S; apply successful_predicted).
        by rewrite length_fmap.
      * unfold per_class_accuracy. cbn [foldl].
        repeat case_match;
          by rewrite ?(lookup_insert_ne _ _ _ _) by (by vm_compute).
    + intros c Hc.
      rewrite (lookup_union_Some_l _ _ _ (PyFloat (class_accuracy S c))); [done|].
      by apply per_class_lookup.
  - intros. repeat split; vm_compute; reflexivity.
Qed.

Lemma accuracy_metrics_ratios_witness :
  let rs := example_results "a.jpg" "b.jpg" "c.jpg" 1 1 1 in
  calculate_accuracy_metrics rs !! "overall_accuracy"
  = Some (PyFloat
            (truediv
               (inject_Z
                  (len (filter (λ r, predicted r = Some (ground_truth r))
                               (successful_results rs))))
               (inject_Z (len (successful_results rs))))).
Proof.
  intros rs.
  refine (proj1 (proj1 accuracy_metrics_ratios rs _ _)).
  - unfold rs, example_results.
    repeat apply add_result_recorded. constructor.
  - vm_compute. discriminate.
Defined.

Lemma accuracy_key_head c : ∃ s, accuracy_key c = String "M" s.
Proof. unfold accuracy_key. cbn. eauto. Qed.

(** C4 (amended).  When no result is both successful and predicted, the
    metrics are the four entries written out below: overall accuracy 0,
    every result counted as failed, and no per-class entry at all; nothing
    is divided. *)
Theorem accuracy_metrics_no_success (rs : list result) :
  successful_results rs = [] →
  calculate_accuracy_metrics rs
  = <["overall_accuracy" := PyFloat (inject_Z 0)]>
    (<["total_tested" := PyInt (len rs)]>
    (<["successful_tests" := PyInt 0]>
    (<["failed_tests" := PyInt (len rs)]> ∅)))
  ∧ calculate_accuracy_metrics rs !! "overall_accuracy"
    = Some (PyFloat (inject_Z 0))
  ∧ ∀ c, calculate_accuracy_metrics rs !! accuracy_key c = None.
Proof.
  intros HS. unfold calculate_accuracy_metrics. rewrite HS.
  split; [done|]. split; [by rewrite lookup_insert_eq|].
  intros c. destruct (accuracy_key_head c) as [s ->].
  by rewrite !lookup_insert_ne, lookup_empty.
Qed.

Lemma accuracy_metrics_no_success_witness :
  calculate_accuracy_metrics one_failed !! "overall_accuracy"
  = Some (PyFloat (inject_Z 0))
  ∧ calculate_accuracy_metrics one_failed !! accuracy_key 2 = None.
Proof.
  destruct (accuracy_metrics_no_success one_failed) as (_ & H1 & H2);
    [reflexivity|].
  split; [exact H1 | exact (H2 2)].
Defined.

(** C4 as stated fails: with an empty successful subset the metrics hold
    no per-class accuracy for any of the four classes, so none is reported
    as 0. *)
Lemma accuracy_metrics_per_class_absent :
  successful_results one_failed = []
  ∧ ∀ c, c ∈ [0; 1; 2; 3] →
         calculate_accuracy_metrics one_failed !! accuracy_key c = None
         ∧ calculate_accuracy_metrics one_failed !! accuracy_key c
           ≠ Some (PyFloat (inject_Z 0)).
Proof.
  split; [reflexivity|]. intros c Hc.
  set_unfold in Hc. destruct_or!; subst c; split;
    (vm_compute; (reflexivity || discriminate)).
Qed.

End AnalyzerFacts.

Section ReductionFacts.

Import ResultsAnalyzer.

Lemma fold_min_spec (xs : list Q) (m0 : Q) :
  let m := fold_left (λ m y, if Qle_bool y m then y else m) xs m0 in
  (m = m0 ∨ m ∈ xs) ∧ (m <= m0)%Q ∧ ∀ x, x ∈ xs → (m <= x)%Q.
Proof.
  revert m0. induction xs as [|y xs IH]; intros m0; cbn [fold_left].
  - split; [by left|]. split; [apply Qle_refl|]. intros x Hx.
    by apply not_elem_of_nil in Hx.
  - destruct (Qle_bool y m0) eqn:Hy.
    + apply Qle_bool_iff in Hy.
      destruct (IH y) as ([Hm|Hm] & Hle & Hall); cbn zeta in *.
      * split; [right; rewrite Hm; apply list_elem_of_here|].
        split; [by eapply Qle_trans|]. intros x [->|Hx]%elem_of_cons; eauto.
      * split; [right; by apply list_elem_of_further|].
        split; [by eapply Qle_trans|]. intros x [->|Hx]%elem_of_cons; eauto.
    + assert (Hlt : (m0 <= y)%Q).
      { apply Qlt_le_weak, Qnot_le_lt. intros Hle.
        apply Qle_bool_iff in Hle. congruence. }
      destruct (IH m0) as (Hm & Hle & Hall); cbn zeta in *.
      split; [destruct Hm; [by left | right; by apply list_elem_of_further]|].
      split; [done|]. intros x [->|Hx]%elem_of_cons; [|eauto].
      by eapply Qle_trans.
Qed.

(** [np_min] returns an element of the list that is below all of them. *)
Lemma np_min_spec (xs : list Q) :
  xs ≠ [] → np_min xs ∈ xs ∧ ∀ x, x ∈ xs → (np_min xs <= x)%Q.
Proof.
  destruct xs as [|x0 xs]; [done|]. intros _. unfold np_min.
  destruct (fold_min_spec xs x0) as (Hm & Hle & Hall); cbn zeta in *.
  split; [destruct Hm as [->|Hm]; set_solver|].
  intros x [->|Hx]%elem_of_cons; eauto.
Qed.

Lemma fold_max_spec (xs : list Q) (m0 : Q) :
  let m := fold_left (λ m y, if Qle_bool m y then y else m) xs m0 in
  (m = m0 ∨ m ∈ xs) ∧ (m0 <= m)%Q ∧ ∀ x, x ∈ xs → (x <= m)%Q.
Proof.
  revert m0. induction xs as [|y xs IH]; intros m0; cbn [fold_left].
  - split; [by left|]. split; [apply Qle_refl|]. intros x Hx.
    by apply not_elem_of_nil in Hx.
  - destruct (Qle_bool m0 y) eqn:Hy.
    + apply Qle_bool_iff in Hy.
      destruct (IH y) as ([Hm|Hm] & Hle & Hall); cbn zeta in *.
      * split; [right; rewrite Hm; apply list_elem_of_here|].
        split; [by eapply Qle_trans|]. intros x [->|Hx]%elem_of_cons; eauto.
      * split; [right; by apply list_elem_of_further|].
        split; [by eapply Qle_trans|]. intros x [->|Hx]%elem_of_cons; eauto.
    + assert (Hlt : (y <= m0)%Q).
      { apply Qlt_le_weak, Qnot_le_lt. intros Hle.
        apply Qle_bool_iff in Hle. congruence. }
      destruct (IH m0) as (Hm & Hle & Hall); cbn zeta in *.
      split; [destruct Hm; [by left | right; by apply list_elem_of_further]|].
      split; [done|]. intros x [->|Hx]%elem_of_cons; [|eauto].
      by eapply Qle_trans.
Qed.

(** [np_max] returns an element of the list that is above all of them. *)
Lemma np_max_spec (xs : list Q) :
  xs ≠ [] → np_max xs ∈ xs ∧ ∀ x, x ∈ xs → (x <= np_max xs)%Q.
Proof.
  destruct xs as [|x0 xs]; [done|]. intros _. unfold np_max.
  destruct (fold_max_spec xs x0) as (Hm & Hle & Hall); cbn zeta in *.
  split; [destruct Hm as [->|Hm]; set_solver|].
  intros x [->|Hx]%elem_of_cons; eauto.
Qed.

(** [np_sort] rearranges the list. *)
Lemma np_sort_perm (xs : list Q) : np_sort xs ≡ₚ xs.
Proof.
  assert (Hins : ∀ x l, insert_sorted x l ≡ₚ x :: l).
  { intros x l. induction l as [|y l IH]; [done|]. cbn.
    destruct (Qle_bool x y); [done|]. rewrite IH. apply perm_swap. }
  induction xs as [|x xs IH]; [done|]. cbn. by rewrite Hins, IH.
Qed.

End ReductionFacts.

Section TimingFacts.

Import ResultsAnalyzer.

Variable np_sqrt : Q → Q.

Lemma fold_left_Qplus (xs : list Q) (a : Q) :
  (fold_left Qplus xs a == a + Qsum xs)%Q.
Proof.
  revert a. induction xs as [|x xs IH]; intros a;
    unfold Qsum; cbn [fold_left foldr].
  - change (inject_Z 0) with 0%Q. ring.
  - fold (Qsum xs). rewrite IH. ring.
Qed.

Lemma sum_value (xs : list Q) : (to_Q (Py.sum xs) == Qsum xs)%Q.
Proof.
  destruct xs as [|x xs]; [reflexivity|].
  unfold Py.sum, to_Q. rewrite fold_left_Qplus.
  change (inject_Z 0) with 0%Q. ring.
Qed.

Lemma Qsum_app (xs ys : list Q) : (Qsum (xs ++ ys) == Qsum xs + Qsum ys)%Q.
Proof.
  induction xs as [|x xs IH]; unfold Qsum; cbn [foldr app].
  - fold (Qsum ys). change (inject_Z 0) with 0%Q. ring.
  - fold (Qsum (xs ++ ys)). fold (Qsum xs). fold (Qsum ys). rewrite IH. ring.
Qed.

Lemma successful_times_failed (rs : list result) (r : result) :
  success r = false → successful_times (rs ++ [r]) = successful_times rs.
Proof.
  intros Hr. unfold successful_times.
  rewrite filter_app, filter_cons, filter_nil.
  case_decide; [congruence|]. by rewrite app_nil_r.
Qed.

Lemma timing_total (rs : list result) :
  calculate_timing_statistics np_sqrt rs !! "total_time"
  = Some (Py.sum (processing_time <$> rs)).
Proof.
  unfold calculate_timing_statistics.
  destruct (successful_times rs);
    by do 5 (rewrite lookup_insert_ne by done); rewrite lookup_insert_eq.
Qed.

Lemma timing_distribution (rs : list result) (key : string) :
  key ≠ "total_time" →
  calculate_timing_statistics np_sqrt rs !! key
  = distribution np_sqrt (successful_times rs) key.
Proof.
  intros Hkey. unfold calculate_timing_statistics, distribution.
  destruct (successful_times rs) as [|t ts].
  - case_bool_decide as Hk.
    + set_unfold in Hk. destruct_or!; subst key;
        by rewrite ?(lookup_insert_ne _ _ _ _) by done; rewrite lookup_insert_eq.
    + set_unfold in Hk.
      rewrite !lookup_insert_ne, lookup_empty; naive_solver.
  - repeat case_bool_decide; subst;
      rewrite ?(lookup_insert_ne _ _ _ _) by done;
      rewrite ?lookup_insert_eq, ?lookup_empty; done.
Qed.

(** C5.  The mean, median, minimum, maximum and standard deviation are
    those of the times of the results marked successful, and of no other;
    [total_time] is the sum of the times of all results.  A failed result
    therefore leaves the five statistics unchanged and adds its time to
    the total. *)
Theorem timing_statistics_subsets (rs : list result) :
  let times := processing_time <$> filter (λ r, success r = true) rs in
  let stats := calculate_timing_statistics np_sqrt rs in
  (times ≠ [] →
     stats !! "mean_time" = Some (PyFloat (np_mean times))
     ∧ stats !! "median_time" = Some (PyFloat (np_median times))
     ∧ stats !! "min_time" = Some (PyFloat (np_min times))
     ∧ stats !! "max_time" = Some (PyFloat (np_max times))
     ∧ stats !! "std_time" = Some (PyFloat (np_std np_sqrt times)))
  ∧ (∃ total, stats !! "total_time" = Some total
              ∧ (to_Q total == Qsum (processing_time <$> rs))%Q)
  ∧ (∀ r, success r = false →
          let stats' := calculate_timing_statistics np_sqrt (rs ++ [r]) in
          (∀ key, key ≠ "total_time" → stats' !! key = stats !! key)
          ∧ ∃ total', stats' !! "total_time" = Some total'
                      ∧ (to_Q total'
                         == Qsum (processing_time <$> rs) + processing_time r)%Q).
Proof.
  intros times stats. split; [|split].
  - intros Hne. subst stats.
    rewrite !timing_distribution by done.
    change (successful_times rs) with times.
    unfold distribution. by destruct times.
  - eexists. split; [apply timing_total|]. apply sum_value.
  - intros r Hr stats'. split.
    + intros key Hkey. subst stats stats'.
      rewrite !timing_distribution by done.
      by rewrite successful_times_failed.
    + eexists. split; [apply timing_total|].
      rewrite sum_value, fmap_app, Qsum_app.
      unfold Qsum at 2. cbn [fmap list_fmap foldr].
      change (inject_Z 0) with 0%Q. ring.
Qed.

End TimingFacts.

(** Two results, the second failed, and a square root that is exact on the
    variance that occurs. *)
Lemma timing_statistics_subsets_witness :
  let rs := ResultsAnalyzer.add_result
              (ResultsAnalyzer.add_result [] "a.jpg" 1 (Some 1) (3 # 1)%Q true "")
              "b.jpg" 2 None (7 # 1)%Q false "Failed to process image" in
  let stats := ResultsAnalyzer.calculate_timing_statistics (λ q, q) rs in
  stats !! "mean_time" = Some (PyFloat (ResultsAnalyzer.np_mean [(3 # 1)%Q]))
  ∧ ∃ total, stats !! "total_time" = Some total ∧ (to_Q total == 10 # 1)%Q.
Proof.
  intros rs stats.
  pose proof (timing_statistics_subsets (λ q, q) rs) as (Hdist & (total & Ht & Hq) & _).
  split.
  - apply Hdist. vm_compute. discriminate.
  - exists total. split; [exact Ht|]. rewrite Hq. reflexivity.
Defined.

(** * Properties of the dataset manager *)

Section ChunkFacts.

Context {A : Type}.

(** Consecutive chunks of [b] elements rebuild a prefix of the list. *)
Lemma concat_chunks (l : list A) (b m : nat) :
  concat ((λ k, take b (drop (k * b) l)) <$> seq 0 m) = take (m * b) l.
Proof.
  induction m as [|m IH]; [done|].
  rewrite seq_S, fmap_app, concat_app, IH. cbn [fmap list_fmap concat Nat.add].
  rewrite app_nil_r.
  replace (S m * b)%nat with (m * b + b)%nat by lia.
  by rewrite take_take_drop.
Qed.

(** A slice that starts inside the list is a [take] after a [drop]. *)
Lemma slice_chunk (l : list A) (i b : Z) :
  0 ≤ i → 0 < b →
  slice l i (i + b) = take (Z.to_nat b) (drop (Z.to_nat i) l).
Proof.
  intros Hi Hb. unfold slice, clamp_index, len.
  destruct (Z.ltb_spec i 0) as [|_]; [lia|].
  destruct (Z.ltb_spec (i + b) 0) as [|_]; [lia|].
  destruct (Z.le_gt_cases (Z.of_nat (length l)) i) as [Hout|Hin].
  - rewrite !drop_ge by lia. by rewrite !take_nil.
  - rewrite (Z.min_l i) by lia.
    destruct (Z.le_gt_cases (i + b) (Z.of_nat (length l))) as [Hfit|Hcut].
    + rewrite Z.min_l by lia. f_equal. lia.
    + rewrite Z.min_r by lia.
      rewrite !take_ge; [done| |]; rewrite length_drop; lia.
Qed.

End ChunkFacts.

Section BatchFacts.

Import TestDatasetManager.

Lemma range_positive (n b : Z) :
  0 ≤ n → 0 < b →
  ∃ m : nat,
    range 0 n b = inr ((λ k : nat, 0 + Z.of_nat k * b) <$> seq 0 m)
    ∧ n ≤ Z.of_nat m * b
    ∧ (0 < n → (Z.of_nat m - 1) * b < n)
    ∧ (n = 0 → m = 0%nat).
Proof.
  intros Hn Hb. unfold range.
  destruct (Z.eqb_spec b 0) as [|_]; [lia|].
  destruct (Z.ltb_spec 0 b) as [_|]; [|lia].
  set (q := (n - 0 + b - 1) / b).
  assert (Hq1 : b * q ≤ n - 0 + b - 1) by (apply Z.mul_div_le; lia).
  assert (Hq2 : n - 0 + b - 1 < b * Z.succ q) by (apply Z.mul_succ_div_gt; lia).
  assert (Hq0 : 0 ≤ q) by (apply Z.div_pos; lia).
  exists (Z.to_nat q). split; [done|]. rewrite Z2Nat.id by done.
  repeat split; [nia | nia |].
  intros ->. assert (q = 0) by nia. lia.
Qed.

(** C10.  For a positive batch size, [get_batches] returns batches whose
    concatenation is the image list in order; every batch but the last
    has exactly [batch_size] items, and no batch is empty. *)
Theorem get_batches_partition (self : manager) (batch_size : Z) :
  0 < batch_size →
  ∃ batches,
    get_batches self batch_size = inr batches
    ∧ concat batches = images self
    ∧ (∀ k batch, batches !! k = Some batch → (S k < length batches)%nat →
                  len batch = batch_size)
    ∧ Forall (λ batch, batch ≠ [] ∧ len batch ≤ batch_size) batches.
Proof.
  intros Hb. unfold get_batches.
  destruct (range_positive (len (images self)) batch_size)
    as (m & -> & Hcover & Htight & Hzero); [unfold len; lia | done |].
  set (l := images self) in *. set (b := Z.to_nat batch_size).
  assert (Hbatch : ∀ k : nat,
             slice l (0 + Z.of_nat k * batch_size)
                     (0 + Z.of_nat k * batch_size + batch_size)
             = take b (drop (k * b) l)).
  { intros k. rewrite slice_chunk by lia. f_equal. f_equal. unfold b. nia. }
  eexists. split; [done|]. rewrite <- list_fmap_compose.
  rewrite (list_fmap_ext _ (λ k, take b (drop (k * b) l)) (seq 0 m))
    by (intros ? k _; apply Hbatch).
  split; [|split].
  - rewrite concat_chunks. apply take_ge. unfold len, b in *. nia.
  - intros k batch Hk Hlast. rewrite length_fmap, length_seq in Hlast.
    rewrite list_lookup_fmap, lookup_seq_lt in Hk by lia.
    cbn in Hk. injection Hk as <-.
    unfold len in *. rewrite length_take, length_drop. unfold b. nia.
  - apply Forall_fmap, Forall_forall. intros k Hk%elem_of_seq. cbn.
    assert (Hlen : length (take b (drop (k * b) l)) = (b `min` (length l - k * b))%nat)
      by (by rewrite length_take, length_drop).
    unfold len in *. split.
    + intros Hnil. rewrite Hnil in Hlen. cbn in Hlen. unfold b in *. nia.
    + rewrite Hlen. unfold b. lia.
Qed.

End BatchFacts.

Lemma get_batches_partition_witness :
  let self := {| TestDatasetManager.base_dir := "data";
                 TestDatasetManager.supported_extensions := [".png"];
                 TestDatasetManager.images :=
                   [("a.png", 0); ("b.png", 1); ("c.png", 2); ("d.png", 3); ("e.png", 3)];
                 TestDatasetManager.total_count := 5 |} in
  0 < 2 ∧
  ∃ batches,
    TestDatasetManager.get_batches self 2 = inr batches
    ∧ concat batches = TestDatasetManager.images self.
Proof.
  intros self. split; [lia|].
  destruct (get_batches_partition self 2) as (batches & H1 & H2 & _); [lia|].
  exists batches. by split.
Defined.

Section LoaderFacts.

Import TestDatasetManager.

Lemma class_items_label exts abs_base base c :
  Forall (λ it : item, it.2 = c) (class_items exts abs_base base c).
Proof.
  unfold class_items. destruct (resolve _ _) as [[name [|entries| |]]|];
    try constructor.
  by apply Forall_fmap, Forall_forall.
Qed.

Lemma load_classes_clear exts dir abs_base base classes imgs :
  Forall (λ c, blocked base c = false) classes →
  load_classes exts dir abs_base base classes imgs
  = (None, imgs ++ concat (class_items exts abs_base base <$> classes)).
Proof.
  intros Hcl. revert imgs.
  induction Hcl as [|c classes Hc _ IH]; intros imgs;
    cbn [load_classes fmap list_fmap concat].
  - by rewrite app_nil_r.
  - unfold blocked in Hc. unfold class_items at 1.
    destruct (resolve base (possible_names c)) as [[name [|entries| |]]|];
      try done; cbn [scan_class app].
    by rewrite IH, app_assoc.
Qed.

Lemma load_classes_blocked exts dir abs_base base classes imgs :
  Exists (λ c, blocked base c = true) classes →
  ∃ e imgs', load_classes exts dir abs_base base classes imgs = (Some e, imgs').
Proof.
  intros Hex. revert imgs.
  induction classes as [|c classes IH]; intros imgs; [by inversion Hex|].
  cbn [load_classes]. destruct (blocked base c) eqn:Hc.
  - unfold blocked in Hc.
    destruct (resolve base (possible_names c)) as [[name [|entries| |]]|];
      try done; cbn [scan_class]; eauto.
  - assert (Hrest : Exists (λ c, blocked base c = true) classes).
    { inversion Hex; subst; [congruence | done]. }
    destruct (resolve base (possible_names c)) as [[name n]|]; [|by apply IH].
    destruct (scan_class exts dir abs_base c name n); eauto.
Qed.

(** Whatever the outcome, the images held after the loop carry labels of
    classes that resolved. *)
Lemma load_classes_labels exts dir abs_base base classes imgs c :
  resolve base (possible_names c) = None →
  Forall (λ it : item, it.2 ≠ c) imgs →
  Forall (λ it : item, it.2 ≠ c)
         (load_classes exts dir abs_base base classes imgs).2.
Proof.
  intros Hc. revert imgs.
  induction classes as [|c' classes IH]; intros imgs Himgs; [done|].
  cbn [load_classes].
  destruct (resolve base (possible_names c')) as [[name n]|] eqn:Hc';
    [|by apply IH].
  destruct n as [|entries| |]; cbn [scan_class snd]; try done.
  apply IH, Forall_app. split; [done|].
  apply Forall_fmap, Forall_forall. intros e _. cbn. congruence.
Qed.

Lemma distribution_fold (d : gmap Z Z) (items : list item) (c : Z) :
  foldl (λ distribution (it : item),
           match distribution !! it.2 with
           | Some count => <[it.2 := count + 1]> distribution
           | None => distribution
           end) d items !! c
  = (λ v, v + count_label c items) <$> (d !! c).
Proof.
  revert d. induction items as [|it items IH]; intros d; cbn [foldl].
  - unfold count_label, len. cbn. destruct (d !! c); cbn; f_equal; lia.
  - rewrite IH. unfold count_label, len. rewrite filter_cons.
    destruct (decide (it.2 = c)) as [Heq|Hne].
    + rewrite Heq. destruct (d !! c) as [v|] eqn:Hd.
      * rewrite lookup_insert_eq. cbn. f_equal. lia.
      * by rewrite Hd.
    + destruct (d !! it.2); [rewrite lookup_insert_ne by done|]; done.
Qed.

Lemma distribution_lookup (self : manager) (c : Z) :
  c ∈ [0; 1; 2; 3] →
  get_class_distribution self !! c = Some (count_label c (images self)).
Proof.
  intros Hc. unfold get_class_distribution. rewrite distribution_fold.
  set_unfold in Hc. destruct_or!; subst c; by vm_compute.
Qed.

Lemma count_label_none (c : Z) (items : list item) :
  Forall (λ it : item, it.2 ≠ c) items → count_label c items = 0.
Proof.
  intros Hall. unfold count_label, len.
  induction Hall as [|it items Hit _ IH]; [done|].
  rewrite filter_cons. by case_decide.
Qed.

Lemma count_label_all (c : Z) (items : list item) :
  Forall (λ it : item, it.2 = c) items → count_label c items = len items.
Proof.
  intros Hall. unfold count_label, len.
  induction Hall as [|it items Hit _ IH]; [done|].
  rewrite filter_cons. case_decide; [|done]. cbn. lia.
Qed.

Lemma count_label_app (c : Z) (xs ys : list item) :
  count_label c (xs ++ ys) = count_label c xs + count_label c ys.
Proof. unfold count_label, len. rewrite filter_app, length_app. lia. Qed.

Lemma Exists_blocked_dec (base : node) (classes : list Z) :
  Forall (λ c, blocked base c = false) classes
  ∨ Exists (λ c, blocked base c = true) classes.
Proof.
  induction classes as [|c classes [IH|IH]]; [by left | |].
  - destruct (blocked base c) eqn:Hc; [right | left]; by constructor.
  - right. by constructor.
Qed.

(** C7 (amended).  [load_dataset] raises when the root directory does not
    exist, and otherwise, on a file system that answers every existence
    and file-type query, exactly when one of the four classes resolves,
    under the first of its names that exists, to an entry that cannot be
    listed: a regular file, something that is no directory, or a
    directory the process may not list.  A class none of whose names
    exists is skipped: it never makes the load raise, no loaded image
    carries its label, and its count in the class distribution is 0. *)
Theorem load_dataset_raises (self : manager) (fs : filesystem) :
  ((∃ e, (load_dataset self fs).1 = inl e)
   ↔ root fs = None
     ∨ ∃ base c, root fs = Some base ∧ c ∈ [0; 1; 2; 3]
                 ∧ blocked base c = true)
  ∧ (∀ base c,
       blocked base c = true
       ↔ ∃ name n, resolve base (possible_names c) = Some (name, n)
                   ∧ (n = File ∨ n = Special ∨ n = Locked))
  ∧ (∀ base, root fs = Some base →
       (∀ c, c ∈ [0; 1; 2; 3] →
             resolve base (possible_names c) = None
             ∨ ∃ name entries,
                 resolve base (possible_names c) = Some (name, Dir entries)) →
       ∃ imgs, (load_dataset self fs).1 = inr imgs)
  ∧ (∀ base c, root fs = Some base → c ∈ [0; 1; 2; 3] →
       resolve base (possible_names c) = None →
       blocked base c = false
       ∧ Forall (λ it : item, it.2 ≠ c) (images (load_dataset self fs).2)
       ∧ get_class_distribution (load_dataset self fs).2 !! c = Some 0).
Proof.
  assert (Hclear : ∀ base, root fs = Some base →
            Forall (λ c, blocked base c = false) [0; 1; 2; 3] →
            ∃ imgs, (load_dataset self fs).1 = inr imgs).
  { intros base Hroot Hcl. unfold load_dataset. rewrite Hroot.
    rewrite load_classes_clear by done. cbn. eauto. }
  split; [|split; [|split]].
  - split.
    + intros [e He]. destruct (root fs) as [base|] eqn:Hroot; [|by left].
      right. exists base.
      destruct (Exists_blocked_dec base [0; 1; 2; 3]) as [Hcl|Hex].
      * destruct (Hclear base eq_refl Hcl) as [imgs Himgs]. congruence.
      * apply Exists_exists in Hex as (c & Hc & Hb). eauto.
    + intros [Hroot|(base & c & Hroot & Hc & Hb)]; unfold load_dataset;
        rewrite Hroot; [cbn; eauto|].
      destruct (load_classes_blocked (supported_extensions self) (base_dir self) (absolute fs)
                  base [0; 1; 2; 3] []) as (e & imgs' & ->).
      { apply Exists_exists. eauto. }
      cbn. eauto.
  - intros base c. unfold blocked.
    destruct (resolve base (possible_names c)) as [[name [|entries| |]]|].
    + split; [eauto 6 | done].
    + split; [done|]. by intros (name' & n & [= <- <-] & [|[|]]).
    + split; [eauto 6 | done].
    + split; [eauto 6 | done].
    + split; [done|]. by intros (name' & n & ? & _).
  - intros base Hroot Hall. apply (Hclear base Hroot).
    apply Forall_forall. intros c Hc. unfold blocked.
    by destruct (Hall c Hc) as [->|(name & entries & ->)].
  - intros base c Hroot Hc Hnone.
    assert (Himgs : Forall (λ it : item, it.2 ≠ c)
                           (images (load_dataset self fs).2)).
    { unfold load_dataset. rewrite Hroot.
      pose proof (load_classes_labels (supported_extensions self) (base_dir self) (absolute fs)
                    base [0; 1; 2; 3] [] c Hnone (Forall_nil_2 _)) as Hl.
      by destruct (load_classes _ _ _ _ _ _) as [[e|] imgs]. }
    split; [by unfold blocked; rewrite Hnone|]. split; [done|].
    by rewrite distribution_lookup, count_label_none.
Qed.

Lemma load_dataset_raises_witness :
  let self := init "test_images" None in
  (∃ imgs, (load_dataset self two_classes).1 = inr imgs)
  ∧ get_class_distribution (load_dataset self two_classes).2 !! 0 = Some 0
  ∧ get_class_distribution (load_dataset self two_classes).2 !! 3 = Some 0.
Proof.
  intros self.
  destruct (load_dataset_raises self two_classes) as (_ & _ & Hok & Hskip).
  split; [|split].
  - eapply Hok; [reflexivity|]. intros c Hc.
    set_unfold in Hc. destruct_or!; subst c;
      [by left | right | right | by left]; by eexists _, _.
  - eapply Hskip; [reflexivity | decide_now | reflexivity].
  - eapply Hskip; [reflexivity | decide_now | reflexivity].
Defined.

(** C7 as stated fails in the direction "only if": the root directory
    exists, and the load raises all the same, because the first name of
    class 0 that exists is a regular file and cannot be iterated.  The
    error names the class directory as the loader built it, from the
    default ["./test_images"]. *)
Lemma load_dataset_raises_with_root :
  root file_for_class ≠ None
  ∧ (load_dataset (init "./test_images" None) file_for_class).1
    = inl (Exception "[Errno 20] Not a directory: 'test_images/MES 0'").
Proof. split; [discriminate | reflexivity]. Qed.

(** The same with a class directory the process may not list. *)
Example load_dataset_locked_class :
  (load_dataset (init "./test_images" None) locked_class).1
  = inl (Exception "[Errno 13] Permission denied: 'test_images/MES 1'")
  ∧ images (load_dataset (init "./test_images" None) locked_class).2
    = [("/data/test_images/MES 0/a.jpg", 0)]
  ∧ (load_dataset (init "./test_images" None)
       {| root := None; absolute := "/data/test_images" |}).1
    = inl (Exception "Dataset directory does not exist: test_images").
Proof. repeat split. Qed.

Lemma filter_length_perm {B} (f : B → bool) (l l' : list B) :
  l ≡ₚ l' → length (List.filter f l) = length (List.filter f l').
Proof.
  induction 1 as [|x l l' _ IH|x y l|l l' l'' _ IH1 _ IH2]; cbn; try done.
  - destruct (f x); cbn; by rewrite IH.
  - by destruct (f x), (f y).
  - by rewrite IH1.
Qed.

Lemma filter_all {B} (f : B → bool) (l : list B) :
  Forall (λ x, f x = true) l → List.filter f l = l.
Proof.
  induction 1 as [|x l Hx _ IH]; [done|]. cbn. by rewrite Hx, IH.
Qed.

Lemma accepted_spec (exts : list string) (e : string * node) :
  accepted exts e = true ↔ e.2 = File ∧ suffix e.1 ∈ exts.
Proof.
  unfold accepted. rewrite andb_true_iff, bool_decide_eq_true.
  destruct e as [name [| | |]]; cbn; intuition congruence.
Qed.

Lemma class_layout_count exts N entries :
  class_layout exts N entries →
  length (List.filter (accepted exts) entries) = N.
Proof.
  intros (good & bad & Hperm & Hlen & Hgood & Hfile & Hbad).
  rewrite (filter_length_perm _ _ _ Hperm), List.filter_app, length_app.
  rewrite filter_all.
  - cbn. destruct (accepted exts bad) eqn:Hacc; [|cbn; lia].
    apply accepted_spec in Hacc. by destruct Hacc.
  - eapply Forall_impl; [exact Hgood|]. intros e He. by apply accepted_spec.
Qed.

(** C8.  When each of the four classes resolves to a directory holding [N]
    regular files with an extension of the allowed list and one regular
    file with another extension, [load_dataset] returns the images of
    class 0, 1, 2 and 3 in turn, [N] of each and [4 N] in all, each labelled
    with the class of its directory; the class distribution counts [N] per
    class.  An entry is taken exactly when it is a regular file whose
    suffix is, character for character, a member of the list. *)
Theorem load_dataset_counts (self : manager) (fs : filesystem) (base : node)
    (N : nat) :
  root fs = Some base →
  (∀ c, c ∈ [0; 1; 2; 3] →
        ∃ name entries,
          resolve base (possible_names c) = Some (name, Dir entries)
          ∧ class_layout (supported_extensions self) N entries) →
  let items := class_items (supported_extensions self) (absolute fs) base in
  (load_dataset self fs).1 = inr (items 0 ++ items 1 ++ items 2 ++ items 3)
  ∧ images (load_dataset self fs).2 = items 0 ++ items 1 ++ items 2 ++ items 3
  ∧ length (items 0 ++ items 1 ++ items 2 ++ items 3) = (4 * N)%nat
  ∧ (∀ c, c ∈ [0; 1; 2; 3] →
          length (items c) = N
          ∧ Forall (λ it : item, it.2 = c) (items c)
          ∧ get_class_distribution (load_dataset self fs).2 !! c
            = Some (Z.of_nat N))
  ∧ (∀ e, accepted (supported_extensions self) e = true
          ↔ e.2 = File ∧ suffix e.1 ∈ supported_extensions self)
  ∧ accepted default_extensions ("scan.JPG", File) = true
  ∧ accepted default_extensions ("scan.Jpg", File) = false.
Proof.
  intros Hroot Hall items.
  assert (Hlen : ∀ c, c ∈ [0; 1; 2; 3] → length (items c) = N).
  { intros c Hc. destruct (Hall c Hc) as (name & entries & Hres & Hlay).
    unfold items, class_items. rewrite Hres, length_fmap.
    by apply class_layout_count. }
  assert (Hload : load_dataset self fs
                  = (inr (items 0 ++ items 1 ++ items 2 ++ items 3),
                     {| base_dir := base_dir self;
                        supported_extensions := supported_extensions self;
                        images := items 0 ++ items 1 ++ items 2 ++ items 3;
                        total_count := len (items 0 ++ items 1 ++ items 2 ++ items 3) |})).
  { unfold load_dataset. rewrite Hroot, load_classes_clear.
    - cbn [fmap list_fmap concat app]. by rewrite app_nil_r.
    - apply Forall_forall. intros c Hc.
      destruct (Hall c Hc) as (name & entries & Hres & _).
      unfold blocked. by rewrite Hres. }
  rewrite Hload. cbn [fst snd images].
  split; [done|]. split; [done|]. split.
  { rewrite !length_app, !Hlen by set_solver. lia. }
  split; [|split; [intros e; apply accepted_spec | split; reflexivity]].
  intros c Hc. split; [by apply Hlen|].
  split; [apply class_items_label|].
  rewrite distribution_lookup by done. cbn [images]. f_equal.
  rewrite !count_label_app.
  assert (Hother : ∀ c', c' ≠ c → count_label c (items c') = 0).
  { intros c' Hne. apply count_label_none.
    eapply Forall_impl; [apply class_items_label|]. cbn. congruence. }
  assert (Hsame : count_label c (items c) = Z.of_nat N).
  { rewrite count_label_all by apply class_items_label.
    unfold len. by rewrite Hlen. }
  set_unfold in Hc. destruct_or!; subst c;
    rewrite Hsame, !Hother by done; lia.
Qed.

End LoaderFacts.

Lemma load_dataset_counts_witness :
  let entries c := [("a" +:+ pretty c +:+ ".jpg", TestDatasetManager.File);
                    ("README.txt", TestDatasetManager.File);
                    ("b" +:+ pretty c +:+ ".PNG", TestDatasetManager.File)] in
  let base := TestDatasetManager.Dir
                [("MES 0", TestDatasetManager.Dir (entries 0));
                 ("MES1", TestDatasetManager.Dir (entries 1));
                 ("2", TestDatasetManager.Dir (entries 2));
                 ("MES 3", TestDatasetManager.Dir (entries 3))] in
  let fs := {| TestDatasetManager.root := Some base;
               TestDatasetManager.absolute := "/data" |} in
  let self := TestDatasetManager.init "/data" None in
  length (TestDatasetManager.images (TestDatasetManager.load_dataset self fs).2)
  = 8%nat
  ∧ TestDatasetManager.get_class_distribution
      (TestDatasetManager.load_dataset self fs).2 !! 2 = Some 2.
Proof.
  intros entries base fs self.
  assert (Hlay : ∀ c, c ∈ [0; 1; 2; 3] →
            ∃ name es,
              TestDatasetManager.resolve base (TestDatasetManager.possible_names c)
              = Some (name, TestDatasetManager.Dir es)
              ∧ TestDatasetManager.class_layout
                  (TestDatasetManager.supported_extensions self) 2 es).
  { intros c Hc. set_unfold in Hc.
    destruct_or!; subst c; eexists _, _; (split; [reflexivity|]).
    all: eexists [_; _], ("README.txt", TestDatasetManager.File).
    all: split; [apply perm_skip, perm_swap|].
    all: split; [reflexivity|]; split; [|split; [reflexivity|decide_now]].
    all: repeat constructor; decide_now. }
  destruct (load_dataset_counts self fs base 2 eq_refl Hlay)
    as (_ & Himgs & Hlen & Hcls & _).
  split.
  - rewrite Himgs. exact Hlen.
  - apply (Hcls 2). decide_now.
Defined.

(** * Properties of the extraction *)

Section ExtractionFacts.

Import ColonoMindTester.

Lemma digit_not_space (d : ascii) :
  in_class false digit_0_3 d = true → in_class false [CSpace] d = false.
Proof. destruct d as [[] [] [] [] [] [] [] []]; by vm_compute. Qed.

Lemma digit_value (d : ascii) :
  in_class false digit_0_3 d = true →
  0 ≤ int_of_group (String d EmptyString) ≤ 3.
Proof.
  destruct d as [[] [] [] [] [] [] [] []]; vm_compute; try done;
    intros _; split; discriminate.
Qed.

Lemma append_nil (s : string) : "" +:+ s = s.
Proof. reflexivity. Qed.

Lemma append_cons (c : ascii) (s t : string) :
  String c s +:+ t = String c (s +:+ t).
Proof. reflexivity. Qed.

(** After the literal part of a pattern, optional whitespace and a digit
    of the class range match, and the digit is the group. *)
Lemma spaces_then_digit (ws : string) (d : ascii) (rest group : string) :
  Forall (λ c, is_space c = true) (list_ascii_of_string ws) →
  in_class false digit_0_3 d = true →
  match_here false [Star [CSpace]; Group digit_0_3] group
             (ws +:+ String d rest)
  = Some (String d EmptyString).
Proof.
  intros Hws Hd. induction ws as [|c ws IH].
  - rewrite append_nil. cbn [match_here].
    rewrite (digit_not_space d Hd). by rewrite Hd.
  - inversion Hws as [|? ? Hc Hws']; subst.
    rewrite append_cons. cbn [match_here] in *.
    replace (in_class false [CSpace] c) with true
      by (by cbn; rewrite Hc).
    by rewrite (IH Hws').
Qed.

(** Strategy 1 on a score card: when the first element located for the
    score card reads ["ColonoScan MES Score:"], optional whitespace and a
    class digit, that digit is the result, whatever else the page shows. *)
Lemma score_card_first (reading : bool) (p : page) (e : string)
    (es : list string) (ws : string) (d : ascii) (rest : string) :
  score_elements p = inr (e :: es) →
  strip e = "ColonoScan MES Score:" +:+ ws +:+ String d rest →
  Forall (λ c, is_space c = true) (list_ascii_of_string ws) →
  in_class false digit_0_3 d = true →
  extract_mes_classification reading p
  = Some (int_of_group (String d EmptyString)).
Proof.
  intros Hp He Hws Hd. unfold extract_mes_classification. rewrite Hp.
  cbn [first_match]. rewrite He.
  pose proof (spaces_then_digit ws d rest EmptyString Hws Hd) as Hm.
  unfold score_re. rewrite !append_cons, append_nil.
  cbn [re_search match_here lit app char_eq Ascii.eqb Bool.eqb].
  cbn [match_here] in Hm. by rewrite Hm.
Qed.

(** The loop over the patterns stops at the first pattern that matches. *)
Lemma first_pattern_order (p : list atom) (patterns : list (list atom))
    (page_text group : string) :
  re_search true p page_text = Some group →
  first_pattern (p :: patterns) page_text = Some (int_of_group group).
Proof. intros Hm. cbn. by rewrite Hm. Qed.

(** Once Strategy 1 has located an element, [re] is bound, and under the
    reading that lets the pattern block follow Strategy 2 the text of the
    body is searched: the labelled score wins over the bare one. *)
Lemma label_apart_falls_back :
  extract_mes_classification true label_apart = Some 1
  ∧ extract_mes_classification false label_apart = None.
Proof. split; reflexivity. Qed.

(** C6, at the failing input.  The pattern list, tried in order on the
    text of the body, gives the labelled 1, although the bare pattern alone
    finds the 2 that comes first; the extraction itself gives nothing, under
    either reading of the handler of Strategy 2, because the pattern loop is
    not reached with [re] bound. *)
Theorem extraction_misses_body_text (reading : bool) :
  body_text card_not_located = inr two_scores
  ∧ first_pattern mes_patterns two_scores = Some 1
  ∧ re_search true (lit "Score" ++ [Star [CChar ":"; CSpace]; Group digit_0_3])
              two_scores = Some "2"
  ∧ extract_mes_classification reading card_not_located = None.
Proof. by destruct reading. Qed.

End ExtractionFacts.

(** * Properties of the run loop *)

Section RunFacts.

Import ResultsAnalyzer RunTests.

Context {world : Type} {E : Environment world}.

#[local] Existing Instances M_ret M_bind.

Variable args : arguments.

Lemma milestones_minor (events : list event) :
  Forall minor events → milestones events = [].
Proof.
  induction 1 as [|ev events Hev _ IH]; [done|].
  unfold milestones in *. cbn. by destruct ev.
Qed.

Lemma milestones_app (xs ys : list event) :
  milestones (xs ++ ys) = milestones xs ++ milestones ys.
Proof. unfold milestones. apply omap_app. Qed.

Lemma keeps_ret {A} (a : A) : keeps (@ret world A a).
Proof. done. Qed.

Lemma keeps_bind {A B} (m : @M world A) (k : A → @M world B) :
  keeps m → (∀ a, keeps (k a)) → keeps (m ≫= k).
Proof.
  intros Hm Hk st. unfold mbind, M_bind, bind.
  specialize (Hm st). destruct (m st) as [[e|a] st']; [done|].
  cbn in Hm. by rewrite Hk.
Qed.

Lemma keeps_call {A} (ev : event) (op : world → (exn + A) * world) :
  keeps (call ev op).
Proof. intros st. unfold call. by destruct (op (env st)). Qed.

Lemma keeps_save (filename : string) : keeps (save_detailed_results filename).
Proof. intros st. unfold save_detailed_results. apply keeps_call. Qed.

Lemma keeps_raise_or {A} (r : exn + A) : keeps (@raise_or world A r).
Proof. done. Qed.

Lemma keeps_after_record (n idx : Z) : keeps (after_record args n idx).
Proof.
  unfold after_record.
  apply keeps_bind; [done|]. intros _.
  apply keeps_bind; [case_match; [apply keeps_call | done]|]. intros _.
  apply keeps_bind; [done|]. intros processed.
  apply keeps_bind; [apply keeps_raise_or|]. intros remainder.
  case_match; [apply keeps_save | done].
Qed.

(** In the body of the [try], once the trial has returned, its outcome is
    recorded and nothing else is added to the results. *)
Lemma try_body_records (n idx : Z) (it : string * Z) (st : state world)
    (r : option Z * Q * bool) (w : world) :
  test_single_image it.1 (env st) = (inr r, w) →
  analyzer (try_body args n idx it st).2 = trial_outcome st it r.
Proof.
  intros Ht. destruct it as [path label], r as [[predicted t] ok].
  change (try_body args n idx (path, label))
    with (r ← call (Tested path) (test_single_image path);
          let '(predicted, processing_time, success) :=
            (r : option Z * Q * bool) in
          (if success
           then do_add_result path label predicted processing_time true ""
           else
             incr_failed;;
             do_add_result path label None processing_time false
                           "Failed to process image";;
             call (Screenshot
                     (joinpath (output args)
                        ("error_" +:+ pretty idx +:+ "_"
                         +:+ stem (path_name path) +:+ ".png")))
                  (λ w, lift_unit
                          (save_screenshot
                             (joinpath (output args)
                                ("error_" +:+ pretty idx +:+ "_"
                                 +:+ stem (path_name path) +:+ ".png")) w)));;
          after_record args n idx).
  unfold mbind, M_bind. unfold bind at 1. unfold call at 1.
  cbn [fst snd] in Ht. rewrite Ht. unfold trial_outcome. cbn [fst snd].
  destruct ok.
  - unfold bind, do_add_result. by rewrite keeps_after_record.
  - unfold bind at 1. unfold bind at 1. unfold incr_failed.
    unfold bind at 1. unfold do_add_result.
    match goal with
    | |- context [call ?ev ?op ?s] =>
        pose proof (keeps_call ev op s) as Hshot;
        destruct (call ev op s) as [[e|[]] st']
    end; [done|].
    rewrite keeps_after_record. exact Hshot.
Qed.

Lemma process_item_exception (n idx : Z) (it : string * Z)
    (st st1 : state world) (msg : string) :
  try_body args n idx it st = (inl (Exception msg), st1) →
  process_item args n idx it st
  = (false,
     {| analyzer := analyzer st1 ++ [failure_record it msg];
        failed_count := failed_count st1 + 1;
        processed_count := processed_count st1;
        env := env st1; log := log st1 |}).
Proof. intros Hraise. unfold process_item. by rewrite Hraise. Qed.

Lemma try_body_trial_raises (n idx : Z) (it : string * Z) (st : state world)
    (e : exn) (w : world) :
  test_single_image it.1 (env st) = (inl e, w) →
  try_body args n idx it st
  = (inl e,
     {| analyzer := analyzer st; failed_count := failed_count st;
        processed_count := processed_count st;
        env := w; log := log st ++ [Tested it.1] |}).
Proof.
  intros Ht. destruct it as [path label]. cbn [fst] in Ht.
  unfold try_body. unfold mbind, M_bind. unfold bind at 1. unfold call at 1.
  by rewrite Ht.
Qed.

(** Whatever happens in one iteration, the results only grow, and unless
    the loop is left they gain an outcome for the item. *)
Lemma process_item_records (n idx : Z) (it : string * Z) (st : state world) :
  ∃ extra,
    analyzer (process_item args n idx it st).2 = analyzer st ++ extra
    ∧ ((process_item args n idx it st).1 = false →
       ∃ r, r ∈ extra ∧ image_path r = it.1 ∧ ground_truth r = it.2).
Proof.
  destruct (test_single_image it.1 (env st)) as [[e|r] w] eqn:Ht.
  - pose proof (try_body_trial_raises n idx it st e w Ht) as Hbody.
    unfold process_item. rewrite Hbody. destruct e as [|msg]; cbn.
    + exists []. by rewrite app_nil_r.
    + exists [failure_record it msg]. split; [done|]. intros _.
      exists (failure_record it msg). split; [set_solver | done].
  - pose proof (try_body_records n idx it st r w Ht) as Hbody.
    assert (Hout : ∃ r0, trial_outcome st it r = analyzer st ++ [r0]
                         ∧ image_path r0 = it.1 ∧ ground_truth r0 = it.2).
    { destruct r as [[predicted t] [|]]; cbn; unfold add_result; eauto. }
    destruct Hout as (r0 & Hout & Hpath & Hlabel). rewrite Hout in Hbody.
    unfold process_item.
    destruct (try_body args n idx it st) as [[[|msg]|[]] st1]; cbn in *.
    + exists [r0]. split; [done | discriminate].
    + exists [r0; failure_record it msg].
      split; [unfold add_result; by rewrite Hbody, <- app_assoc|]. intros _.
      exists r0. split; [set_solver | done].
    + exists [r0]. split; [done|]. intros _. exists r0.
      split; [set_solver | done].
Qed.

Lemma quiet_bind {A B} (m : @M world A) (k : A → @M world B) :
  quiet m → (∀ a, quiet (k a)) → quiet (m ≫= k).
Proof.
  intros Hm Hk st. unfold mbind, M_bind, bind.
  specialize (Hm st). destruct (m st) as [[e|a] st']; [|apply Hk].
  cbn in *. congruence.
Qed.

Lemma quiet_call {A} (ev : event) (op : world → (exn + A) * world) :
  (∀ w, (op w).1 ≠ inl KeyboardInterrupt) → quiet (call ev op).
Proof.
  intros Hop st. unfold call. specialize (Hop (env st)).
  by destruct (op (env st)).
Qed.

Lemma quiet_lift (op : world → option exn * world) :
  (∀ w, (op w).1 ≠ Some KeyboardInterrupt) →
  ∀ w, (lift_unit (op w)).1 ≠ inl KeyboardInterrupt.
Proof.
  intros Hop w. specialize (Hop w). destruct (op w) as [[e|] w']; cbn in *;
    congruence.
Qed.

Lemma try_body_quiet (n idx : Z) (it : string * Z) :
  uninterrupted → quiet (try_body args n idx it).
Proof.
  intros (Htest & Hshot & Hreset & Hwrite). destruct it as [path label].
  unfold try_body.
  apply quiet_bind; [by apply quiet_call|]. intros [[predicted t] ok].
  apply quiet_bind.
  { destruct ok; [done|].
    apply quiet_bind; [done|]. intros _.
    apply quiet_bind; [done|]. intros _.
    cbn. apply quiet_call, quiet_lift. intros w. apply Hshot. }
  intros _. apply quiet_bind; [done|]. intros _.
  apply quiet_bind.
  { case_match; [|done]. by apply quiet_call, quiet_lift. }
  intros _. apply quiet_bind; [done|]. intros processed.
  apply quiet_bind.
  { intros st. unfold raise_or, mod_. by case_match. }
  intros remainder. case_match; [|done].
  intros st. unfold save_detailed_results.
  apply quiet_call, quiet_lift. intros w. apply Hwrite.
Qed.

Lemma process_item_continues (n idx : Z) (it : string * Z) (st : state world) :
  uninterrupted → (process_item args n idx it st).1 = false.
Proof.
  intros Hun. pose proof (try_body_quiet n idx it Hun st) as Hq.
  unfold process_item.
  by destruct (try_body args n idx it st) as [[[|msg]|[]] st1].
Qed.

Lemma run_from_grows (n idx : Z) (images : list (string * Z))
    (st : state world) :
  ∃ extra, analyzer (run_from args n idx images st) = analyzer st ++ extra.
Proof.
  revert idx st. induction images as [|it images IH]; intros idx st.
  - exists []. by rewrite app_nil_r.
  - cbn [run_from].
    destruct (process_item_records n idx it st) as (extra & Hextra & _).
    destruct (process_item args n idx it st) as [[|] st']; cbn in Hextra.
    + eauto.
    + destruct (IH (idx + 1) st') as (more & ->). rewrite Hextra.
      exists (extra ++ more). by rewrite app_assoc.
Qed.

Lemma run_from_all_recorded (n idx : Z) (images : list (string * Z))
    (st : state world) :
  uninterrupted →
  ∀ it, it ∈ images →
        ∃ r, r ∈ analyzer (run_from args n idx images st)
             ∧ image_path r = it.1 ∧ ground_truth r = it.2.
Proof.
  intros Hun. revert idx st.
  induction images as [|it0 images IH]; intros idx st it Hit;
    [by apply not_elem_of_nil in Hit|].
  cbn [run_from].
  pose proof (process_item_continues n idx it0 st Hun) as Hgo.
  destruct (process_item_records n idx it0 st) as (extra & Hextra & Hrec).
  destruct (process_item args n idx it0 st) as [brk st']; cbn in *. subst brk.
  apply elem_of_cons in Hit as [->|Hit]; [|by apply IH].
  destruct (Hrec eq_refl) as (r & Hr & Hpath & Hlabel).
  destruct (run_from_grows n (idx + 1) images st') as (more & ->).
  exists r. rewrite Hextra. split; [set_solver | done].
Qed.

Lemma lift_unit_calm (op : world → option exn * world) (w : world) :
  (op w).1 = None → lift_unit (op w) = (inr tt, (op w).2).
Proof. destruct (op w) as [[e|] w']; cbn; congruence. Qed.

(** With nothing raising and a non-zero batch size, the statements after
    the recording count the item, log at most a reset, and flush exactly
    when the new count is a multiple of the batch size. *)
Lemma after_record_calm (n idx : Z) (st : state world) :
  calm → batch_size args ≠ 0 →
  ∃ w' evs,
    Forall minor evs
    ∧ after_record args n idx st
      = (inr tt,
         {| analyzer := analyzer st; failed_count := failed_count st;
            processed_count := processed_count st + 1;
            env := w';
            log := log st ++ evs ++
                   (if (processed_count st + 1) mod batch_size args =? 0
                    then [SavedDetailed
                            (intermediate_name (processed_count st + 1))
                            (analyzer st)]
                    else []) |}).
Proof.
  intros (_ & _ & Hreset & Hwrite) Hb.
  unfold after_record, mbind, M_bind, bind, incr_processed, get_processed,
    raise_or, mod_, save_detailed_results, call, ret.
  cbn [fst snd analyzer failed_count processed_count env log].
  destruct (Z.eqb_spec (batch_size args) 0) as [|_]; [done|].
  destruct (idx <? n - 1);
    cbn [fst snd analyzer failed_count processed_count env log].
  - rewrite (lift_unit_calm _ _ (Hreset (env st))).
    cbn [fst snd analyzer failed_count processed_count env log].
    destruct ((processed_count st + 1) mod batch_size args =? 0);
      cbn [fst snd analyzer failed_count processed_count env log].
    + rewrite (lift_unit_calm (write_file _) _ (Hwrite _ _)).
      eexists _, [Reset]. split; [by repeat constructor|].
      by rewrite <- !app_assoc.
    + eexists _, [Reset]. split; [by repeat constructor|].
      by rewrite app_nil_r.
  - destruct ((processed_count st + 1) mod batch_size args =? 0);
      cbn [fst snd analyzer failed_count processed_count env log].
    + rewrite (lift_unit_calm (write_file _) _ (Hwrite _ _)).
      by eexists _, [].
    + eexists _, []. split; [constructor|]. by rewrite app_nil_r.
Qed.

(** One iteration in a calm environment. *)
Lemma process_item_calm (n idx : Z) (it : string * Z) (st : state world) :
  calm → batch_size args ≠ 0 →
  ∃ r w' failed evs,
    Forall minor evs
    ∧ image_path r = it.1 ∧ ground_truth r = it.2
    ∧ process_item args n idx it st
      = (false,
         {| analyzer := analyzer st ++ [r]; failed_count := failed;
            processed_count := processed_count st + 1;
            env := w';
            log := log st ++ [Tested it.1] ++ evs ++
                   (if (processed_count st + 1) mod batch_size args =? 0
                    then [SavedDetailed
                            (intermediate_name (processed_count st + 1))
                            (analyzer st ++ [r])]
                    else []) |}).
Proof.
  intros Hcalm Hb. pose proof Hcalm as (Htest & Hshot & _ & _).
  destruct it as [path label]. unfold process_item.
  change (try_body args n idx (path, label))
    with (r ← call (Tested path) (test_single_image path);
          let '(predicted, processing_time, success) :=
            (r : option Z * Q * bool) in
          (if success
           then do_add_result path label predicted processing_time true ""
           else
             incr_failed;;
             do_add_result path label None processing_time false
                           "Failed to process image";;
             call (Screenshot
                     (joinpath (output args)
                        ("error_" +:+ pretty idx +:+ "_"
                         +:+ stem (path_name path) +:+ ".png")))
                  (λ w, lift_unit
                          (save_screenshot
                             (joinpath (output args)
                                ("error_" +:+ pretty idx +:+ "_"
                                 +:+ stem (path_name path) +:+ ".png")) w)));;
          after_record args n idx).
  unfold mbind, M_bind. unfold bind at 1. unfold call at 1.
  destruct (Htest path (env st)) as [[[predicted t] ok] Hr].
  destruct (test_single_image path (env st)) as [x w1]. cbn in Hr. subst x.
  destruct ok.
  - unfold bind, do_add_result.
    match goal with
    | |- context [after_record args n idx ?s] =>
        destruct (after_record_calm n idx s Hcalm Hb) as (w' & evs & Hevs & ->)
    end.
    cbn [fst snd analyzer failed_count processed_count env log].
    eexists (mk_result path _ label predicted t true _ ""), w', _, evs.
    split; [done|]. do 2 (split; [done|]).
    unfold add_result. by rewrite <- !app_assoc.
  - unfold bind at 1. unfold bind at 1. unfold incr_failed.
    unfold bind at 1. unfold do_add_result. unfold call at 1.
    rewrite (lift_unit_calm (save_screenshot _) _ (Hshot _ _)).
    cbn [fst snd analyzer failed_count processed_count env log].
    match goal with
    | |- context [after_record args n idx ?s] =>
        destruct (after_record_calm n idx s Hcalm Hb) as (w' & evs & Hevs & ->)
    end.
    cbn [fst snd analyzer failed_count processed_count env log].
    eexists (mk_result path _ label None t false _ "Failed to process image"),
      w', _, (Screenshot _ :: evs).
    split; [by constructor|]. do 2 (split; [done|]).
    unfold add_result. by rewrite <- !app_assoc.
Qed.

Lemma run_from_timeline (n idx : Z) (images : list (string * Z))
    (st : state world) :
  calm → batch_size args ≠ 0 →
  0 ≤ processed_count st →
  length (analyzer st) = Z.to_nat (processed_count st) →
  let final := run_from args n idx images st in
  milestones (log final)
  = milestones (log st)
    ++ timeline (batch_size args) (analyzer final) (processed_count st) images
  ∧ len (analyzer final) = processed_count st + len images.
Proof.
  intros Hcalm Hb. revert idx st.
  induction images as [|it images IH]; intros idx st Hc Hlen final.
  - subst final. cbn [run_from timeline]. rewrite app_nil_r.
    split; [done|]. unfold len. cbn [length]. lia.
  - subst final. cbn [run_from timeline].
    destruct (process_item_calm n idx it st Hcalm Hb)
      as (r & w' & failed & evs & Hevs & _ & _ & ->).
    set (st' := {| analyzer := analyzer st ++ [r]; failed_count := failed;
                   processed_count := processed_count st + 1;
                   env := w'; log := _ |}).
    assert (Hlen' : length (analyzer st') = Z.to_nat (processed_count st')).
    { cbn. rewrite length_app, Hlen. cbn. lia. }
    destruct (IH (idx + 1) st' ltac:(cbn; lia) Hlen') as [Hmil Hcount].
    destruct (run_from_grows n (idx + 1) images st') as (extra & Hgrow).
    assert (Htake : take (Z.to_nat (processed_count st + 1))
                         (analyzer (run_from args n (idx + 1) images st'))
                    = analyzer st ++ [r]).
    { rewrite Hgrow. by apply take_app_length'. }
    split.
    + rewrite Hmil, Htake. subst st'. cbn [log processed_count].
      rewrite !milestones_app, (milestones_minor evs Hevs).
      rewrite <- !app_assoc. f_equal.
      by destruct ((processed_count st + 1) mod batch_size args =? 0).
    + rewrite Hcount. subst st'. cbn [processed_count]. unfold len.
      cbn [length]. lia.
Qed.

(** The final reports in a calm environment: the detailed results are
    flushed once more, with all the rows. *)
Lemma generate_reports_calm (st : state world) :
  calm →
  analyzer (generate_reports st).2 = analyzer st
  ∧ milestones (log (generate_reports st).2)
    = milestones (log st) ++ [inr (DETAILED_RESULTS_FILE, analyzer st)].
Proof.
  intros (_ & _ & _ & Hwrite).
  unfold generate_reports, mbind, M_bind, bind, save_detailed_results,
    write_artifact, generate_confusion_matrix, call.
  rewrite (lift_unit_calm (write_file _) _ (Hwrite _ _)).
  cbn [fst snd analyzer failed_count processed_count env log].
  rewrite (lift_unit_calm (write_file _) _ (Hwrite _ _)).
  cbn [fst snd analyzer failed_count processed_count env log].
  destruct (successful_results (analyzer st));
    cbn [fst snd analyzer failed_count processed_count env log];
    repeat (rewrite (lift_unit_calm (write_file _) _ (Hwrite _ _));
            cbn [fst snd analyzer failed_count processed_count env log]).
  all: split; [done|].
  all: by rewrite !milestones_app; cbn; rewrite !app_nil_r.
Qed.

(** C9.  When every item is processed and nothing raises, the log shows
    each trial in turn and, right after the trial that brings the count of
    processed items to a multiple of the batch size, a flush of the
    results so far under the name tagged with that count; the final
    reports add one flush of all the results.  With a batch size of 2 and
    five items the intermediate flushes come after the 2nd and the 4th
    trial and none after the 5th. *)
Theorem flush_every_batch (images : list (string * Z)) (w : world) :
  calm → 0 < batch_size args →
  let final := run_loop args images w in
  len (analyzer final) = len images
  ∧ milestones (log final)
    = timeline (batch_size args) (analyzer final) 0 images
  ∧ milestones (log (run_and_report args images w))
    = milestones (log final) ++ [inr (DETAILED_RESULTS_FILE, analyzer final)]
  ∧ (batch_size args = 2 →
     ∀ i1 i2 i3 i4 i5, images = [i1; i2; i3; i4; i5] →
       milestones (log final)
       = [inl i1.1; inl i2.1;
          inr ("results_intermediate_2.csv", take 2 (analyzer final));
          inl i3.1; inl i4.1;
          inr ("results_intermediate_4.csv", take 4 (analyzer final));
          inl i5.1]).
Proof.
  intros Hcalm Hb final.
  destruct (run_from_timeline (len images) 0 images (initial w) Hcalm)
    as [Hmil Hcount]; [lia | done | done |].
  cbn [initial log processed_count milestones omap app] in Hmil, Hcount.
  fold (run_loop args images w) in Hmil, Hcount. fold final in Hmil, Hcount.
  split; [lia|]. split; [done|]. split.
  - unfold run_and_report. fold final.
    by destruct (generate_reports_calm final Hcalm) as [_ ->].
  - intros Hb2 i1 i2 i3 i4 i5 Himages. rewrite Hmil, Hb2, Himages.
    reflexivity.
Qed.

(** C2 (amended).  When the body of the [try] raises an [Exception] for an
    item, the iteration does not leave the loop; it appends, for that
    item, an outcome that is not successful, has no prediction and carries
    the text of the exception as its error (not empty when that text is
    not); the loop goes on with the items that follow, and the outcome is
    in the final results.  Unless somebody interrupts the run, every
    item of the list ends with an outcome. *)
Theorem item_exception_boundary (n idx : Z) (it : string * Z)
    (st st1 : state world) (msg : string) :
  try_body args n idx it st = (inl (Exception msg), st1) →
  let st' := {| analyzer := analyzer st1 ++ [failure_record it msg];
                failed_count := failed_count st1 + 1;
                processed_count := processed_count st1;
                env := env st1; log := log st1 |} in
  process_item args n idx it st = (false, st')
  ∧ image_path (failure_record it msg) = it.1
  ∧ ground_truth (failure_record it msg) = it.2
  ∧ success (failure_record it msg) = false
  ∧ error (failure_record it msg) = msg
  ∧ (msg ≠ "" → error (failure_record it msg) ≠ "")
  ∧ ∀ rest,
      run_from args n idx (it :: rest) st = run_from args n (idx + 1) rest st'
      ∧ failure_record it msg ∈ analyzer (run_from args n idx (it :: rest) st)
      ∧ (uninterrupted →
         ∀ it', it' ∈ rest →
                ∃ r, r ∈ analyzer (run_from args n idx (it :: rest) st)
                     ∧ image_path r = it'.1 ∧ ground_truth r = it'.2).
Proof.
  intros Hraise st'.
  pose proof (process_item_exception n idx it st st1 msg Hraise) as Hitem.
  fold st' in Hitem. do 6 (split; [done|]). intros rest.
  assert (Hrun : run_from args n idx (it :: rest) st
                 = run_from args n (idx + 1) rest st')
    by (cbn [run_from]; by rewrite Hitem).
  split; [done|]. rewrite Hrun. split.
  - destruct (run_from_grows n (idx + 1) rest st') as (extra & ->).
    cbn [analyzer st']. set_solver.
  - intros Hun it' Hit'. by apply run_from_all_recorded.
Qed.

End RunFacts.

(** * The trial inside the loop *)

Section TrialFacts.

Import ResultsAnalyzer ColonoMindTester RunTests.

Context {world : Type} {B : Browser world}.

Variable reset : world → option exn * world.
Variable writer : string → world → option exn * world.
Variable args : arguments.

Lemma shipped_item (n idx : Z) (it : string * Z) (st : state world) :
  @process_item world (shipped reset writer) args n idx it st
  = (false,
     {| analyzer := analyzer st
                    ++ [failure_record it
                          "'ColonoMindTester' object has no attribute 'test_single_image'"];
        failed_count := failed_count st + 1;
        processed_count := processed_count st;
        env := env st;
        log := log st ++ [Tested it.1] |}).
Proof. by destruct it as [image_path label]. Qed.

Lemma shipped_run (n idx : Z) (images : list (string * Z)) (st : state world) :
  let final := @run_from world (shipped reset writer) args n idx images st in
  analyzer final
  = analyzer st
    ++ ((λ it, failure_record it
                 "'ColonoMindTester' object has no attribute 'test_single_image'")
          <$> images)
  ∧ failed_count final = failed_count st + len images
  ∧ processed_count final = processed_count st
  ∧ env final = env st.
Proof.
  cbv zeta. revert idx st. induction images as [|it images IH]; intros idx st.
  - cbn [run_from fmap list_fmap]. rewrite app_nil_r. unfold len.
    cbn [length]. repeat split; lia.
  - cbn [run_from]. rewrite shipped_item.
    destruct (IH (idx + 1)
                {| analyzer := analyzer st
                     ++ [failure_record it
                           "'ColonoMindTester' object has no attribute 'test_single_image'"];
                   failed_count := failed_count st + 1;
                   processed_count := processed_count st;
                   env := env st;
                   log := log st ++ [Tested it.1] |})
      as (-> & -> & -> & ->).
    cbn [analyzer failed_count processed_count env fmap list_fmap].
    rewrite <- app_assoc. unfold len. cbn [length app]. repeat split; lia.
Qed.

(** C1, on the code.  The class defines the parts of a trial but not the
    trial: the call of line 162 raises [AttributeError] for every item.
    The iteration records one outcome for the item, with no prediction,
    the time 0, the flag [False] and the text of the error, counts a
    failure and counts nothing as processed, and the session is as it was:
    nothing was uploaded and nothing awaited.  So where the upload and the
    wait would both succeed, the flag recorded is not the conjunction the
    claim states.  Over a whole run every image ends as such a failure. *)
Theorem single_trial_missing (n idx : Z) (image_path : string) (label : Z)
    (st : state world) :
  let up := upload_image image_path (env st) in
  let completed := wait_for_processing up.2 in
  let outcome :=
    {| ResultsAnalyzer.image_path := image_path;
       image_name := path_name image_path;
       ground_truth := label;
       predicted := None;
       processing_time := inject_Z 0;
       success := false;
       correct := false;
       error := "'ColonoMindTester' object has no attribute 'test_single_image'" |} in
  @process_item world (shipped reset writer) args n idx (image_path, label) st
  = (false,
     {| analyzer := analyzer st ++ [outcome];
        failed_count := failed_count st + 1;
        processed_count := processed_count st;
        env := env st;
        log := log st ++ [Tested image_path] |})
  ∧ (up.1 = true → completed.1 = true → success outcome ≠ up.1 && completed.1)
  ∧ ∀ images w,
      let final := @run_loop world (shipped reset writer) args images w in
      Forall (λ r, success r = false ∧ predicted r = None
                   ∧ processing_time r = inject_Z 0) (analyzer final)
      ∧ ResultsAnalyzer.image_path <$> analyzer final = images.*1
      ∧ failed_count final = len images
      ∧ processed_count final = 0
      ∧ env final = w.
Proof.
  intros up completed outcome. split; [|split].
  - apply (shipped_item n idx (image_path, label) st).
  - intros -> ->. by cbn.
  - intros images w final.
    destruct (shipped_run (len images) 0 images (initial w))
      as (Hrows & Hfailed & Hprocessed & Henv).
    fold (run_loop (H:=shipped reset writer) args images w) in *.
    fold final in Hrows, Hfailed, Hprocessed, Henv.
    cbn [initial analyzer failed_count processed_count env app] in *.
    rewrite Hrows. split; [|split; [|done]].
    + apply Forall_fmap, Forall_forall. by intros it _.
    + rewrite <- list_fmap_compose. by apply list_fmap_ext.
Qed.

End TrialFacts.

Lemma single_trial_missing_witness :
  ResultsAnalyzer.success
    {| ResultsAnalyzer.image_path := "/data/MES 1/c.jpg";
       ResultsAnalyzer.image_name := Py.path_name "/data/MES 1/c.jpg";
       ResultsAnalyzer.ground_truth := 1;
       ResultsAnalyzer.predicted := None;
       ResultsAnalyzer.processing_time := inject_Z 0;
       ResultsAnalyzer.success := false;
       ResultsAnalyzer.correct := false;
       ResultsAnalyzer.error :=
         "'ColonoMindTester' object has no attribute 'test_single_image'" |}
  ≠ true && true.
Proof.
  exact (proj1 (proj2 (@single_trial_missing unit RunTests.eager
                         (λ w, (None, w)) (λ _ w, (None, w))
                         RunTests.default_args 5 2 "/data/MES 1/c.jpg" 1
                         (RunTests.initial tt)))
           eq_refl eq_refl).
Defined.

(** * Concrete runs *)

Section ConcreteRuns.

Import ResultsAnalyzer RunTests.

Lemma item_exception_boundary_witness :
  let it := ("/data/MES 1/c.jpg", 1) in
  @process_item unit (raising (Exception "no such window")) default_args 5 2
                it (initial tt)
  = (false,
     {| analyzer := [failure_record it "no such window"];
        failed_count := 1; processed_count := 0; env := tt;
        log := [Tested "/data/MES 1/c.jpg"] |})
  ∧ error (failure_record it "no such window") = "no such window".
Proof.
  intros it.
  pose proof (@item_exception_boundary unit (raising (Exception "no such window"))
                default_args 5 2 it (initial tt)
                {| analyzer := []; failed_count := 0; processed_count := 0;
                   env := tt; log := [Tested "/data/MES 1/c.jpg"] |}
                "no such window" eq_refl) as (Hitem & _ & _ & _ & Herr & _).
  split; [exact Hitem | exact Herr].
Defined.

(** C2 as stated fails twice.  An [Exception] whose text is empty is
    recorded with an empty error message; and a [KeyboardInterrupt] raised
    while the first item is processed is not recorded at all and ends the
    loop before the second item. *)
Lemma item_exception_empty_or_interrupt :
  (let final := @run_loop unit (raising (Exception "")) default_args
                          [("/data/MES 1/c.jpg", 1)] tt in
   analyzer final = [failure_record ("/data/MES 1/c.jpg", 1) ""]
   ∧ ∀ r, r ∈ analyzer final → success r = false ∧ error r = "")
  ∧ (let final := @run_loop unit (raising KeyboardInterrupt) default_args
                            [("/data/MES 1/c.jpg", 1); ("/data/MES 2/d.jpg", 2)]
                            tt in
     analyzer final = [] ∧ log final = [Tested "/data/MES 1/c.jpg"]).
Proof.
  split; [split; [reflexivity|] | split; reflexivity].
  intros r Hr. apply list_elem_of_singleton in Hr. by subst r.
Qed.

Lemma steady_calm r : @calm unit (steady r).
Proof. repeat split; intros; cbn; eauto. Qed.

Lemma flush_every_batch_witness :
  0 < batch_size pairs_args
  ∧ (let final := @run_loop unit (steady (Some 2, (3 # 2)%Q, true)) pairs_args
                            five_images tt in
     milestones (log final)
     = [inl "/data/MES 0/a.jpg"; inl "/data/MES 0/b.jpg";
        inr ("results_intermediate_2.csv", take 2 (analyzer final));
        inl "/data/MES 1/c.jpg"; inl "/data/MES 2/d.jpg";
        inr ("results_intermediate_4.csv", take 4 (analyzer final));
        inl "/data/MES 3/e.jpg"]).
Proof.
  split; [reflexivity|]. intros final.
  pose proof (@flush_every_batch unit (steady (Some 2, (3 # 2)%Q, true))
                pairs_args five_images tt (steady_calm _) eq_refl)
    as (_ & _ & _ & Hfive).
  exact (Hfive eq_refl _ _ _ _ _ eq_refl).
Defined.

End ConcreteRuns.

(** * Further properties of the extraction *)

Section ExtractionRange.

Import ColonoMindTester.

Lemma class_digit_any_case (ignorecase : bool) (d : ascii) :
  in_class ignorecase digit_0_3 d = true → in_class false digit_0_3 d = true.
Proof.
  destruct ignorecase; [|done].
  destruct d as [[] [] [] [] [] [] [] []]; by vm_compute.
Qed.

(** A pattern that ends with the capture group leaves a class digit in the
    group, whatever precedes the group in the pattern. *)
Lemma match_here_group (ignorecase : bool) (pre : list atom)
    (group s found : string) :
  match_here ignorecase (pre ++ [Group digit_0_3]) group s = Some found →
  ∃ d, found = String d EmptyString ∧ in_class false digit_0_3 d = true.
Proof.
  revert group s. induction pre as [|a pre IH]; intros group s.
  - cbn [app match_here]. destruct s as [|d s']; [done|].
    destruct (in_class ignorecase digit_0_3 d) eqn:Hd; [|done].
    intros [= <-]. eauto using class_digit_any_case.
  - destruct a as [c|cls|cls]; cbn [app match_here].
    + destruct s as [|d s']; [done|]. destruct (char_eq ignorecase c d); [|done].
      apply IH.
    + induction s as [|d s' IHs].
      * apply IH.
      * destruct (in_class ignorecase cls d); [|apply IH].
        match goal with
        | |- context [match ?star s' with _ => _ end] =>
            destruct (star s') as [g|] eqn:Hstar
        end.
        -- intros [= <-]. by apply IHs.
        -- apply IH.
    + destruct s as [|d s']; [done|].
      destruct (in_class ignorecase cls d); [|done]. apply IH.
Qed.

Lemma re_search_group (ignorecase : bool) (pre : list atom) (a : atom)
    (s found : string) :
  re_search ignorecase (pre ++ [a; Group digit_0_3]) s = Some found →
  0 ≤ int_of_group found ≤ 3.
Proof.
  replace (pre ++ [a; Group digit_0_3]) with ((pre ++ [a]) ++ [Group digit_0_3])
    by (by rewrite <- app_assoc).
  induction s as [|c s IH]; cbn [re_search].
  - destruct (match_here _ _ _ _) as [g|] eqn:Hm; [|done].
    intros [= <-]. apply match_here_group in Hm as (d & -> & Hd).
    by apply digit_value.
  - destruct (match_here _ _ _ _) as [g|] eqn:Hm; [|exact IH].
    intros [= <-]. apply match_here_group in Hm as (d & -> & Hd).
    by apply digit_value.
Qed.

Lemma first_match_range (pre : list atom) (a : atom) (texts : list string)
    (n : Z) :
  first_match (pre ++ [a; Group digit_0_3]) texts = Some n → 0 ≤ n ≤ 3.
Proof.
  induction texts as [|t texts IH]; [done|]. cbn [first_match].
  destruct (re_search _ _ _) as [g|] eqn:Hs; [|exact IH].
  intros [= <-]. by eapply re_search_group.
Qed.

Lemma first_pattern_range (page_text : string) (n : Z) :
  first_pattern mes_patterns page_text = Some n → 0 ≤ n ≤ 3.
Proof.
  unfold mes_patterns. cbn [first_pattern].
  repeat match goal with
         | |- context [match re_search ?ic ?pat ?s with _ => _ end] =>
             destruct (re_search ic pat s) eqn:?;
             [intros [= <-]; eapply re_search_group; eassumption|]
         end.
  done.
Qed.

Lemma strategy2_range (reading re_bound : bool) (p : page) (n : Z) :
  strategy2 reading re_bound p = Some n → 0 ≤ n ≤ 3.
Proof.
  assert (Hfb : fallback re_bound p = Some n → 0 ≤ n ≤ 3).
  { unfold fallback. destruct (body_text p); [done|].
    destruct re_bound; [apply first_pattern_range | done]. }
  unfold strategy2.
  destruct (sidebar_elements p) as [[|]|[|e es]]; try done.
  - by destruct reading.
  - destruct re_bound; [|done].
    destruct (first_match sidebar_re (e :: es)) as [score|] eqn:Hm.
    + intros [= <-]. by apply first_match_range in Hm.
    + by destruct reading.
Qed.

(** X1.  Whatever the driver returns and under either reading of the
    handler, a classification that [extract_mes_classification] returns is
    one of 0, 1, 2, 3. *)
Theorem extract_in_class_range (reading : bool) (p : page) (n : Z) :
  extract_mes_classification reading p = Some n → 0 ≤ n ≤ 3.
Proof.
  unfold extract_mes_classification.
  destruct (score_elements p) as [err|[|e es]];
    try apply strategy2_range.
  destruct (first_match score_re (e :: es)) as [score|] eqn:Hm.
  - intros [= <-]. by apply first_match_range in Hm.
  - apply strategy2_range.
Qed.

Lemma strategy2_unbound (reading : bool) (p : page) :
  strategy2 reading false p = None.
Proof.
  unfold strategy2, fallback.
  destruct (sidebar_elements p) as [[|]|[|e es]]; try done.
  - by destruct (body_text p).
  - destruct reading; [|done]. by destruct (body_text p).
Qed.

(** X2.  The extraction returns a classification only if the lookup of
    Strategy 1 located at least one element: when that lookup raises or
    locates nothing, the result is [None], whatever the sidebar and the text
    of the body contain. *)
Theorem extract_needs_score_element (reading : bool) (p : page) (n : Z) :
  extract_mes_classification reading p = Some n →
  ∃ e es, score_elements p = inr (e :: es).
Proof.
  unfold extract_mes_classification.
  destruct (score_elements p) as [err|[|e es]]; [| |by eauto];
    by rewrite strategy2_unbound.
Qed.

Lemma score_text_match (t ws : string) (d : ascii) (rest : string) :
  strip t = "ColonoScan MES Score:" +:+ ws +:+ String d rest →
  Forall (λ c, is_space c = true) (list_ascii_of_string ws) →
  in_class false digit_0_3 d = true →
  re_search false score_re (strip t) = Some (String d EmptyString).
Proof.
  intros Ht Hws Hd. rewrite Ht.
  pose proof (spaces_then_digit ws d rest EmptyString Hws Hd) as Hm.
  unfold score_re. rewrite !append_cons, append_nil.
  cbn [re_search match_here lit app char_eq Ascii.eqb Bool.eqb].
  cbn [match_here] in Hm. by rewrite Hm.
Qed.

(** X3.  Strategy 1 returns the score of the first located element that
    shows one: elements before it whose text has no score are passed over,
    and when its text reads ["ColonoScan MES Score:"], optional whitespace
    and a class digit, that digit is the result under either reading,
    whatever the elements after it, the sidebar and the text of the body
    say.  The texts that are read, those up to that element, are ASCII. *)
Theorem first_score_card_wins (reading : bool) (p : page)
    (pre : list string) (e : string) (es : list string) (ws : string)
    (d : ascii) (rest : string) :
  score_elements p = inr (pre ++ e :: es) →
  Forall plain (pre ++ [e]) →
  Forall (λ t, re_search false score_re (strip t) = None) pre →
  strip e = "ColonoScan MES Score:" +:+ ws +:+ String d rest →
  Forall (λ c, is_space c = true) (list_ascii_of_string ws) →
  in_class false digit_0_3 d = true →
  extract_mes_classification reading p
  = Some (int_of_group (String d EmptyString)).
Proof.
  intros Hp _ Hpre He Hws Hd.
  assert (Hfirst : first_match score_re (pre ++ e :: es)
                   = Some (int_of_group (String d EmptyString))).
  { clear Hp. induction Hpre as [|t pre Ht _ IH].
    - cbn [app first_match]. by rewrite (score_text_match e ws d rest).
    - cbn [app first_match]. by rewrite Ht. }
  unfold extract_mes_classification. rewrite Hp.
  destruct (pre ++ e :: es) as [|t ts] eqn:Hts;
    [by destruct pre | by rewrite Hfirst].
Qed.

(** X4.  Strategy 2 comes before the text of the body: when Strategy 1
    located elements but none with a score, and the first element located
    for the sidebar reads ["Prediction: MES"], optional whitespace and a class
    digit, that digit is the result under either reading, whatever the text
    of the body says.  The texts that are read, those of the score
    elements and of that sidebar element, are ASCII. *)
Theorem sidebar_before_body (reading : bool) (p : page) (e : string)
    (es : list string) (s : string) (ss : list string) (ws : string)
    (d : ascii) (rest : string) :
  score_elements p = inr (e :: es) →
  Forall plain (e :: es ++ [s]) →
  first_match score_re (e :: es) = None →
  sidebar_elements p = inr (s :: ss) →
  strip s = "Prediction: MES" +:+ ws +:+ String d rest →
  Forall (λ c, is_space c = true) (list_ascii_of_string ws) →
  in_class false digit_0_3 d = true →
  extract_mes_classification reading p
  = Some (int_of_group (String d EmptyString)).
Proof.
  intros Hscore _ Hnone Hside Htext Hws Hd.
  unfold extract_mes_classification. rewrite Hscore, Hnone.
  unfold strategy2. rewrite Hside. cbn [first_match]. rewrite Htext.
  pose proof (spaces_then_digit ws d rest EmptyString Hws Hd) as Hm.
  unfold sidebar_re. rewrite !append_cons, append_nil.
  cbn [re_search match_here lit app char_eq Ascii.eqb Bool.eqb].
  cbn [match_here] in Hm. by rewrite Hm.
Qed.

End ExtractionRange.

Lemma extract_in_class_range_witness :
  ColonoMindTester.extract_mes_classification true ColonoMindTester.label_apart
  = Some 1 ∧ 0 ≤ 1 ≤ 3.
Proof.
  split; [reflexivity|].
  exact (extract_in_class_range true ColonoMindTester.label_apart 1 eq_refl).
Defined.

Lemma extract_needs_score_element_witness :
  ∃ e es,
    ColonoMindTester.score_elements ColonoMindTester.label_apart = inr (e :: es).
Proof.
  exact (extract_needs_score_element true ColonoMindTester.label_apart 1 eq_refl).
Defined.

Lemma first_score_card_wins_witness :
  ColonoMindTester.extract_mes_classification false
    {| ColonoMindTester.score_elements :=
         inr ["ColonoScan MES Score:"; "  ColonoScan MES Score:  3 (severe)";
              "ColonoScan MES Score: 0"];
       ColonoMindTester.sidebar_elements := inr ["Prediction: MES 1"];
       ColonoMindTester.body_text := inr "Score: 0" |}
  = Some 3.
Proof.
  refine (first_score_card_wins false
            {| ColonoMindTester.score_elements :=
                 inr ["ColonoScan MES Score:";
                      "  ColonoScan MES Score:  3 (severe)";
                      "ColonoScan MES Score: 0"];
               ColonoMindTester.sidebar_elements := inr ["Prediction: MES 1"];
               ColonoMindTester.body_text := inr "Score: 0" |}
            ["ColonoScan MES Score:"] "  ColonoScan MES Score:  3 (severe)"
            ["ColonoScan MES Score: 0"] "  " "3" " (severe)"
            eq_refl _ _ eq_refl _ eq_refl).
  - by repeat constructor.
  - by repeat constructor.
  - by repeat constructor.
Defined.

Lemma sidebar_before_body_witness :
  ColonoMindTester.extract_mes_classification true
    {| ColonoMindTester.score_elements := inr ["ColonoScan MES Score:"];
       ColonoMindTester.sidebar_elements := inr ["Prediction: MES 2"];
       ColonoMindTester.body_text := inr "ColonoScan MES Score: 0" |}
  = Some 2.
Proof.
  refine (sidebar_before_body true
            {| ColonoMindTester.score_elements := inr ["ColonoScan MES Score:"];
               ColonoMindTester.sidebar_elements := inr ["Prediction: MES 2"];
               ColonoMindTester.body_text := inr "ColonoScan MES Score: 0" |}
            "ColonoScan MES Score:" [] "Prediction: MES 2" [] " " "2" ""
            eq_refl _ eq_refl eq_refl eq_refl _ eq_refl).
  - by repeat constructor.
  - by repeat constructor.
Defined.

(** * Further properties of the result analyzer *)

Section AnalyzerBounds.

Import ResultsAnalyzer.

Lemma ratio_bounds (a b : Z) :
  0 ≤ a ≤ b → 0 < b →
  (0 <= truediv (inject_Z a) (inject_Z b) <= 1)%Q.
Proof.
  intros Hab Hb. unfold truediv.
  assert (HbQ : (0 < inject_Z b)%Q) by (by rewrite Zlt_Qlt in Hb).
  split.
  - apply Qle_shift_div_l; [done|]. rewrite Qmult_0_l.
    rewrite Zle_Qle in Hab. tauto.
  - apply Qle_shift_div_r; [done|]. rewrite Qmult_1_l.
    rewrite <- Zle_Qle. lia.
Qed.

Lemma filter_len_le {A} (P : A → Prop) `{∀ x, Decision (P x)} (l : list A) :
  0 ≤ len (filter P l) ≤ len l.
Proof. unfold len. pose proof (length_filter P l). lia. Qed.

Lemma class_accuracy_bounds (S : list result) (c : Z) :
  (0 <= class_accuracy S c <= 1)%Q.
Proof.
  unfold class_accuracy. destruct (class_results S c) as [|r cr] eqn:Hcr.
  - by vm_compute.
  - apply ratio_bounds; [apply filter_len_le|]. unfold len. cbn. lia.
Qed.

Lemma accuracy_metrics_no_success_keys (rs : list result) :
  successful_results rs = [] →
  calculate_accuracy_metrics rs
  = <["overall_accuracy" := PyFloat (inject_Z 0)]>
    (<["total_tested" := PyInt (len rs)]>
    (<["successful_tests" := PyInt 0]>
    (<["failed_tests" := PyInt (len rs)]> ∅)))
  ∧ ∀ c, calculate_accuracy_metrics rs !! accuracy_key c = None.
Proof.
  intros HS. unfold calculate_accuracy_metrics. rewrite HS. split; [done|].
  intros c. destruct (accuracy_key_head c) as [s ->].
  by rewrite !lookup_insert_ne, lookup_empty.
Qed.

Lemma per_class_other_key (S : list result) (key : string) :
  (∀ s, key ≠ String "M" s) → per_class_accuracy S !! key = None.
Proof.
  intros Hkey. unfold per_class_accuracy. cbn [foldl].
  repeat case_match;
    rewrite ?(lookup_insert_ne _ _ _ _) by (vm_compute; intros [= Heq]; by eapply Hkey);
    apply lookup_empty.
Qed.

Lemma accuracy_metrics_nonempty_keys (rs : list result) :
  Forall recorded rs →
  successful_results rs ≠ [] →
  let S := successful_results rs in
  calculate_accuracy_metrics rs !! "overall_accuracy"
  = Some (PyFloat
            (truediv
               (inject_Z (len (filter (λ r, predicted r = Some (ground_truth r)) S)))
               (inject_Z (len S))))
  ∧ (∀ c, c ∈ [0; 1; 2; 3] →
          calculate_accuracy_metrics rs !! accuracy_key c
          = Some (PyFloat (class_accuracy S c)))
  ∧ calculate_accuracy_metrics rs !! "total_tested" = Some (PyInt (len rs))
  ∧ calculate_accuracy_metrics rs !! "successful_tests" = Some (PyInt (len S))
  ∧ calculate_accuracy_metrics rs !! "failed_tests"
    = Some (PyInt (len rs - len S)).
Proof.
  intros Hrs Hne S. unfold calculate_accuracy_metrics. fold S.
  destruct S as [|r0 S'] eqn:ES; [done|]. rewrite <- ES.
  assert (HS : Forall recorded S) by (subst S; by apply successful_sub).
  split; [|split; [|split; [|split]]].
  - rewrite lookup_union_r by (by apply per_class_other_key).
    rewrite lookup_insert_eq. unfold accuracy_score, len.
    rewrite agree_count by (subst S; apply successful_predicted).
    by rewrite length_fmap.
  - intros c Hc.
    rewrite (lookup_union_Some_l _ _ _ (PyFloat (class_accuracy S c))); [done|].
    by apply per_class_lookup.
  - rewrite lookup_union_r by (by apply per_class_other_key).
    by rewrite lookup_insert_ne, lookup_insert_eq.
  - rewrite lookup_union_r by (by apply per_class_other_key).
    by do 2 (rewrite lookup_insert_ne by done); rewrite lookup_insert_eq.
  - rewrite lookup_union_r by (by apply per_class_other_key).
    by do 3 (rewrite lookup_insert_ne by done); rewrite lookup_insert_eq.
Qed.

(** X5.  The overall accuracy and every per-class accuracy that
    [calculate_accuracy_metrics] reports lie between 0 and 1, and the counts
    it reports add up: successful plus failed tests is the number of results
    tested. *)
Theorem accuracy_metrics_bounds (rs : list result) :
  Forall recorded rs →
  let metrics := calculate_accuracy_metrics rs in
  (∃ a, metrics !! "overall_accuracy" = Some (PyFloat a) ∧ (0 <= a <= 1)%Q)
  ∧ (∀ c v, c ∈ [0; 1; 2; 3] → metrics !! accuracy_key c = Some v →
            (0 <= to_Q v <= 1)%Q)
  ∧ ∃ successful failed,
      metrics !! "total_tested" = Some (PyInt (len rs))
      ∧ metrics !! "successful_tests" = Some (PyInt successful)
      ∧ metrics !! "failed_tests" = Some (PyInt failed)
      ∧ successful = len (successful_results rs)
      ∧ 0 ≤ successful ∧ 0 ≤ failed ∧ successful + failed = len rs.
Proof.
  intros Hrs metrics.
  pose proof (filter_len_le (λ r, success r = true ∧ is_Some (predicted r)) rs)
    as Hlen. fold (successful_results rs) in Hlen.
  destruct (decide (successful_results rs = [])) as [HS|Hne].
  - destruct (accuracy_metrics_no_success_keys rs HS) as (Hall & Hnone).
    subst metrics. split; [|split].
    + eexists. rewrite Hall. split; [by rewrite lookup_insert_eq | by vm_compute].
    + intros c v _ Hv. by rewrite Hnone in Hv.
    + exists 0, (len rs). rewrite Hall, HS. unfold len in *.
      repeat split; try (cbn; lia);
        by rewrite ?(lookup_insert_ne _ _ _ _) by done; rewrite lookup_insert_eq.
  - destruct (accuracy_metrics_nonempty_keys rs Hrs Hne)
      as (Hoverall & Hclass & Htotal & Hsucc & Hfail).
    subst metrics. split; [|split].
    + eexists. split; [exact Hoverall|].
      apply ratio_bounds; [apply filter_len_le|].
      destruct (successful_results rs); [done|]. unfold len. cbn. lia.
    + intros c v Hc Hv. rewrite (Hclass c Hc) in Hv. injection Hv as <-.
      apply class_accuracy_bounds.
    + exists (len (successful_results rs)), (len rs - len (successful_results rs)).
      repeat split; try done; lia.
Qed.

Lemma successful_results_unsuccessful (rs : list result) (r : result) :
  success r = false ∨ predicted r = None →
  successful_results (rs ++ [r]) = successful_results rs.
Proof.
  intros Hr. unfold successful_results.
  rewrite filter_app, filter_cons, filter_nil.
  case_decide as Hok; [|by rewrite app_nil_r].
  destruct Hok as [Hs [p Hp]]. destruct Hr; congruence.
Qed.

(** X6.  An outcome that is not successful, or has no prediction, does not
    move any accuracy: appended to the results, it leaves every entry of
    the metrics as it was, except the two counters [total_tested] and
    [failed_tests], which both grow by one. *)
Theorem accuracy_ignores_unsuccessful (rs : list result) (r : result) :
  success r = false ∨ predicted r = None →
  let metrics := calculate_accuracy_metrics rs in
  let metrics' := calculate_accuracy_metrics (rs ++ [r]) in
  (∀ key, key ≠ "total_tested" → key ≠ "failed_tests" →
          metrics' !! key = metrics !! key)
  ∧ metrics !! "total_tested" = Some (PyInt (len rs))
  ∧ metrics' !! "total_tested" = Some (PyInt (len rs + 1))
  ∧ metrics !! "failed_tests"
    = Some (PyInt (len rs - len (successful_results rs)))
  ∧ metrics' !! "failed_tests"
    = Some (PyInt (len rs - len (successful_results rs) + 1)).
Proof.
  intros Hr metrics metrics'. subst metrics metrics'.
  unfold calculate_accuracy_metrics.
  rewrite (successful_results_unsuccessful rs r Hr).
  assert (Hlen : len (rs ++ [r]) = len rs + 1)
    by (unfold len; rewrite length_app; cbn; lia).
  rewrite Hlen.
  destruct (successful_results rs) as [|r0 S'] eqn:HS.
  - split.
    { intros key H1 H2. rewrite !lookup_insert.
      repeat case_decide; subst; done. }
    change (len []) with 0. rewrite Z.sub_0_r.
    repeat split;
      by rewrite ?(lookup_insert_ne _ _ _ _) by done; rewrite lookup_insert_eq.
  - split.
    { intros key H1 H2. rewrite !lookup_union. f_equal.
      rewrite !lookup_insert. repeat case_decide; subst; done. }
    repeat split;
      rewrite lookup_union_r by (by apply per_class_other_key);
      rewrite ?(lookup_insert_ne _ _ _ _) by done;
      rewrite lookup_insert_eq; do 2 f_equal; lia.
Qed.

Lemma count_partition {A} (f : A → Z) (l : list A) :
  Forall (λ x, 0 ≤ f x ≤ 3) l →
  len (filter (λ x, f x = 0) l) + len (filter (λ x, f x = 1) l)
  + len (filter (λ x, f x = 2) l) + len (filter (λ x, f x = 3) l) = len l.
Proof.
  unfold len. induction 1 as [|x l Hx _ IH]; [done|].
  rewrite !filter_cons. repeat case_decide; cbn [length]; lia.
Qed.

Lemma count_partition_option {A} (f : A → option Z) (l : list A) :
  Forall (λ x, ∀ p, f x = Some p → 0 ≤ p ≤ 3) l →
  len (filter (λ x, f x = Some 0) l) + len (filter (λ x, f x = Some 1) l)
  + len (filter (λ x, f x = Some 2) l) + len (filter (λ x, f x = Some 3) l)
  = len (filter (λ x, is_Some (f x)) l).
Proof.
  unfold len. induction 1 as [|x l Hx _ IH]; [done|].
  rewrite !filter_cons. destruct (f x) as [p|] eqn:Hp.
  - specialize (Hx p eq_refl).
    assert (p = 0 ∨ p = 1 ∨ p = 2 ∨ p = 3) as Hcase by lia.
    destruct_or!; subst p; repeat case_decide; try done; cbn [length];
      try lia; exfalso; eauto.
  - repeat case_decide; try done; cbn [length]; lia.
Qed.

Lemma class_distribution_lookup (rs : list result) (c : Z) :
  c ∈ [0; 1; 2; 3] →
  (class_distribution rs).1 !! distribution_key c
  = Some (len (filter (λ r, ground_truth r = c) rs))
  ∧ (class_distribution rs).2 !! distribution_key c
    = Some (len (filter (λ r, predicted r = Some c) rs)).
Proof.
  intros Hc. unfold class_distribution. cbn [foldl fst snd].
  set_unfold in Hc. destruct_or!; subst c; split;
    by rewrite ?(lookup_insert_ne _ _ _ _) by (by vm_compute);
       rewrite lookup_insert_eq.
Qed.

(** X7.  In the summary, the ground-truth distribution counts every
    result, failed or not, and the predicted distribution counts the results
    that carry a prediction: with labels and predictions in the class range,
    the four ground-truth counts add up to the number of results and the
    four predicted counts to the number of results with a prediction. *)
Theorem summary_distribution_totals (np_sqrt : Q → Q) (rs : list result) :
  Forall (λ r, 0 ≤ ground_truth r ≤ 3
               ∧ ∀ p, predicted r = Some p → 0 ≤ p ≤ 3) rs →
  let s := save_summary np_sqrt rs in
  ∃ g0 g1 g2 g3 p0 p1 p2 p3,
    distribution_ground_truth s !! "MES_0" = Some g0
    ∧ distribution_ground_truth s !! "MES_1" = Some g1
    ∧ distribution_ground_truth s !! "MES_2" = Some g2
    ∧ distribution_ground_truth s !! "MES_3" = Some g3
    ∧ distribution_predicted s !! "MES_0" = Some p0
    ∧ distribution_predicted s !! "MES_1" = Some p1
    ∧ distribution_predicted s !! "MES_2" = Some p2
    ∧ distribution_predicted s !! "MES_3" = Some p3
    ∧ g0 + g1 + g2 + g3 = len rs
    ∧ p0 + p1 + p2 + p3 = len (filter (λ r, is_Some (predicted r)) rs)
    ∧ p0 + p1 + p2 + p3 ≤ g0 + g1 + g2 + g3.
Proof.
  intros Hrs s. subst s. cbn [save_summary distribution_ground_truth
                                distribution_predicted].
  destruct (class_distribution_lookup rs 0) as [G0 P0]; [decide_now|].
  destruct (class_distribution_lookup rs 1) as [G1 P1]; [decide_now|].
  destruct (class_distribution_lookup rs 2) as [G2 P2]; [decide_now|].
  destruct (class_distribution_lookup rs 3) as [G3 P3]; [decide_now|].
  eexists _, _, _, _, _, _, _, _.
  do 8 (split; [eassumption|]).
  assert (Hg := count_partition ground_truth rs
                  (Forall_impl _ _ _ Hrs (λ r H, proj1 H))).
  assert (Hp := count_partition_option predicted rs
                  (Forall_impl _ _ _ Hrs (λ r H, proj2 H))).
  pose proof (filter_len_le (λ r, is_Some (predicted r)) rs).
  split; [exact Hg|]. split; [exact Hp|]. lia.
Qed.

End AnalyzerBounds.

Lemma accuracy_metrics_bounds_witness :
  ∃ a, ResultsAnalyzer.calculate_accuracy_metrics
         (ResultsAnalyzer.example_results "a.jpg" "b.jpg" "c.jpg" 1 1 1)
       !! "overall_accuracy" = Some (PyFloat a) ∧ (0 <= a <= 1)%Q.
Proof.
  refine (proj1 (accuracy_metrics_bounds
                   (ResultsAnalyzer.example_results "a.jpg" "b.jpg" "c.jpg" 1 1 1) _)).
  unfold ResultsAnalyzer.example_results.
  repeat apply add_result_recorded. constructor.
Defined.

Lemma accuracy_ignores_unsuccessful_witness :
  let rs := ResultsAnalyzer.example_results "a.jpg" "b.jpg" "c.jpg" 1 1 1 in
  let r := ResultsAnalyzer.failure_row in
  ResultsAnalyzer.calculate_accuracy_metrics (rs ++ [r]) !! "overall_accuracy"
  = ResultsAnalyzer.calculate_accuracy_metrics rs !! "overall_accuracy"
  ∧ ResultsAnalyzer.calculate_accuracy_metrics (rs ++ [r]) !! "failed_tests"
    = Some (PyInt 1).
Proof.
  intros rs r.
  destruct (accuracy_ignores_unsuccessful rs r (or_introl eq_refl))
    as (Hsame & _ & _ & _ & Hfailed).
  split; [by apply Hsame | exact Hfailed].
Defined.

Lemma summary_distribution_totals_witness :
  ∃ g1 p1,
    ResultsAnalyzer.distribution_ground_truth
      (ResultsAnalyzer.save_summary (λ q, q) ResultsAnalyzer.one_failed)
    !! "MES_1" = Some g1
    ∧ ResultsAnalyzer.distribution_predicted
        (ResultsAnalyzer.save_summary (λ q, q) ResultsAnalyzer.one_failed)
      !! "MES_1" = Some p1
    ∧ p1 ≤ g1.
Proof.
  destruct (summary_distribution_totals (λ q, q) ResultsAnalyzer.one_failed)
    as (g0 & g1 & g2 & g3 & p0 & p1 & p2 & p3 & G0 & G1 & G2 & G3
        & P0 & P1 & P2 & P3 & Hg & Hp & Hle).
  { repeat constructor; cbn; (lia || discriminate). }
  exists g1, p1. split; [exact G1|]. split; [exact P1|].
  vm_compute in G0, G1, G2, G3, P0, P1, P2, P3.
  injection G0 as <-. injection G1 as <-. injection P0 as <-.
  injection P1 as <-. lia.
Defined.

(** * Further properties of the timing statistics *)

Section TimingOrder.

Import ResultsAnalyzer.

Lemma len_cons {A} (x : A) (l : list A) : len (x :: l) = len l + 1.
Proof. unfold len. cbn [length]. lia. Qed.

Lemma nth_sorted_elem (xs : list Q) (i : nat) :
  (i < length xs)%nat → nth i (np_sort xs) (inject_Z 0) ∈ xs.
Proof.
  intros Hi.
  apply list_elem_of_In, (Permutation_in _ (np_sort_perm xs)), nth_In.
  by rewrite (Permutation_length (np_sort_perm xs)).
Qed.

Lemma np_median_between (xs : list Q) (lo hi : Q) :
  xs ≠ [] →
  (∀ x, x ∈ xs → (lo <= x <= hi)%Q) →
  (lo <= np_median xs <= hi)%Q.
Proof.
  intros Hne Hall. unfold np_median.
  rewrite (Permutation_length (np_sort_perm xs)).
  assert (Hpos : (0 < length xs)%nat) by (destruct xs; [done | cbn; lia]).
  assert (Hhalf : (length xs / 2 < length xs)%nat)
    by (apply Nat.div_lt; lia).
  destruct (Nat.even (length xs)) eqn:Heven.
  - destruct (Hall _ (nth_sorted_elem xs (length xs / 2 - 1) ltac:(lia))).
    destruct (Hall _ (nth_sorted_elem xs (length xs / 2) Hhalf)).
    unfold truediv. change (inject_Z 2) with 2%Q.
    split.
    + apply Qle_shift_div_l; [reflexivity|]. lra.
    + apply Qle_shift_div_r; [reflexivity|]. lra.
  - apply Hall. by apply nth_sorted_elem.
Qed.

Lemma np_var_nonneg (xs : list Q) : xs ≠ [] → (0 <= np_var xs)%Q.
Proof.
  intros Hne. unfold np_var.
  generalize (np_mean xs). intros mu.
  assert (Hsq : ∀ y, y ∈ (λ x, (x - mu) * (x - mu))%Q <$> xs → (0 <= y)%Q).
  { intros y (x & -> & _)%list_elem_of_fmap.
    generalize (x - mu)%Q. intros z. nra. }
  assert (Hne' : (λ x, (x - mu) * (x - mu))%Q <$> xs ≠ []) by (by destruct xs).
  revert Hsq Hne'. generalize ((λ x, (x - mu) * (x - mu))%Q <$> xs).
  intros ys Hsq Hne'.
  assert (Hn : (0 < inject_Z (len ys))%Q).
  { rewrite <- (Zlt_Qlt 0). destruct ys; [done|]. rewrite len_cons.
    unfold len. lia. }
  unfold np_mean, truediv. apply Qle_shift_div_l; [done|].
  pose proof (fold_left_Qplus ys (inject_Z 0)) as Hsum.
  change (inject_Z 0) with 0%Q in *. rewrite Hsum.
  assert (0 <= Qsum ys)%Q; [|lra].
  clear Hsum Hn Hne'. induction ys as [|y ys IH]; [by vm_compute|].
  unfold Qsum. cbn [foldr]. fold (Qsum ys).
  assert (0 <= y)%Q by (apply Hsq, list_elem_of_here).
  assert (0 <= Qsum ys)%Q by (apply IH; intros z Hz; apply Hsq;
                              by apply list_elem_of_further).
  lra.
Qed.

Variable np_sqrt : Q → Q.

(** X8.  When at least one result is successful, the minimum and the
    maximum that [calculate_timing_statistics] reports are times of
    successful results, the time of every successful result and the median
    lie between them, and the variance under the standard deviation is not
    negative.  (Nothing is said of the mean, which numpy rounds.) *)
Theorem timing_statistics_ordered (rs : list result) :
  successful_times rs ≠ [] →
  let stats := calculate_timing_statistics np_sqrt rs in
  ∃ median lowest highest,
    stats !! "median_time" = Some (PyFloat median)
    ∧ stats !! "min_time" = Some (PyFloat lowest)
    ∧ stats !! "max_time" = Some (PyFloat highest)
    ∧ (lowest <= median <= highest)%Q
    ∧ (∀ r, r ∈ rs → success r = true →
            (lowest <= processing_time r <= highest)%Q)
    ∧ (∃ r, r ∈ rs ∧ success r = true ∧ processing_time r = lowest)
    ∧ (∃ r, r ∈ rs ∧ success r = true ∧ processing_time r = highest)
    ∧ (0 <= np_var (successful_times rs))%Q.
Proof.
  intros Hne stats. subst stats.
  destruct (np_min_spec _ Hne) as [Hmin_in Hmin].
  destruct (np_max_spec _ Hne) as [Hmax_in Hmax].
  assert (Hall : ∀ x, x ∈ successful_times rs →
                      (np_min (successful_times rs) <= x
                       <= np_max (successful_times rs))%Q) by (split; eauto).
  assert (Hfrom : ∀ t, t ∈ successful_times rs →
                       ∃ r, r ∈ rs ∧ success r = true ∧ processing_time r = t).
  { intros t (r & -> & Hr)%list_elem_of_fmap.
    apply list_elem_of_filter in Hr as [Hok Hr]. eauto. }
  assert (Hto : ∀ r, r ∈ rs → success r = true →
                     processing_time r ∈ successful_times rs).
  { intros r Hr Hok. apply list_elem_of_fmap. exists r. split; [done|].
    by apply list_elem_of_filter. }
  exists (np_median (successful_times rs)),
    (np_min (successful_times rs)), (np_max (successful_times rs)).
  rewrite !(timing_distribution np_sqrt) by done.
  unfold distribution, np_std.
  destruct (successful_times rs) as [|t ts] eqn:Hts; [done|]. rewrite <- Hts in *.
  do 3 (split; [reflexivity|]).
  split; [by apply np_median_between|]. split; [by auto|].
  split; [by apply Hfrom|]. split; [by apply Hfrom|]. by apply np_var_nonneg.
Qed.

End TimingOrder.

Lemma timing_statistics_ordered_witness :
  let rs := ResultsAnalyzer.example_results "a.jpg" "b.jpg" "c.jpg"
              (3 # 1)%Q (1 # 1)%Q (2 # 1)%Q ++ [ResultsAnalyzer.failure_row] in
  ∃ median lowest highest,
    ResultsAnalyzer.calculate_timing_statistics (λ q, q) rs !! "median_time"
    = Some (PyFloat median)
    ∧ (lowest <= median <= highest)%Q
    ∧ (∃ r, r ∈ rs ∧ ResultsAnalyzer.processing_time r = highest).
Proof.
  intros rs.
  destruct (timing_statistics_ordered (λ q, q) rs)
    as (median & lowest & highest & Hmedian & _ & _ & Hm & _ & _
        & (r & Hr & _ & Ht) & _).
  { vm_compute. discriminate. }
  exists median, lowest, highest. eauto.
Defined.

(** * Further properties of the dataset manager *)

Section LoaderOrder.

Import TestDatasetManager.

Lemma load_classes_images exts dir abs_base base classes imgs :
  (load_classes exts dir abs_base base classes imgs).2
  = imgs ++ concat (class_items exts abs_base base <$> ready_classes base classes).
Proof.
  revert imgs. induction classes as [|c classes IH]; intros imgs;
    cbn [load_classes ready_classes].
  - cbn. by rewrite app_nil_r.
  - assert (Hitems := eq_refl (class_items exts abs_base base c)).
    unfold class_items at 2 in Hitems. unfold blocked.
    destruct (resolve base (possible_names c)) as [[name [|entries| |]]|] eqn:Hc;
      cbn [scan_class snd fmap list_fmap concat].
    + by rewrite app_nil_r.
    + rewrite IH, Hitems. by rewrite app_assoc.
    + by rewrite app_nil_r.
    + by rewrite app_nil_r.
    + by rewrite IH, Hitems.
Qed.

Lemma load_classes_outcome exts dir abs_base base classes imgs :
  (load_classes exts dir abs_base base classes imgs).1 = None
  ↔ ready_classes base classes = classes.
Proof.
  revert imgs. induction classes as [|c classes IH]; intros imgs;
    cbn [load_classes ready_classes]; [done|].
  unfold blocked.
  destruct (resolve base (possible_names c)) as [[name [|entries| |]]|];
    cbn [scan_class fst]; try (split; [done | discriminate]).
  - rewrite IH. split; [congruence | by intros [= ->]].
  - rewrite IH. split; [congruence | by intros [= ->]].
Qed.

Lemma ready_classes_cases (base : node) :
  ready_classes base [0; 1; 2; 3]
  ∈ [[]; [0]; [0; 1]; [0; 1; 2]; [0; 1; 2; 3]].
Proof.
  cbn [ready_classes]. repeat case_match; set_solver.
Qed.

Lemma sorted_blocks (a : Z) (xs ys : list Z) :
  Forall (λ x, x = a) xs → Forall (λ y, a ≤ y) ys →
  StronglySorted Z.le ys → StronglySorted Z.le (xs ++ ys).
Proof.
  intros Hxs Hys Hsorted. induction Hxs as [|x xs -> Hrest IH]; [done|].
  cbn. constructor; [done|]. apply Forall_app. split; [|done].
  clear IH. induction Hrest as [|y ys' -> _ IH]; constructor; [lia | done].
Qed.

Lemma class_blocks_sorted (exts : list string) (abs_base : string)
    (base : node) :
  StronglySorted Z.le
    (snd <$> concat (class_items exts abs_base base
                       <$> ready_classes base [0; 1; 2; 3])).
Proof.
  set (items := class_items exts abs_base base).
  assert (Hlabels : ∀ c, Forall (λ x, x = c) (snd <$> items c)).
  { intros c. apply Forall_fmap. apply class_items_label. }
  pose proof (ready_classes_cases base) as Hcases.
  set_unfold in Hcases.
  destruct_or!; rewrite Hcases; cbn [fmap list_fmap concat];
    rewrite ?fmap_app; change (snd <$> @nil item) with (@nil Z);
    repeat (eapply sorted_blocks; [apply Hlabels| |]);
    rewrite ?Forall_app; repeat split;
    try (by constructor);
    try (eapply Forall_impl; [apply Hlabels|]; cbn; lia).
Qed.

Lemma load_dataset_images (self : manager) (fs : filesystem) (base : node) :
  root fs = Some base →
  images (load_dataset self fs).2
  = concat (class_items (supported_extensions self) (absolute fs) base
              <$> ready_classes base [0; 1; 2; 3]).
Proof.
  intros Hroot. unfold load_dataset. rewrite Hroot.
  pose proof (load_classes_images (supported_extensions self) (base_dir self) (absolute fs)
                base [0; 1; 2; 3] []) as Himgs.
  destruct (load_classes _ _ _ _ _ _) as [[e|] imgs]; exact Himgs.
Qed.

Lemma load_dataset_order_labels (self : manager) (fs : filesystem) (base : node) :
  root fs = Some base →
  Forall (λ it : item, it.2 ∈ [0; 1; 2; 3]) (images (load_dataset self fs).2)
  ∧ ∀ imgs, (load_dataset self fs).1 = inr imgs →
            total_count (load_dataset self fs).2
            = len (images (load_dataset self fs).2).
Proof.
  intros Hroot.
  pose proof (load_classes_images (supported_extensions self) (base_dir self) (absolute fs)
                base [0; 1; 2; 3] []) as Himgs.
  split.
  - assert (Hafter : images (load_dataset self fs).2
                     = concat (class_items (supported_extensions self)
                                 (absolute fs) base
                                 <$> ready_classes base [0; 1; 2; 3])).
    { unfold load_dataset. rewrite Hroot.
      destruct (load_classes _ _ _ _ _ _) as [[e|] imgs]; exact Himgs. }
    rewrite Hafter. pose proof (ready_classes_cases base) as Hcases.
    apply Forall_concat, Forall_fmap, Forall_forall. intros c Hc. cbn.
    eapply Forall_impl; [apply class_items_label|]. cbn. intros it ->.
    set_unfold in Hcases. destruct_or!; rewrite Hcases in Hc;
      apply list_elem_of_In in Hc; apply list_elem_of_In; cbn in *;
      intuition auto 7.
  - intros imgs Hok. unfold load_dataset in *. rewrite Hroot in *.
    by destruct (load_classes _ _ _ _ _ _) as [[e|] imgs'].
Qed.

(** X9.  After [load_dataset] on an existing root, the images held are
    those of the classes the loop got through, class after class in the
    order 0, 1, 2, 3: every label is one of the four classes and the labels
    never decrease along the list.  A load that returns sets [total_count]
    to the number of images; a load that raises keeps the images found
    before the class that failed and leaves [total_count] as it was. *)
Theorem load_dataset_order (self : manager) (fs : filesystem) (base : node) :
  root fs = Some base →
  let after := (load_dataset self fs).2 in
  images after
  = concat (class_items (supported_extensions self) (absolute fs) base
              <$> ready_classes base [0; 1; 2; 3])
  ∧ Forall (λ it : item, it.2 ∈ [0; 1; 2; 3]) (images after)
  ∧ StronglySorted Z.le (snd <$> images after)
  ∧ (∀ imgs, (load_dataset self fs).1 = inr imgs →
             imgs = images after ∧ total_count after = len imgs)
  ∧ (∀ e, (load_dataset self fs).1 = inl e →
          total_count after = total_count self
          ∧ ready_classes base [0; 1; 2; 3] ≠ [0; 1; 2; 3]).
Proof.
  intros Hroot after.
  pose proof (load_classes_images (supported_extensions self) (base_dir self) (absolute fs)
                base [0; 1; 2; 3] []) as Himgs.
  pose proof (load_classes_outcome (supported_extensions self) (base_dir self) (absolute fs)
                base [0; 1; 2; 3] []) as Hout.
  assert (Hafter : images after
                   = concat (class_items (supported_extensions self) (absolute fs)
                               base <$> ready_classes base [0; 1; 2; 3])).
  { subst after. unfold load_dataset. rewrite Hroot.
    destruct (load_classes _ _ _ _ _ _) as [[e|] imgs]; exact Himgs. }
  set (items := class_items (supported_extensions self) (absolute fs) base) in *.
  assert (Hlabel : ∀ c, Forall (λ it : item, it.2 = c) (items c))
    by (intros c; apply class_items_label).
  assert (Hlabels : ∀ c, Forall (λ x, x = c) (snd <$> items c)).
  { intros c. apply Forall_fmap. exact (Hlabel c). }
  split; [exact Hafter|]. split; [|split; [|split]].
  - rewrite Hafter.
    pose proof (ready_classes_cases base) as Hcases.
    apply Forall_concat, Forall_fmap, Forall_forall. intros c Hc. cbn.
    eapply Forall_impl; [apply Hlabel|]. cbn. intros it ->.
    set_unfold in Hcases. destruct_or!; rewrite Hcases in Hc;
      apply list_elem_of_In in Hc; apply list_elem_of_In; cbn in *;
      intuition auto 7.
  - rewrite Hafter. apply class_blocks_sorted.
  - intros imgs Hok. subst after. unfold load_dataset in *. rewrite Hroot in *.
    destruct (load_classes _ _ _ _ _ _) as [[e|] imgs']; [done|].
    cbn in *. by injection Hok as <-.
  - intros e Hraise. subst after. unfold load_dataset in *. rewrite Hroot in *.
    split.
    + by destruct (load_classes _ _ _ _ _ _) as [[e'|] imgs'].
    + intros Hall. apply Hout in Hall.
      by destruct (load_classes _ _ _ _ _ _) as [[e'|] imgs'].
Qed.

(** X10.  The class distribution has exactly the keys 0, 1, 2, 3; the count
    of a class is the number of images with that label, an image with
    another label is counted nowhere, and after a load that returned the
    four counts add up to [total_count]. *)
Theorem class_distribution_counts (self : manager) :
  let counts := get_class_distribution self in
  (∀ c, c ∈ [0; 1; 2; 3] → counts !! c = Some (count_label c (images self)))
  ∧ (∀ c, c ∉ [0; 1; 2; 3] → counts !! c = None)
  ∧ count_label 0 (images self) + count_label 1 (images self)
    + count_label 2 (images self) + count_label 3 (images self)
    ≤ len (images self)
  ∧ ∀ fs imgs,
      (load_dataset self fs).1 = inr imgs →
      let loaded := (load_dataset self fs).2 in
      count_label 0 (images loaded) + count_label 1 (images loaded)
      + count_label 2 (images loaded) + count_label 3 (images loaded)
      = total_count loaded.
Proof.
  intros counts. split; [|split; [|split]].
  - intros c Hc. by apply distribution_lookup.
  - intros c Hc. subst counts. unfold get_class_distribution.
    rewrite distribution_fold.
    rewrite !lookup_insert_ne, lookup_empty by set_solver. done.
  - unfold count_label, len.
    induction (images self) as [|it l IH]; [done|].
    rewrite !filter_cons. repeat case_decide; cbn [length]; lia.
  - intros fs imgs Hok loaded.
    destruct (root fs) as [base|] eqn:Hroot;
      [|by unfold load_dataset in Hok; rewrite Hroot in Hok].
    destruct (load_dataset_order_labels self fs base Hroot) as [Hlab Hcount].
    subst loaded. rewrite (Hcount imgs Hok).
    unfold count_label. apply (count_partition snd).
    eapply Forall_impl; [exact Hlab|]. cbn. intros it Hit.
    set_unfold in Hit. lia.
Qed.

End LoaderOrder.

Lemma load_dataset_order_witness :
  let self := TestDatasetManager.init "/data" None in
  let after := (TestDatasetManager.load_dataset self TestDatasetManager.blocked_at_two).2 in
  TestDatasetManager.images after
  = [("/data/MES 0/a.jpg", 0); ("/data/1/b.png", 1)]
  ∧ StronglySorted Z.le (snd <$> TestDatasetManager.images after)
  ∧ TestDatasetManager.total_count after = 0.
Proof.
  intros self after.
  destruct (load_dataset_order self TestDatasetManager.blocked_at_two _ eq_refl)
    as (Himgs & _ & Hsorted & _ & Hraise).
  split; [exact Himgs|]. split; [exact Hsorted|].
  exact (proj1 (Hraise _ eq_refl)).
Defined.

Lemma class_distribution_counts_witness :
  let self := TestDatasetManager.init "/data" None in
  let loaded := (TestDatasetManager.load_dataset self TestDatasetManager.two_classes).2 in
  TestDatasetManager.get_class_distribution loaded !! 2
  = Some (TestDatasetManager.count_label 2 (TestDatasetManager.images loaded))
  ∧ TestDatasetManager.get_class_distribution loaded !! 4 = None
  ∧ TestDatasetManager.count_label 0 (TestDatasetManager.images loaded)
    + TestDatasetManager.count_label 1 (TestDatasetManager.images loaded)
    + TestDatasetManager.count_label 2 (TestDatasetManager.images loaded)
    + TestDatasetManager.count_label 3 (TestDatasetManager.images loaded)
    = TestDatasetManager.total_count loaded.
Proof.
  intros self loaded.
  destruct (class_distribution_counts loaded) as (Hin & Hout & _ & _).
  destruct (class_distribution_counts self) as (_ & _ & _ & Hsum).
  split; [apply Hin; decide_now|]. split; [apply Hout; decide_now|].
  exact (Hsum TestDatasetManager.two_classes _ eq_refl).
Defined.

Section BatchCount.

Import TestDatasetManager.

Lemma validate_fold (path_exists : string → bool) (l : list item) (flag : bool) :
  foldl (λ all_valid (it : item), if path_exists it.1 then all_valid else false)
        flag l = true
  ↔ flag = true ∧ Forall (λ it : item, path_exists it.1 = true) l.
Proof.
  revert flag. induction l as [|it l IH]; intros flag; cbn [foldl].
  - split; [by intros -> | by intros [-> _]].
  - rewrite IH, Forall_cons. destruct (path_exists it.1); intuition congruence.
Qed.

(** X11.  [validate_dataset] answers [True] exactly when the path of every
    image held exists at the time of the call, however many are missing and
    wherever they stand in the list; with no image held it answers
    [True]. *)
Theorem validate_dataset_all (path_exists : string → bool) (self : manager) :
  (validate_dataset path_exists self = true
   ↔ ∀ it, it ∈ images self → path_exists it.1 = true)
  ∧ (images self = [] → validate_dataset path_exists self = true)
  ∧ (∀ it, it ∈ images self → path_exists it.1 = false →
           validate_dataset path_exists self = false).
Proof.
  unfold validate_dataset.
  assert (Hiff : foldl (λ all_valid (it : item),
                          if path_exists it.1 then all_valid else false)
                       true (images self) = true
                 ↔ ∀ it, it ∈ images self → path_exists it.1 = true).
  { rewrite validate_fold, Forall_forall. split; [by intros [_ ?] | by split]. }
  split; [exact Hiff|]. split.
  - intros ->. reflexivity.
  - intros it Hit Hmissing. apply not_true_is_false. intros Hvalid.
    pose proof (proj1 Hiff Hvalid it Hit). congruence.
Qed.

(** X12.  For a positive batch size [get_batches] returns as many batches
    as the size goes into the number of images, rounded up, and a size that
    reaches the number of images gives the images as one batch; a size of
    zero raises, and a negative size gives no batch at all, whatever the
    images. *)
Theorem get_batches_count (self : manager) (batch_size : Z) :
  (0 < batch_size →
   ∃ batches,
     get_batches self batch_size = inr batches
     ∧ len batches = (len (images self) + batch_size - 1) / batch_size
     ∧ (images self ≠ [] → len (images self) ≤ batch_size →
        batches = [images self]))
  ∧ (batch_size = 0 → ∃ e, get_batches self batch_size = inl e)
  ∧ (batch_size < 0 → get_batches self batch_size = inr []).
Proof.
  split; [|split].
  - intros Hb. unfold get_batches, range.
    destruct (Z.eqb_spec batch_size 0) as [|_]; [lia|].
    destruct (Z.ltb_spec 0 batch_size) as [_|]; [|lia].
    rewrite Z.sub_0_r.
    set (q := (len (images self) + batch_size - 1) / batch_size).
    assert (Hq0 : 0 ≤ q) by (apply Z.div_pos; unfold len; lia).
    eexists. split; [done|]. split.
    + unfold len at 1. rewrite !length_fmap, length_seq. lia.
    + intros Hne Hfit.
      assert (Hlen : 0 < len (images self))
        by (unfold len; destruct (images self); [done | cbn; lia]).
      assert (q = 1) as ->.
      { subst q. symmetry.
        apply Z.div_unique with (r := len (images self) - 1); lia. }
      change (Z.to_nat 1) with 1%nat. cbn [seq fmap list_fmap].
      change (0 + Z.of_nat 0 * batch_size) with 0.
      rewrite (slice_chunk _ 0) by lia. cbn [Z.to_nat drop].
      f_equal. apply take_ge. unfold len in Hfit. lia.
  - intros ->. unfold get_batches, range. cbn. eauto.
  - intros Hb. unfold get_batches, range.
    destruct (Z.eqb_spec batch_size 0) as [|_]; [lia|].
    destruct (Z.ltb_spec 0 batch_size) as [|_]; [lia|].
    replace (Z.to_nat _) with 0%nat; [done|].
    symmetry. apply Z2Nat.nonpos.
    enough ((0 - len (images self) - batch_size - 1) / (- batch_size) < 1) by lia.
    apply Z.div_lt_upper_bound; unfold len; lia.
Qed.

End BatchCount.

Lemma validate_dataset_all_witness :
  let self := (TestDatasetManager.load_dataset (TestDatasetManager.init "/data" None)
                 TestDatasetManager.two_classes).2 in
  TestDatasetManager.validate_dataset
    (λ path, negb (String.eqb path "/data/test_images/2/b.PNG")) self = false.
Proof.
  intros self.
  refine (proj2 (proj2 (validate_dataset_all _ self))
            ("/data/test_images/2/b.PNG", 2) _ eq_refl).
  decide_now.
Defined.

Lemma get_batches_count_witness :
  let self := (TestDatasetManager.load_dataset (TestDatasetManager.init "/data" None)
                 TestDatasetManager.two_classes).2 in
  ∃ batches,
    TestDatasetManager.get_batches self 100 = inr batches
    ∧ batches = [TestDatasetManager.images self].
Proof.
  intros self.
  destruct (proj1 (get_batches_count self 100) eq_refl)
    as (batches & Hb & _ & Hone).
  exists batches. split; [exact Hb|]. apply Hone; [discriminate|].
  vm_compute. discriminate.
Defined.

(** * Invariants of the run loop *)

Section RunInvariants.

Import ResultsAnalyzer RunTests.

Context {world : Type} {E : Environment world}.

#[local] Existing Instances M_ret M_bind.

Variable args : arguments.

Lemma try_body_eq (n idx : Z) (it : string * Z) (st : state world) :
  try_body args n idx it st
  = (r ← call (Tested it.1) (test_single_image it.1);
     record_trial args idx it r;; after_record args n idx) st.
Proof.
  destruct it as [path label]. unfold try_body, mbind, M_bind.
  unfold bind at 1. symmetry. unfold bind at 1. cbn [fst].
  by destruct (call (Tested path) (test_single_image path) st)
    as [[e|[[predicted t] ok]] st1].
Qed.

Lemma stable_bind (I : state world → Prop) {A B} (m : @M world A)
    (k : A → @M world B) :
  stable I m → (∀ a, stable I (k a)) → stable I (m ≫= k).
Proof.
  intros Hm Hk st Hst. unfold mbind, M_bind, bind.
  specialize (Hm st Hst). destruct (m st) as [[e|a] st']; [exact Hm|].
  by apply Hk.
Qed.

Lemma stable_call_side (J : state world → Prop) {A} (ev : event)
    (op : world → (exn + A) * world) :
  respects J → side_event ev → stable J (call ev op).
Proof.
  intros HJ Hev st Hst. unfold call. destruct (op (env st)) as [r w].
  by apply (respects_side J HJ).
Qed.

Lemma stable_save (J : state world → Prop) (filename : string) :
  respects J → stable J (save_detailed_results filename).
Proof.
  intros HJ st Hst. unfold save_detailed_results, call.
  destruct (lift_unit _) as [r w]. by apply (respects_flush J HJ).
Qed.

Lemma stable_after_record (J : state world → Prop) (n idx : Z) :
  respects J → stable J (after_record args n idx).
Proof.
  intros HJ. unfold after_record.
  apply stable_bind; [intros st Hst; by apply (respects_count J HJ)|]. intros _.
  apply stable_bind; [case_match; [by apply stable_call_side | by intros st Hst]|].
  intros _. apply stable_bind; [by intros st Hst|]. intros processed.
  apply stable_bind; [by intros st Hst|]. intros remainder.
  case_match; [by apply stable_save | by intros st Hst].
Qed.

Lemma stable_record_trial (J : state world → Prop) (idx : Z) (it : string * Z)
    (r : option Z * Q * bool) :
  respects J → stable J (record_trial args idx it r).
Proof.
  intros HJ. destruct r as [[predicted t] ok]. unfold record_trial.
  destruct ok.
  - intros st Hst. by apply (respects_success J HJ).
  - intros st Hst. unfold mbind, M_bind. unfold bind at 1. unfold incr_failed.
    unfold bind at 1. unfold do_add_result.
    apply (stable_call_side J); [done | done |].
    by apply (respects_failure J HJ st).
Qed.

(** One iteration carries [I] over to [J] when the logging of the trial
    does and [J] survives the elementary changes. *)
Lemma process_item_carries (I J : state world → Prop) (n idx : Z)
    (it : string * Z) :
  respects J →
  (∀ st w, I st →
     J {| analyzer := analyzer st; failed_count := failed_count st;
          processed_count := processed_count st;
          env := w; log := log st ++ [Tested it.1] |}) →
  ∀ st, I st → J (process_item args n idx it st).2.
Proof.
  intros HJ Htrial st Hst.
  assert (Hbody : J (try_body args n idx it st).2).
  { rewrite try_body_eq. unfold mbind, M_bind. unfold bind at 1.
    unfold call at 1.
    destruct (test_single_image it.1 (env st)) as [[e|r] w];
      [by apply Htrial|].
    apply (stable_bind J); [by apply stable_record_trial| |by apply Htrial].
    intros _. by apply stable_after_record. }
  unfold process_item.
  destruct (try_body args n idx it st) as [[[|msg]|[]] st1]; cbn [snd] in *;
    try done.
  by apply (respects_failure J HJ st1).
Qed.

Lemma respects_balanced : respects (balanced (world:=world)).
Proof.
  split; unfold balanced; cbn [analyzer failed_count]; try done.
  - intros st p l predicted t ->. unfold add_result.
    rewrite filter_app, filter_cons, filter_nil. cbn [success].
    case_decide; [done|]. by rewrite app_nil_r.
  - intros st p l t msg ->. unfold add_result, len.
    rewrite filter_app, filter_cons, filter_nil. cbn [success].
    case_decide; [|done]. rewrite length_app. cbn. lia.
Qed.

Lemma respects_flushed : respects (flushed (world:=world)).
Proof.
  assert (Hgrow : ∀ (evs : list event) (rows more : list result),
            Forall (λ ev, match ev with
                          | SavedDetailed _ saved => saved `prefix_of` rows
                          | _ => True
                          end) evs →
            Forall (λ ev, match ev with
                          | SavedDetailed _ saved => saved `prefix_of` (rows ++ more)
                          | _ => True
                          end) evs).
  { intros evs rows more Hevs. eapply Forall_impl; [exact Hevs|].
    intros [] H; try done. by apply prefix_app_r. }
  split; unfold flushed; cbn [analyzer log]; try done.
  - intros st w ev Hev Hst. apply Forall_app. split; [done|].
    apply Forall_singleton. by destruct ev.
  - intros st w filename Hst. apply Forall_app. split; [done|].
    by apply Forall_singleton.
  - intros st p l predicted t Hst. by apply Hgrow.
  - intros st p l t msg Hst. by apply Hgrow.
Qed.

Lemma respects_tests (paths : list string) :
  respects (λ st : state world, tests (log st) = paths).
Proof.
  split; cbn [log]; try done.
  - intros st w ev Hev <-. unfold tests. rewrite omap_app. cbn.
    destruct ev; try done; by rewrite app_nil_r.
  - intros st w filename <-. unfold tests. rewrite omap_app. cbn.
    by rewrite app_nil_r.
Qed.

Lemma stable_generate_reports (J : state world → Prop) :
  respects J → stable J generate_reports.
Proof.
  intros HJ. unfold generate_reports.
  apply stable_bind; [by apply stable_save|]. intros _.
  apply stable_bind; [by apply stable_call_side|]. intros _.
  apply stable_bind; [|intros _; by apply stable_call_side].
  intros st Hst. unfold generate_confusion_matrix.
  destruct (successful_results (analyzer st)); [done|].
  by apply (stable_call_side J).
Qed.

(** A property that survives the elementary changes and the logging of a
    trial survives the loop. *)
Lemma run_from_stable (J : state world → Prop) (n idx : Z)
    (images : list (string * Z)) (st : state world) :
  respects J →
  (∀ st w p, J st →
     J {| analyzer := analyzer st; failed_count := failed_count st;
          processed_count := processed_count st;
          env := w; log := log st ++ [Tested p] |}) →
  J st → J (run_from args n idx images st).
Proof.
  intros HJ Htrial. revert idx st.
  induction images as [|it images IH]; intros idx st Hst; [done|].
  cbn [run_from].
  pose proof (process_item_carries J J n idx it HJ
                (λ st w, Htrial st w it.1) st Hst) as Hnext.
  destruct (process_item args n idx it st) as [[|] st']; [done|].
  by apply IH.
Qed.

Lemma generate_reports_counts (st : state world) :
  analyzer (generate_reports st).2 = analyzer st
  ∧ failed_count (generate_reports st).2 = failed_count st
  ∧ processed_count (generate_reports st).2 = processed_count st
  ∧ SavedDetailed DETAILED_RESULTS_FILE (analyzer st)
    ∈ log (generate_reports st).2.
Proof.
  unfold generate_reports, mbind, M_bind, bind, save_detailed_results,
    write_artifact, generate_confusion_matrix, call, lift_unit.
  repeat (case_match; simplify_eq/=); repeat split; try done; set_solver.
Qed.

Lemma run_loop_balanced (images : list (string * Z)) (w : world) :
  balanced (run_loop args images w).
Proof.
  unfold run_loop.
  apply run_from_stable; [apply respects_balanced| |done].
  by intros st w' p Hst.
Qed.

(** X13.  The failure counter never falls behind the results: at the end
    of the loop it is at least the number of recorded outcomes that are
    not successful, whatever raised on the way.  Unless the run is
    interrupted the two are equal, and the reports leave them so. *)
Theorem failures_are_counted (images : list (string * Z)) (w : world) :
  len (filter (λ r, success r = false) (analyzer (run_loop args images w)))
  ≤ failed_count (run_loop args images w)
  ∧ (uninterrupted →
     failed_count (run_loop args images w)
     = len (filter (λ r, success r = false)
                   (analyzer (run_loop args images w)))
     ∧ failed_count (run_and_report args images w)
       = len (filter (λ r, success r = false)
                     (analyzer (run_and_report args images w)))).
Proof.
  pose proof (run_loop_balanced images w) as Hloop.
  split; [unfold balanced in Hloop; lia|]. intros _. split; [exact Hloop|].
  apply (stable_generate_reports _ respects_balanced), run_loop_balanced.
Qed.

(** X14.  Results are only ever appended: in any environment, the rows of
    every flush of detailed results in the log, intermediate or final, are
    a prefix of the results the run ends with; the reports change no
    result and begin with a flush of all of them, even when that write or
    a later one raises. *)
Theorem flushes_are_prefixes (images : list (string * Z)) (w : world) :
  let final := run_and_report args images w in
  (∀ filename rows,
     SavedDetailed filename rows ∈ log final → rows `prefix_of` analyzer final)
  ∧ analyzer final = analyzer (run_loop args images w)
  ∧ SavedDetailed DETAILED_RESULTS_FILE (analyzer final) ∈ log final.
Proof.
  intros final.
  assert (Hloop : flushed (run_loop args images w)).
  { unfold run_loop.
    apply run_from_stable; [apply respects_flushed| |by constructor].
    intros st w' p Hst. apply Forall_app. split; [done|].
    by apply Forall_singleton. }
  assert (Hfinal : flushed final)
    by apply (stable_generate_reports _ respects_flushed), Hloop.
  destruct (generate_reports_counts (run_loop args images w))
    as (Hrows & _ & _ & Hflush).
  fold (run_and_report args images w) in Hrows, Hflush. fold final in Hrows, Hflush.
  split; [|split; [done | by rewrite Hrows]].
  intros filename rows Hin. unfold flushed in Hfinal.
  rewrite Forall_forall in Hfinal. exact (Hfinal _ Hin).
Qed.

Lemma process_item_tests (n idx : Z) (it : string * Z) (st : state world) :
  tests (log (process_item args n idx it st).2) = tests (log st) ++ [it.1].
Proof.
  apply (process_item_carries (λ s, tests (log s) = tests (log st))
           (λ s, tests (log s) = tests (log st) ++ [it.1]));
    [apply respects_tests| |done].
  intros st0 w Hst0. cbn [log]. unfold tests in *. by rewrite omap_app, Hst0.
Qed.

Lemma run_from_tests (n idx : Z) (images : list (string * Z))
    (st : state world) :
  ∃ k, tests (log (run_from args n idx images st))
       = tests (log st) ++ take k images.*1
       ∧ (uninterrupted → k = length images).
Proof.
  revert idx st. induction images as [|it images IH]; intros idx st.
  - exists 0%nat. cbn. by rewrite app_nil_r.
  - cbn [run_from].
    pose proof (process_item_tests n idx it st) as Htests.
    pose proof (process_item_continues args n idx it st) as Hgo.
    destruct (process_item args n idx it st) as [[|] st']; cbn [fst snd] in *.
    + exists 1%nat. split; [by rewrite Htests|].
      intros Hun. by specialize (Hgo Hun).
    + destruct (IH (idx + 1) st') as (k & Hk & Hall). exists (S k).
      split; [|by intros Hun; rewrite (Hall Hun)].
      rewrite Hk, Htests. cbn [fmap list_fmap take]. by rewrite <- app_assoc.
Qed.

(** X15.  In any environment the trials of a run are made on a prefix of
    the list of images, in the order of the list and once each: no image is
    tried again after a failure and none is skipped.  Unless somebody
    interrupts the run, every image is tried; the reports try none. *)
Theorem trials_follow_images (images : list (string * Z)) (w : world) :
  tests (log (run_loop args images w)) `prefix_of` images.*1
  ∧ (uninterrupted → tests (log (run_loop args images w)) = images.*1)
  ∧ tests (log (run_and_report args images w))
    = tests (log (run_loop args images w)).
Proof.
  destruct (run_from_tests (len images) 0 images (initial w))
    as (k & Hk & Hall).
  fold (run_loop args images w) in Hk. cbn [initial log tests omap app] in Hk.
  split; [|split].
  - rewrite Hk. apply prefix_take.
  - intros Hun. rewrite Hk, (Hall Hun).
    apply take_ge. by rewrite length_fmap.
  - apply (stable_generate_reports
             (λ s, tests (log s) = tests (log (run_loop args images w)))
             (respects_tests _)). done.
Qed.

Lemma after_record_counts (n idx : Z) (st : state world) :
  analyzer (after_record args n idx st).2 = analyzer st
  ∧ failed_count (after_record args n idx st).2 = failed_count st
  ∧ processed_count (after_record args n idx st).2 = processed_count st + 1.
Proof.
  unfold after_record, mbind, M_bind, bind, incr_processed, get_processed,
    raise_or, save_detailed_results, call, lift_unit, mret, M_ret, ret.
  repeat (case_match; simplify_eq/=); done.
Qed.

Lemma record_trial_counts (idx : Z) (it : string * Z)
    (r : option Z * Q * bool) (st : state world) :
  analyzer (record_trial args idx it r st).2 = analyzer st ++ [outcome_row it r]
  ∧ failed_count (record_trial args idx it r st).2
    = failed_count st + (if r.2 then 0 else 1)
  ∧ processed_count (record_trial args idx it r st).2 = processed_count st.
Proof.
  destruct r as [[predicted t] [|]];
    unfold record_trial, mbind, M_bind, bind, incr_failed, do_add_result,
      call, lift_unit, add_result, outcome_row; cbn [fst snd].
  - cbn. split; [done | split; [lia | done]].
  - repeat (case_match; simplify_eq/=); done.
Qed.

(** What one iteration does to the three counts: the number of results,
    the failures and the processed items. *)
Lemma process_item_counts (n idx : Z) (it : string * Z) (st : state world) :
  let st' := (process_item args n idx it st).2 in
  let dr := len (analyzer st') - len (analyzer st) in
  let df := failed_count st' - failed_count st in
  let dp := processed_count st' - processed_count st in
  0 ≤ dp ≤ 1 ∧ dp ≤ dr ≤ 2 ∧ 0 ≤ df ≤ dr ∧ dr - df ≤ dp.
Proof.
  intros st'. assert (Hst' : (process_item args n idx it st).2 = st') by done.
  clearbody st'. cbv zeta. revert Hst'.
  unfold process_item. rewrite try_body_eq.
  unfold mbind, M_bind. unfold bind at 1. unfold call at 1.
  destruct (test_single_image it.1 (env st)) as [[e|r] w].
  { destruct e; intros <-; cbn [snd analyzer failed_count processed_count];
      unfold add_result, len; rewrite ?length_app; cbn [length]; lia. }
  set (st1 := {| analyzer := analyzer st; failed_count := failed_count st;
                 processed_count := processed_count st;
                 env := w; log := log st ++ [Tested it.1] |}).
  unfold bind at 1.
  destruct (record_trial_counts idx it r st1) as (Hr1 & Hf1 & Hp1).
  assert (Hdf : 0 ≤ (if r.2 then 0 else 1) ≤ 1) by (destruct r.2; lia).
  assert (Hfail : (record_trial args idx it r st1).1 ≠ inr tt → r.2 = false).
  { destruct r as [[predicted t] [|]]; [|done].
    unfold record_trial, do_add_result. cbn. done. }
  destruct (record_trial args idx it r st1) as [[e|[]] st2];
    cbn [snd fst] in Hr1, Hf1, Hp1, Hfail.
  - rewrite Hfail in Hf1 by done.
    destruct e; intros <-; cbn [snd analyzer failed_count processed_count];
      unfold add_result, len; rewrite ?length_app, ?Hr1, ?length_app, Hf1, Hp1;
      cbn [length st1 analyzer failed_count processed_count]; lia.
  - destruct (after_record_counts n idx st2) as (Hr2 & Hf2 & Hp2).
    destruct (after_record args n idx st2) as [[e|[]] st3];
      cbn [snd fst] in Hr2, Hf2, Hp2; [destruct e|]; intros <-;
      cbn [snd analyzer failed_count processed_count];
      unfold add_result, len;
      rewrite ?length_app, Hr2, Hf2, Hp2, Hr1, Hf1, Hp1, ?length_app;
      cbn [length st1 analyzer failed_count processed_count]; lia.
Qed.

Lemma run_from_counts (n idx : Z) (images : list (string * Z))
    (st : state world) :
  let final := run_from args n idx images st in
  let dr := len (analyzer final) - len (analyzer st) in
  let df := failed_count final - failed_count st in
  let dp := processed_count final - processed_count st in
  0 ≤ dp ≤ len images ∧ dp ≤ dr ≤ 2 * len images ∧ 0 ≤ df ≤ dr ∧ dr - df ≤ dp.
Proof.
  cbv zeta. revert idx st.
  induction images as [|it images IH]; intros idx st.
  - cbn [run_from]. unfold len. cbn [length]. lia.
  - cbn [run_from]. pose proof (process_item_counts n idx it st) as Hit.
    cbv zeta in Hit.
    destruct (process_item args n idx it st) as [[|] st']; cbn [snd] in Hit.
    + unfold len in *. cbn [length]. lia.
    + specialize (IH (idx + 1) st'). unfold len in *. cbn [length]. lia.
Qed.

Lemma passed_or_failed (rs : list result) :
  passed rs + len (filter (λ r, success r = false) rs) = len rs.
Proof.
  unfold passed, len. induction rs as [|r rs IH]; [done|].
  rewrite !filter_cons. destruct (success r);
    repeat case_decide; try done; cbn [length]; lia.
Qed.

(** X16.  In any environment, at the end of the loop: at most one item is
    counted as processed per image and at most two outcomes are recorded
    per image; every item counted as processed has an outcome; and the
    difference [processed_count - failed_count], which the final summary
    prints as the successes, never exceeds the number of outcomes recorded
    as successful. *)
Theorem run_counters (images : list (string * Z)) (w : world) :
  let final := run_loop args images w in
  0 ≤ processed_count final ≤ len images
  ∧ processed_count final ≤ len (analyzer final) ≤ 2 * len images
  ∧ processed_count final - failed_count final ≤ passed (analyzer final).
Proof.
  intros final.
  pose proof (run_from_counts (len images) 0 images (initial w)) as Hcounts.
  cbv zeta in Hcounts. fold (run_loop args images w) in Hcounts.
  fold final in Hcounts.
  change (len (analyzer (initial w))) with 0 in Hcounts.
  cbn [initial failed_count processed_count] in Hcounts.
  pose proof (run_loop_balanced images w) as Hbal. unfold balanced in Hbal.
  fold final in Hbal.
  pose proof (passed_or_failed (analyzer final)) as Hsplit.
  lia.
Qed.

Lemma run_from_calm_processed (n idx : Z) (images : list (string * Z))
    (st : state world) :
  calm → batch_size args ≠ 0 →
  processed_count (run_from args n idx images st)
  = processed_count st + len images.
Proof.
  intros Hcalm Hb. revert idx st.
  induction images as [|it images IH]; intros idx st.
  - cbn [run_from]. unfold len. cbn [length]. lia.
  - cbn [run_from].
    destruct (process_item_calm args n idx it st Hcalm Hb)
      as (r & w' & failed & evs & _ & _ & _ & ->).
    rewrite IH. cbn [processed_count]. unfold len. cbn [length]. lia.
Qed.

Lemma run_from_raising_processed (n idx : Z) (images : list (string * Z))
    (st : state world) :
  (∀ p w, ∃ e, (test_single_image p w).1 = inl e) →
  processed_count (run_from args n idx images st) = processed_count st.
Proof.
  intros Hraise. revert idx st.
  induction images as [|it images IH]; intros idx st; [done|].
  cbn [run_from]. unfold process_item. rewrite try_body_eq.
  unfold mbind, M_bind. unfold bind at 1. unfold call at 1.
  destruct (Hraise it.1 (env st)) as [e He].
  destruct (test_single_image it.1 (env st)) as [x w]. cbn in He. subst x.
  destruct e; [done|]. by rewrite IH.
Qed.

(** X17.  The success rate of the final summary divides by
    [processed_count]: it raises [ZeroDivisionError], after the reports
    were written, when the list of images is empty and when every trial
    raises, whatever the number of images.  When nothing raises, the batch
    size is not zero and there is an image, it is the share of the
    outcomes recorded as successful among the images, times 100. *)
Theorem success_rate_of_run (images : list (string * Z)) (w : world) :
  let final := run_and_report args images w in
  (images = [] → success_rate final = inl (Exception "division by zero"))
  ∧ ((∀ p w, ∃ e, (test_single_image p w).1 = inl e) →
     success_rate final = inl (Exception "division by zero"))
  ∧ (calm → batch_size args ≠ 0 → images ≠ [] →
     success_rate final
     = inr (truediv (inject_Z (passed (analyzer final)))
                    (inject_Z (len images)) * inject_Z 100)%Q).
Proof.
  intros final.
  destruct (generate_reports_counts (run_loop args images w))
    as (Hrows & Hfailed & Hprocessed & _).
  fold (run_and_report args images w) in Hrows, Hfailed, Hprocessed.
  fold final in Hrows, Hfailed, Hprocessed.
  unfold success_rate. rewrite Hprocessed, Hfailed.
  split; [|split].
  - by intros ->.
  - intros Hraise. unfold run_loop.
    by rewrite (run_from_raising_processed _ _ _ _ Hraise).
  - intros Hcalm Hb Hne.
    pose proof (run_from_calm_processed (len images) 0 images (initial w)
                  Hcalm Hb) as Hp.
    fold (run_loop args images w) in Hp. cbn [initial processed_count] in Hp.
    destruct (run_from_timeline args (len images) 0 images (initial w) Hcalm Hb)
      as [_ Hlen]; [done | done |].
    fold (run_loop args images w) in Hlen. cbn [initial processed_count] in Hlen.
    pose proof (run_loop_balanced images w) as Hbal. unfold balanced in Hbal.
    pose proof (passed_or_failed (analyzer (run_loop args images w))) as Hsplit.
    rewrite Hp. rewrite Z.add_0_l.
    destruct (Z.eqb_spec (len images) 0) as [Hzero|_].
    { destruct images; [done|]. unfold len in Hzero. cbn in Hzero. lia. }
    rewrite Hrows. do 3 f_equal. f_equal. lia.
Qed.

End RunInvariants.

Lemma steady_uninterrupted r : @RunTests.uninterrupted unit (RunTests.steady r).
Proof. by repeat split. Qed.

Lemma shipped_uninterrupted :
  @RunTests.uninterrupted unit
     (RunTests.shipped (λ w, (None, w)) (λ _ w, (None, w))).
Proof. by repeat split. Qed.

Lemma failures_are_counted_witness :
  let final := @RunTests.run_and_report unit
                 (RunTests.shipped (λ w, (None, w)) (λ _ w, (None, w)))
                 RunTests.pairs_args RunTests.five_images tt in
  RunTests.failed_count final
  = len (filter (λ r, ResultsAnalyzer.success r = false)
                (RunTests.analyzer final)).
Proof.
  exact (proj2 (proj2 (@failures_are_counted unit
                         (RunTests.shipped (λ w, (None, w)) (λ _ w, (None, w)))
                         RunTests.pairs_args RunTests.five_images tt)
                  shipped_uninterrupted)).
Defined.

Lemma flushes_are_prefixes_witness :
  let final := @RunTests.run_and_report unit
                 (RunTests.steady (Some 2, (3 # 2)%Q, true))
                 RunTests.pairs_args RunTests.five_images tt in
  take 2 (RunTests.analyzer final) `prefix_of` RunTests.analyzer final.
Proof.
  intros final.
  refine (proj1 (@flushes_are_prefixes unit
                   (RunTests.steady (Some 2, (3 # 2)%Q, true))
                   RunTests.pairs_args RunTests.five_images tt)
            "results_intermediate_2.csv" _ _).
  vm_compute. do 4 apply list_elem_of_further. apply list_elem_of_here.
Defined.

Lemma trials_follow_images_witness :
  RunTests.tests
    (RunTests.log (@RunTests.run_loop unit
                     (RunTests.steady (None, (1 # 2)%Q, false))
                     RunTests.pairs_args RunTests.five_images tt))
  = ["/data/MES 0/a.jpg"; "/data/MES 0/b.jpg"; "/data/MES 1/c.jpg";
     "/data/MES 2/d.jpg"; "/data/MES 3/e.jpg"].
Proof.
  exact (proj1 (proj2 (@trials_follow_images unit
                         (RunTests.steady (None, (1 # 2)%Q, false))
                         RunTests.pairs_args RunTests.five_images tt))
           (steady_uninterrupted _)).
Defined.

Lemma success_rate_of_run_witness :
  RunTests.success_rate
    (@RunTests.run_and_report unit (RunTests.steady (Some 2, (3 # 2)%Q, true))
       RunTests.pairs_args [] tt)
  = inl (Py.Exception "division by zero")
  ∧ RunTests.success_rate
      (@RunTests.run_and_report unit
         (RunTests.raising (Py.Exception "no such window"))
         RunTests.pairs_args RunTests.five_images tt)
    = inl (Py.Exception "division by zero")
  ∧ RunTests.success_rate
      (@RunTests.run_and_report unit
         (RunTests.steady (Some 2, (3 # 2)%Q, true))
         RunTests.pairs_args RunTests.five_images tt)
    = inr (Py.truediv (inject_Z 5) (inject_Z 5) * inject_Z 100)%Q.
Proof.
  split; [|split].
  - exact (proj1 (@success_rate_of_run unit
                    (RunTests.steady (Some 2, (3 # 2)%Q, true))
                    RunTests.pairs_args [] tt) eq_refl).
  - refine (proj1 (proj2 (@success_rate_of_run unit
                            (RunTests.raising (Py.Exception "no such window"))
                            RunTests.pairs_args RunTests.five_images tt)) _).
    intros p w. by exists (Py.Exception "no such window").
  - refine (proj2 (proj2 (@success_rate_of_run unit
                            (RunTests.steady (Some 2, (3 # 2)%Q, true))
                            RunTests.pairs_args RunTests.five_images tt))
              (steady_calm _) _ _); [done | done].
Defined.

(** * The limits on the list of images *)

Section Limits.

Import ResultsAnalyzer RunTests.

Context {world : Type} {E : Environment world}.

Lemma slice_to_end {A} (l : list A) (i : Z) :
  0 ≤ i → slice l i (len l) = drop (Z.to_nat i) l.
Proof.
  intros Hi. unfold slice, clamp_index, len.
  destruct (Z.ltb_spec i 0) as [|_]; [lia|].
  destruct (Z.ltb_spec (Z.of_nat (length l)) 0) as [|_]; [lia|].
  rewrite Z.min_id, Nat2Z.id.
  destruct (Z.le_gt_cases (Z.of_nat (length l)) i) as [Hout|Hin].
  - rewrite Z.min_r by lia. rewrite Nat2Z.id, !drop_ge by lia. by rewrite take_nil.
  - rewrite Z.min_l by lia. apply take_ge. rewrite length_drop. lia.
Qed.

Lemma slice_from_start {A} (l : list A) (m : Z) :
  slice l 0 m
  = if 0 <=? m then take (Z.to_nat m) l
    else take (length l - Z.to_nat (- m)) l.
Proof.
  unfold slice, clamp_index, len. cbn [Z.ltb Z.compare].
  rewrite (Z.min_l 0) by lia. change (Z.to_nat 0) with 0%nat.
  rewrite drop_0, Nat.sub_0_r.
  destruct (Z.ltb_spec m 0) as [Hneg|Hpos];
    destruct (Z.leb_spec 0 m) as [Hm|Hm]; try lia.
  - f_equal. lia.
  - destruct (Z.le_gt_cases (Z.of_nat (length l)) m).
    + rewrite Z.min_r by lia. rewrite Nat2Z.id. by rewrite !take_ge by lia.
    + by rewrite Z.min_l by lia.
Qed.

Lemma limit_start {A} (images : list A) (start_index : Z) :
  (if 0 <? start_index
   then slice images start_index (len images)
   else images) = drop (Z.to_nat start_index) images.
Proof.
  destruct (Z.ltb_spec 0 start_index) as [Hpos|Hneg].
  - apply slice_to_end. lia.
  - by rewrite Z2Nat.nonpos by lia.
Qed.

Lemma limit_positive {A} (images : list A) (start_index m : Z) :
  0 < m →
  apply_limits start_index (Some m) images
  = take (Z.to_nat m) (drop (Z.to_nat start_index) images).
Proof.
  intros Hm. unfold apply_limits. rewrite limit_start.
  destruct (Z.eqb_spec m 0) as [|_]; [lia|]. rewrite slice_from_start.
  by destruct (Z.leb_spec 0 m); [|lia].
Qed.

Lemma limit_negative {A} (images : list A) (start_index m : Z) :
  m < 0 →
  apply_limits start_index (Some m) images
  = take (length (drop (Z.to_nat start_index) images) - Z.to_nat (- m))
         (drop (Z.to_nat start_index) images).
Proof.
  intros Hm. unfold apply_limits. rewrite limit_start.
  destruct (Z.eqb_spec m 0) as [|_]; [lia|]. rewrite slice_from_start.
  by destruct (Z.leb_spec 0 m); [lia|].
Qed.

(** X18.  The limits keep a window of the list: a start index that is not
    positive keeps the whole list (a negative one does not count from the
    end), a maximum of [None] or [0] is no limit, a positive maximum [m]
    keeps the first [m] images from the start index on, and a negative one
    drops the last [-m] of them instead. *)
Theorem apply_limits_window {A} (images : list A) (start_index m : Z) :
  let rest := drop (Z.to_nat start_index) images in
  apply_limits start_index None images = rest
  ∧ apply_limits start_index (Some 0) images = rest
  ∧ (start_index ≤ 0 → rest = images)
  ∧ (0 < m → apply_limits start_index (Some m) images = take (Z.to_nat m) rest)
  ∧ (m < 0 → apply_limits start_index (Some m) images
             = take (length rest - Z.to_nat (- m)) rest).
Proof.
  intros rest. subst rest. split; [|split; [|split; [|split]]].
  - unfold apply_limits. apply limit_start.
  - unfold apply_limits. cbn [Z.eqb]. apply limit_start.
  - intros Hneg. by rewrite Z2Nat.nonpos by lia.
  - apply limit_positive.
  - apply limit_negative.
Qed.


End Limits.

Lemma apply_limits_window_witness :
  RunTests.apply_limits 1 (Some 2) RunTests.five_images
  = [("/data/MES 0/b.jpg", 0); ("/data/MES 1/c.jpg", 1)]
  ∧ RunTests.apply_limits (-1) (Some (-2)) RunTests.five_images
    = [("/data/MES 0/a.jpg", 0); ("/data/MES 0/b.jpg", 0);
       ("/data/MES 1/c.jpg", 1)].
Proof.
  split.
  - exact (proj1 (proj2 (proj2 (proj2
             (apply_limits_window RunTests.five_images 1 2)))) eq_refl).
  - exact (proj2 (proj2 (proj2 (proj2
             (apply_limits_window RunTests.five_images (-1) (-2))))) eq_refl).
Defined.


(** * The wait for the classification *)

Section PollingFacts.

Import Polling.

Context {world : Type} {D : Driver world}.

Lemma poll_swallows (w : world) (msg : string) :
  (poll w).1 ≠ inl (Exception msg).
Proof.
  unfold poll, swallowed.
  repeat (case_match; simplify_eq/=); done.
Qed.

Lemma poll_later (clock : world → Q) (w : world) :
  keeps_time clock → (clock w <= clock (poll w).2)%Q.
Proof.
  intros Hk. unfold poll, swallowed.
  pose proof (find_later clock Hk RESULT_CARD w) as H1.
  destruct (find_elements RESULT_CARD w) as [[[|]|[]] w1]; cbn [snd] in *;
    try done.
  pose proof (find_later clock Hk ANALYSIS_HEADER w1) as H2.
  destruct (find_elements ANALYSIS_HEADER w1) as [[[|]|[]] w2]; cbn [snd] in *;
    try lra.
  pose proof (find_later clock Hk SIDEBAR_PREDICTION w2) as H3.
  destruct (find_elements SIDEBAR_PREDICTION w2) as [[[|]|found] w3];
    cbn [snd] in *; lra.
Qed.

Lemma wait_loop_more (fuel extra : nat) (start_time : Q) (timeout : Z)
    (w : world) (r : (exn + bool) * world) :
  wait_loop fuel start_time timeout w = Some r →
  wait_loop (fuel + extra) start_time timeout w = Some r.
Proof.
  revert w. induction fuel as [|fuel IH]; intros w; [done|].
  cbn [wait_loop Nat.add]. destruct (now w) as [t w1].
  destruct (Qle_bool _ _); [done|].
  destruct (poll w1) as [[e|[|]] w2]; try done.
  destruct (sleep w2) as [[e|] w3]; [done|]. apply IH.
Qed.

Lemma wait_loop_returns (clock : world → Q) (fuel : nat) (start_time : Q)
    (timeout : Z) (w : world) :
  keeps_time clock →
  (start_time + inject_Z timeout - clock w <= inject_Z (Z.of_nat fuel))%Q →
  is_Some (wait_loop (S fuel) start_time timeout w).
Proof.
  intros Hk. revert w. induction fuel as [|fuel IH]; intros w Hrem.
  - cbn [wait_loop]. pose proof (now_reads clock Hk w) as Hnow.
    destruct (now w) as [t w1]. cbn [fst] in Hnow. subst t.
    destruct (Qle_bool _ _) eqn:Hle; [done|]. exfalso.
    assert (Hnot : ¬ (inject_Z timeout <= clock w - start_time)%Q)
      by (rewrite <- Qle_bool_iff; congruence).
    apply Hnot. change (inject_Z (Z.of_nat 0)) with 0%Q in Hrem. lra.
  - remember (S fuel) as k eqn:Hk'. cbn [wait_loop].
    pose proof (now_reads clock Hk w) as Hnow.
    pose proof (now_later clock Hk w) as Hnow'.
    destruct (now w) as [t w1]. cbn [fst snd] in Hnow, Hnow'. subst t.
    destruct (Qle_bool _ _); [done|].
    pose proof (poll_later clock w1 Hk) as Hpoll.
    destruct (poll w1) as [[e|[|]] w2]; try done. cbn [snd] in Hpoll.
    pose proof (sleep_later clock Hk w2) as Hsleep.
    destruct (sleep w2) as [[e|] w3]; [done|]. cbn [fst snd] in Hsleep.
    specialize (Hsleep eq_refl). subst k. apply IH.
    rewrite Nat2Z.inj_succ in Hrem. unfold Z.succ in Hrem.
    rewrite inject_Z_plus in Hrem. change (inject_Z 1) with 1%Q in Hrem. lra.
Qed.

Lemma wait_loop_verdict (fuel : nat) (start_time : Q) (timeout : Z)
    (w w' : world) (r : exn + bool) :
  wait_loop fuel start_time timeout w = Some (r, w') →
  (∀ msg, r = inl (Exception msg) → ∃ w2, (sleep w2).1 = Some (Exception msg))
  ∧ ∀ clock, keeps_time clock → r = inr false →
             (inject_Z timeout <= clock w' - start_time)%Q.
Proof.
  revert w. induction fuel as [|fuel IH]; intros w; [done|].
  cbn [wait_loop].
  destruct (now w) as [t w1] eqn:Hnow.
  destruct (Qle_bool _ _) eqn:Hle.
  { intros [= <- <-]. split; [done|]. intros clock Hk _.
    apply Qle_bool_iff in Hle.
    pose proof (now_reads clock Hk w) as Hread.
    pose proof (now_later clock Hk w) as Hlater.
    rewrite Hnow in Hread, Hlater. cbn [fst snd] in *. subst t. lra. }
  pose proof (poll_swallows w1) as Hpoll.
  destruct (poll w1) as [[e|[|]] w2]; cbn [fst] in Hpoll.
  - intros [= <- <-]. split; [|done]. intros msg [= ->]. by destruct (Hpoll msg).
  - intros [= <- <-]. by split.
  - destruct (sleep w2) as [[e|] w3] eqn:Hsleep; [|apply IH].
    intros [= <- <-]. split; [|done]. intros msg [= ->].
    exists w2. by rewrite Hsleep.
Qed.

(** X20.  With a clock that [time.time()] reads, that nothing turns back
    and that a sleep advances by a second, [wait_for_processing] returns:
    one more turn of the loop than the timeout has seconds is enough, and
    further turns change neither the answer nor the state it leaves.  The
    answer is [True], [False] or a [KeyboardInterrupt]. *)
Theorem wait_for_processing_returns (clock : world → Q) (timeout : Z)
    (w : world) :
  keeps_time clock →
  ∃ r w',
    (∀ fuel, (Z.to_nat timeout < fuel)%nat →
             wait_for_processing fuel timeout w = Some (r, w'))
    ∧ (r = inr true ∨ r = inr false ∨ r = inl KeyboardInterrupt).
Proof.
  intros Hk.
  assert (Hsome : is_Some (wait_for_processing (S (Z.to_nat timeout)) timeout w)).
  { unfold wait_for_processing.
    pose proof (now_reads clock Hk w) as Hread.
    pose proof (now_later clock Hk w) as Hlater.
    destruct (now w) as [start_time w0]. cbn [fst snd] in *. subst start_time.
    destruct (wait_loop_returns clock (Z.to_nat timeout) (clock w) timeout w0 Hk)
      as [[r w'] ->].
    - assert (inject_Z timeout <= inject_Z (Z.of_nat (Z.to_nat timeout)))%Q
        by (rewrite <- Zle_Qle; lia).
      lra.
    - by destruct r as [[|]|]. }
  destruct Hsome as [[r w'] Hr]. exists r, w'. split.
  - intros fuel Hfuel.
    replace fuel with (S (Z.to_nat timeout) + (fuel - S (Z.to_nat timeout)))%nat
      by lia.
    revert Hr. unfold wait_for_processing. destruct (now w) as [start_time w0].
    destruct (wait_loop (S _) _ _ _) as [[r0 w0']|] eqn:Hloop; [|by destruct r].
    by rewrite (wait_loop_more _ _ _ _ _ _ Hloop).
  - revert Hr. unfold wait_for_processing. destruct (now w) as [start_time w0].
    destruct (wait_loop (S _) _ _ _) as [[[[|msg]|[|]] w0']|];
      intros [= <- <-]; auto.
Qed.

(** X21.  No [Exception] leaves [wait_for_processing]: one raised by a
    lookup is swallowed and the polling goes on, one raised by the sleep
    ends the wait with [False].  With a clock as above and a sleep that
    raises no [Exception], the answer [False] is given only once the
    timeout has passed since the call; with a timeout that is not positive
    it is given at once, without any lookup. *)
Theorem wait_for_processing_verdict (fuel : nat) (timeout : Z) (w : world) :
  (∀ r w', wait_for_processing fuel timeout w = Some (r, w') →
           ∀ msg, r ≠ inl (Exception msg))
  ∧ (∀ clock, keeps_time clock →
       (∀ w0 msg, (sleep w0).1 ≠ Some (Exception msg)) →
       ∀ w', wait_for_processing fuel timeout w = Some (inr false, w') →
             (inject_Z timeout <= clock w' - clock w)%Q)
  ∧ (∀ clock, keeps_time clock → timeout ≤ 0 →
       wait_for_processing (S fuel) timeout w
       = Some (inr false, (now (now w).2).2)).
Proof.
  split; [|split].
  - intros r w'. unfold wait_for_processing. destruct (now w) as [start_time w0].
    destruct (wait_loop _ _ _ _) as [[[[|msg0]|b] w0']|];
      intros [= <- <-] msg; done.
  - intros clock Hk Hsleep w'. unfold wait_for_processing.
    pose proof (now_reads clock Hk w) as Hread.
    destruct (now w) as [start_time w0]. cbn [fst] in Hread. subst start_time.
    destruct (wait_loop _ _ _ _) as [[r0 w0']|] eqn:Hloop; [|done].
    destruct (wait_loop_verdict _ _ _ _ _ _ Hloop) as [Hexc Hfalse].
    destruct r0 as [[|msg]|b]; [done| |].
    + destruct (Hexc msg eq_refl) as [w2 Hw2]. by destruct (Hsleep w2 msg).
    + intros [= -> <-]. by apply Hfalse.
  - intros clock Hk Htimeout. unfold wait_for_processing.
    pose proof (now_reads clock Hk w) as Hread.
    pose proof (now_later clock Hk w) as Hlater.
    destruct (now w) as [start_time w0]. cbn [fst snd] in *. subst start_time.
    cbn [wait_loop].
    pose proof (now_reads clock Hk w0) as Hread0.
    destruct (now w0) as [t w1]. cbn [fst snd] in *. subst t.
    destruct (Qle_bool _ _) eqn:Hle; [done|]. exfalso.
    assert (Hnot : ¬ (inject_Z timeout <= clock w0 - clock w)%Q)
      by (rewrite <- Qle_bool_iff; congruence).
    apply Hnot.
    assert (inject_Z timeout <= inject_Z 0)%Q by (by rewrite <- Zle_Qle).
    change (inject_Z 0) with 0%Q in *. lra.
Qed.

End PollingFacts.

Lemma ticking_keeps_time (ready : Z) :
  @Polling.keeps_time Z (Polling.ticking ready) inject_Z.
Proof.
  split.
  - by intros w.
  - intros w. apply Qle_refl.
  - intros x w. apply Qle_refl.
  - intros w _. change (inject_Z w + inject_Z 1 <= inject_Z (w + 1))%Q.
    rewrite inject_Z_plus. apply Qle_refl.
Qed.

Lemma stale_keeps_time (ready : Z) :
  @Polling.keeps_time Z (Polling.stale ready) inject_Z.
Proof.
  split.
  - by intros w.
  - intros w. apply Qle_refl.
  - intros x w. apply Qle_refl.
  - intros w _. change (inject_Z w + inject_Z 1 <= inject_Z (w + 1))%Q.
    rewrite inject_Z_plus. apply Qle_refl.
Qed.

Lemma wait_for_processing_returns_witness :
  ∃ r w',
    (∀ fuel, (60 < fuel)%nat →
       @Polling.wait_for_processing Z (Polling.stale 3) fuel 60 0 = Some (r, w'))
    ∧ (r = inr true ∨ r = inr false ∨ r = inl Py.KeyboardInterrupt).
Proof.
  exact (@wait_for_processing_returns Z (Polling.stale 3) inject_Z 60 0
           (stale_keeps_time 3)).
Defined.

Lemma wait_for_processing_verdict_witness :
  (inject_Z 2 <= inject_Z 2 - inject_Z 0)%Q
  ∧ @Polling.wait_for_processing Z (Polling.ticking 0) 1 0 5 = Some (inr false, 5).
Proof.
  split.
  - refine (proj1 (proj2 (@wait_for_processing_verdict Z (Polling.ticking 3)
                            5 2 0))
              inject_Z (ticking_keeps_time 3) _ 2 _); [done | reflexivity].
  - exact (proj2 (proj2 (@wait_for_processing_verdict Z (Polling.ticking 0)
                           0 0 5))
             inject_Z (ticking_keeps_time 0) ltac:(done)).
Defined.

(** * The images a run goes on with *)

Section Selection.

Import TestDatasetManager RunTests.

Lemma limit_window {A} (images : list A) (start_index : Z)
    (max_images : option Z) :
  ∃ a b, apply_limits start_index max_images images = take b (drop a images).
Proof.
  exists (Z.to_nat start_index).
  destruct max_images as [m|].
  - destruct (Z.lt_trichotomy m 0) as [Hm|[->|Hm]].
    + eexists. by apply limit_negative.
    + exists (length images). unfold apply_limits. cbn [Z.eqb].
      rewrite limit_start. symmetry. apply take_ge. rewrite length_drop. lia.
    + eexists. by apply limit_positive.
  - exists (length images). unfold apply_limits.
    rewrite limit_start. symmetry. apply take_ge. rewrite length_drop. lia.
Qed.

Lemma validate_dataset_Forall (path_exists : string → bool) (self : manager) :
  validate_dataset path_exists self = true →
  Forall (λ it : item, path_exists it.1 = true) (images self).
Proof.
  unfold validate_dataset. rewrite validate_fold. by intros [_ ?].
Qed.

Lemma load_classes_exception exts dir abs_base base classes imgs e :
  (load_classes exts dir abs_base base classes imgs).1 = Some e →
  ∃ msg, e = Exception msg.
Proof.
  revert imgs. induction classes as [|c classes IH]; intros imgs;
    cbn [load_classes]; [done|].
  destruct (resolve base (possible_names c)) as [[name [|entries| |]]|];
    cbn [scan_class fst]; try apply IH; intros [= <-]; eauto.
Qed.

Lemma load_dataset_exception (self : manager) (fs : filesystem) (e : exn) :
  (load_dataset self fs).1 = inl e → ∃ msg, e = Exception msg.
Proof.
  unfold load_dataset. destruct (root fs) as [base|]; [|intros [= <-]; eauto].
  pose proof (load_classes_exception (supported_extensions self) (base_dir self) (absolute fs)
                base [0; 1; 2; 3] [] e) as Hexc.
  destruct (load_classes _ _ _ _ _ _) as [[e'|] imgs]; [|done].
  intros [= ->]. by apply Hexc.
Qed.

Lemma load_dataset_returned (self : manager) (fs : filesystem)
    (imgs : list item) :
  (load_dataset self fs).1 = inr imgs → images (load_dataset self fs).2 = imgs.
Proof.
  unfold load_dataset. destruct (root fs) as [base|]; [|done].
  destruct (load_classes _ _ _ _ _ _) as [[e|] imgs']; [done|]. by intros [= <-].
Qed.

(** X22.  The images a run goes on with, when step 1 of [run_tests] does
    not give up, are a window of the list that [load_dataset] returned,
    which was not empty: each of them has a path that existed at the
    validation and a label among 0, 1, 2, 3, and the labels never decrease
    along the list.  Step 1 gives up, and raises nothing, when the load
    raises and when the path of one loaded image does not exist, however
    the limits are set. *)
Theorem selected_images_sound (images_dir : string) (start_index : Z)
    (max_images : option Z) (fs : filesystem) (path_exists : string → bool) :
  let outcome := load_dataset (init images_dir (Some SUPPORTED_EXTENSIONS)) fs in
  (∀ selected,
     select_images images_dir start_index max_images fs path_exists
     = inr (Some selected) →
     ∃ loaded,
       outcome.1 = inr loaded ∧ loaded ≠ []
       ∧ selected = apply_limits start_index max_images loaded
       ∧ selected `sublist_of` loaded
       ∧ Forall (λ it : item, path_exists it.1 = true ∧ it.2 ∈ [0; 1; 2; 3])
                selected
       ∧ StronglySorted Z.le selected.*2)
  ∧ (∀ e, outcome.1 = inl e →
          select_images images_dir start_index max_images fs path_exists
          = inr None)
  ∧ (∀ loaded it, outcome.1 = inr loaded → it ∈ loaded →
                  path_exists it.1 = false →
                  select_images images_dir start_index max_images fs path_exists
                  = inr None).
Proof.
  intros outcome. subst outcome. split; [|split].
  - intros selected. unfold select_images.
    destruct (root fs) as [base|] eqn:Hroot;
      [|by unfold load_dataset; rewrite Hroot].
    pose proof (load_dataset_order_labels
                  (init images_dir (Some SUPPORTED_EXTENSIONS)) fs base Hroot)
      as [Hlabels _].
    pose proof (load_dataset_images
                  (init images_dir (Some SUPPORTED_EXTENSIONS)) fs base Hroot)
      as Himages.
    pose proof (class_blocks_sorted SUPPORTED_EXTENSIONS (absolute fs) base)
      as Hsorted.
    pose proof (load_dataset_returned
                  (init images_dir (Some SUPPORTED_EXTENSIONS)) fs) as Hsame.
    destruct (load_dataset _ fs) as [[[|msg]|loaded] dataset_manager];
      try done.
    cbn [fst snd] in *. specialize (Hsame loaded eq_refl).
    destruct loaded as [|it loaded]; [done|].
    destruct (validate_dataset path_exists dataset_manager) eqn:Hvalid; [|done].
    intros [= <-]. exists (it :: loaded).
    apply validate_dataset_Forall in Hvalid. rewrite Hsame in *.
    destruct (limit_window (it :: loaded) start_index max_images)
      as (a & b & ->).
    split; [done|]. split; [done|]. split; [done|]. split; [|split].
    + etrans; [apply sublist_take | apply sublist_drop].
    + apply Forall_take, Forall_drop.
      rewrite Forall_forall in Hvalid, Hlabels. apply Forall_forall. auto.
    + rewrite fmap_take, fmap_drop.
      change (init images_dir (Some SUPPORTED_EXTENSIONS)).(supported_extensions)
        with SUPPORTED_EXTENSIONS in Himages.
      rewrite <- Himages in Hsorted.
      apply (StronglySorted_app_1_l _ _ (drop b (drop a (it :: loaded).*2))).
      rewrite take_drop.
      apply (StronglySorted_app_1_r _ (take a (it :: loaded).*2)).
      by rewrite take_drop.
  - intros e. unfold select_images.
    pose proof (load_dataset_exception
                  (init images_dir (Some SUPPORTED_EXTENSIONS)) fs) as Hexc.
    destruct (load_dataset _ fs) as [[e'|loaded] dataset_manager];
      cbn [fst] in *; [|done].
    intros _. by destruct (Hexc e' eq_refl) as [msg ->].
  - intros loaded it. unfold select_images.
    pose proof (load_dataset_returned
                  (init images_dir (Some SUPPORTED_EXTENSIONS)) fs) as Hsame.
    destruct (load_dataset _ fs) as [[e'|loaded'] dataset_manager];
      cbn [fst snd] in *; [done|].
    intros [= ->] Hit Hmissing. specialize (Hsame loaded eq_refl).
    destruct loaded as [|it0 loaded]; [done|].
    destruct (validate_dataset path_exists dataset_manager) eqn:Hvalid; [|done].
    apply validate_dataset_Forall in Hvalid. rewrite Hsame in Hvalid.
    rewrite Forall_forall in Hvalid. specialize (Hvalid it Hit). congruence.
Qed.

End Selection.

Lemma selected_images_sound_witness :
  Forall (λ it : string * Z, it.2 ∈ [0; 1; 2; 3])
         [("/data/test_images/MES 1/a.jpg", 1); ("/data/test_images/2/b.PNG", 2)]
  ∧ StronglySorted Z.le
      [("/data/test_images/MES 1/a.jpg", 1); ("/data/test_images/2/b.PNG", 2)].*2
  ∧ RunTests.select_images "/data" 0 None TestDatasetManager.blocked_at_two
      (λ _, true) = inr None.
Proof.
  destruct (selected_images_sound "/data" 0 None TestDatasetManager.two_classes
              (λ _, true)) as (Hsome & _ & _).
  destruct (Hsome [("/data/test_images/MES 1/a.jpg", 1);
                   ("/data/test_images/2/b.PNG", 2)] eq_refl)
    as (loaded & _ & _ & _ & _ & Hall & Hsorted).
  split; [|split; [exact Hsorted|]].
  - eapply Forall_impl; [exact Hall|]. by intros it [_ ?].
  - exact (proj1 (proj2 (selected_images_sound "/data" 0 None
                           TestDatasetManager.blocked_at_two (λ _, true)))
             _ eq_refl).
Defined.
